(** * A shallow embedding of the renter's revision protocol and sector builder

    The development follows the source files of the renter:

    - [renter/proto/negotiate.go]: settings re-exchange, the opening
      handshake, the signature exchange of one revision iteration, the
      construction of new file-contract revisions and the encoding of
      action sets;
    - the sector builder and shard uploader of package [renter];
    - the clients of package [renterutil] and the [migrate] action of the
      command [user].

    Machine integers are integers of [Z] with their wrap-around written out,
    byte strings are lists of [byte], Go slices are lists, a network
    connection is a script of frames the host will send together with the
    list of objects the renter has written so far. *)

From Stdlib Require Import ZArith NArith String List Bool Lia.
From Stdlib Require Import Strings.Byte.
Import ListNotations.

Open Scope Z_scope.

(** ** Machine integers *)

Definition u64 (z : Z) : Z := z mod 2 ^ 64.
Definition u32 (z : Z) : Z := z mod 2 ^ 32.

(** Go's [int] and [int64] on the supported platforms: two's complement on
    64 bits. *)
Definition i64 (z : Z) : Z := (z + 2 ^ 63) mod 2 ^ 64 - 2 ^ 63.

Definition maxInt : Z := 2 ^ 63 - 1.

Definition len {A : Type} (l : list A) : Z := Z.of_nat (length l).

(** ** Constants of package [proto] *)

(** Modelled from the spec: [proto.SegmentSize], the cipher block size; its
    declaration is not part of the two source files. *)
Definition SegmentSize : Z := 64.

(** Modelled from the spec: [proto.SectorSize], 4 MiB; its declaration is not
    part of the two source files. *)
Definition SectorSize : Z := 4194304.

(** Modelled from the spec: [proto.SegmentsPerSector]; its declaration is not
    part of the two source files. *)
Definition SegmentsPerSector : Z := 65536.

(** ** Go errors *)

Inductive error : Type :=
| errNew (msg : string)                  (* errors.New(msg) *)
| errWrap (cause : error) (msg : string) (* errors.Wrap(cause, msg) *)
| ErrStopResponse                        (* the sentinel modules.ErrStopResponse *)
| ErrObjectTooLarge                      (* encoding: length prefix above the limit *)
| errDecode                              (* encoding: the bytes do not decode *)
| errEOF                                 (* io.EOF: the host sent nothing more *)
| errClosed                              (* "use of closed network connection" *)
| ErrInvalidSignature                    (* crypto.ErrInvalidSignature *)
| goPanic (msg : string).                (* a run-time panic *)

Definition error_is_stop (e : error) : bool :=
  match e with ErrStopResponse => true | _ => false end.

(** A state and error monad: a computation over a state [S] ends in an error
    or in a value, and always in a state. *)
Definition M (S A : Type) : Type := S -> (error + A) * S.

Definition ret {S A : Type} (a : A) : M S A := fun s => (inr a, s).

Definition fail {S A : Type} (e : error) : M S A := fun s => (inl e, s).

Definition bind {S A B : Type} (m : M S A) (k : A -> M S B) : M S B :=
  fun s =>
    match m s with
    | (inl e, s') => (inl e, s')
    | (inr a, s') => k a s'
    end.

(** [if err := m; err != nil { return errors.Wrap(err, msg) }] *)
Definition wrapping {S A : Type} (msg : string) (m : M S A) : M S A :=
  fun s =>
    match m s with
    | (inl e, s') => (inl (errWrap e msg), s')
    | (inr a, s') => (inr a, s')
    end.

(** [err := m], with the error kept as a value. *)
Definition catch {S A : Type} (m : M S A) : M S (error + A) :=
  fun s => let (r, s') := m s in (inr r, s').

Declare Scope go_scope.
Delimit Scope go_scope with go.
Notation "x <- m ;; k" := (bind m (fun x => k))
  (at level 61, m at next level, right associativity) : go_scope.
Notation "m ;;; k" := (bind m (fun _ => k))
  (at level 61, right associativity) : go_scope.

(** The same for code that can only panic: [None] is the panic. *)
Definition obind {A B : Type} (o : option A) (k : A -> option B) : option B :=
  match o with Some a => k a | None => None end.

Notation "x <-? o ;; k" := (obind o (fun x => k))
  (at level 61, o at next level, right associativity) : go_scope.

(** ** Sia types *)

Module types.

Definition Hash : Type := list byte.

(** The zero value of a 32-byte array. *)
Definition zeroHash : Hash := repeat x00 32.

Fixpoint bytes_eqb (a b : list byte) : bool :=
  match a, b with
  | [], [] => true
  | x :: a', y :: b' => Byte.eqb x y && bytes_eqb a' b'
  | _, _ => false
  end.

(** [types.Currency]: a non-negative big integer. *)
Definition Currency : Type := N.

(** [Currency.Sub]: [x - y]. The library leaves the case [x < y] undefined;
    its code then reports a critical error and keeps [x]. *)
Definition Currency_Sub (x y : Currency) : Currency :=
  if (x <? y)%N then x else (x - y)%N.

Definition Currency_Add (x y : Currency) : Currency := (x + y)%N.

(** [Currency.Cmp]: -1, 0 or 1. *)
Definition Currency_Cmp (x y : Currency) : Z :=
  match (x ?= y)%N with Lt => -1 | Eq => 0 | Gt => 1 end.

Record SiacoinOutput : Type := mkOutput {
  Value : Currency;
  UnlockHash : Hash
}.

Definition zeroOutput : SiacoinOutput := mkOutput 0%N zeroHash.

Record UnlockConditions : Type := mkUnlockConditions {
  Timelock : Z;
  PublicKeys : list (list byte);
  SignaturesRequired : Z
}.

Record FileContractRevision : Type := mkRevision {
  ParentID : Hash;
  RevUnlockConditions : UnlockConditions;
  NewRevisionNumber : Z;                      (* uint64 *)
  NewFileSize : Z;                            (* uint64 *)
  NewFileMerkleRoot : Hash;
  NewWindowStart : Z;                         (* BlockHeight, uint64 *)
  NewWindowEnd : Z;                           (* BlockHeight, uint64 *)
  NewValidProofOutputs : list SiacoinOutput;
  NewMissedProofOutputs : list SiacoinOutput;
  NewUnlockHash : Hash
}.

Definition zeroRevision : FileContractRevision :=
  mkRevision zeroHash (mkUnlockConditions 0 [] 0) 0 0 zeroHash 0 0 [] [] zeroHash.

Record CoveredFields : Type := mkCovered {
  WholeTransaction : bool;
  CoveredFileContractRevisions : list Z
}.

Record TransactionSignature : Type := mkTxnSig {
  SigParentID : Hash;
  PublicKeyIndex : Z;
  SigTimelock : Z;
  SigCoveredFields : CoveredFields;
  Signature : list byte
}.

(** The two fields of [types.Transaction] the negotiation fills in; every
    other field stays at its zero value. *)
Record Transaction : Type := mkTransaction {
  FileContractRevisions : list FileContractRevision;
  TransactionSignatures : list TransactionSignature
}.

Definition zeroTransaction : Transaction := mkTransaction [] [].

Definition sumValues (l : list SiacoinOutput) : N :=
  fold_right (fun o acc => (Value o + acc)%N) 0%N l.

End types.

Import types.

(** ** Go slices *)

(** [make([]SiacoinOutput, n)] *)
Definition make (n : nat) : list SiacoinOutput := repeat zeroOutput n.

(** [copy(dst, src)]: the first [min(len(dst), len(src))] elements of [dst]
    are overwritten. *)
Definition copy {A : Type} (dst src : list A) : list A :=
  firstn (length dst) src ++ skipn (length src) dst.

(** [l[i]]: a panic when [i] is out of range. *)
Definition index {A : Type} (l : list A) (i : nat) : option A := nth_error l i.

Fixpoint setValue (l : list SiacoinOutput) (i : nat) (v : Currency)
  : option (list SiacoinOutput) :=
  match l, i with
  | [], _ => None
  | o :: l', O => Some (mkOutput v (UnlockHash o) :: l')
  | o :: l', S i' =>
      match setValue l' i' v with
      | Some r => Some (o :: r)
      | None => None
      end
  end.

(** ** Host settings and scanned hosts (package [hostdb]) *)

Module hostdb.

(** Modelled from the spec: the record of host settings of package
    [hostdb], whose declaration is not part of the two source files; the
    fields are the ones the data model lists. *)
Record HostSettings : Type := mkSettings {
  NetAddress : string;
  AcceptingContracts : bool;
  MaxDuration : Z;
  MaxCollateral : Currency;
  StoragePrice : Currency;
  UploadBandwidthPrice : Currency;
  DownloadBandwidthPrice : Currency;
  ContractPrice : Currency;
  WindowSize : Z;
  SettingsSectorSize : Z;
  RevisionNumber : Z
}.

Definition withNetAddress (s : HostSettings) (addr : string) : HostSettings :=
  mkSettings addr (AcceptingContracts s) (MaxDuration s) (MaxCollateral s)
    (StoragePrice s) (UploadBandwidthPrice s) (DownloadBandwidthPrice s)
    (ContractPrice s) (WindowSize s) (SettingsSectorSize s) (RevisionNumber s).

(** Modelled from the spec: [hostdb.ScannedHost], the settings of a host
    (an embedded struct) together with its public key, a string
    ["ed25519:" || hex]. *)
Record ScannedHost : Type := mkHost {
  Settings : HostSettings;
  PublicKey : string
}.

End hostdb.

Import hostdb.

(** ** Cryptography and consensus rules

    The primitives of the Sia libraries the renter calls. They are kept
    abstract: every statement below holds whatever they compute. *)

Class SiaCrypto : Type := {
  (** [crypto.HashBytes] *)
  HashBytes : list byte -> Hash;
  (** [crypto.SignHash(hash, secretKey)] *)
  SignHash : Hash -> list byte -> list byte;
  (** [HostPublicKey.Ed25519()] *)
  Ed25519 : string -> list byte;
  (** the signature check of [crypto.ReadSignedObject]: the signature over
      the canonical encoding of the settings, under the given public key *)
  VerifySettingsSignature : list byte -> HostSettings -> list byte -> bool;
  (** [UnlockConditions.UnlockHash()] *)
  UnlockConditionsHash : UnlockConditions -> Hash;
  (** [Transaction.SigHash(i)] *)
  SigHash : Transaction -> Z -> Hash;
  (** [Transaction.StandaloneValid(height)]; [None] is [nil] *)
  StandaloneValid : Transaction -> Z -> option error;
  (** [modules.VerifyFileContractRevisionTransactionSignatures] *)
  VerifyFileContractRevisionTransactionSignatures :
    FileContractRevision -> list TransactionSignature -> Z -> option error
}.

(** ** The wire

    Every object travels length-prefixed. A frame is an object the host
    sends, with the value of its length prefix. *)

Inductive object : Type :=
| OString (s : string)
| OSpecifier (s : string)
| OHash (h : Hash)
| OSignature (sig : list byte)
| ORevision (r : FileContractRevision)
| OSignatures (sigs : list TransactionSignature)
| OTxnSignature (sig : TransactionSignature)
| OSignedSettings (settings : HostSettings) (sig : list byte).

Record frame : Type := mkFrame {
  frameLen : Z;
  frameObj : object
}.

(** A connection to a host: what the host is still going to send, what the
    renter has written, and whether the renter has closed it. *)
Record Conn : Type := mkConn {
  connIn : list frame;
  connOut : list object;
  connClosed : bool
}.

Module encoding.

Local Open Scope go_scope.

(** [encoding.WriteObject(conn, v)] *)
Definition WriteObject (v : object) : M Conn unit :=
  fun c =>
    if connClosed c then (inl errClosed, c)
    else (inr tt, mkConn (connIn c) (connOut c ++ [v]) (connClosed c)).

(** The length prefix and the bytes of the next object, refused above
    [maxLen]. *)
Definition ReadPrefix (maxLen : Z) : M Conn object :=
  fun c =>
    if connClosed c then (inl errClosed, c)
    else
      match connIn c with
      | [] => (inl errEOF, c)
      | f :: rest =>
          let c' := mkConn rest (connOut c) (connClosed c) in
          if maxLen <? frameLen f then (inl ErrObjectTooLarge, c')
          else (inr (frameObj f), c')
      end.

(** [encoding.ReadObject(conn, &v, maxLen)], one per type of [v]. *)
Definition ReadString (maxLen : Z) : M Conn string :=
  o <- ReadPrefix maxLen ;;
  match o with OString s => ret s | _ => fail errDecode end.

Definition ReadHash (maxLen : Z) : M Conn Hash :=
  o <- ReadPrefix maxLen ;;
  match o with
  | OHash h => if (length h =? 32)%nat then ret h else fail errDecode
  | _ => fail errDecode
  end.

Definition ReadRevision (maxLen : Z) : M Conn FileContractRevision :=
  o <- ReadPrefix maxLen ;;
  match o with ORevision r => ret r | _ => fail errDecode end.

Definition ReadSignatures (maxLen : Z) : M Conn (list TransactionSignature) :=
  o <- ReadPrefix maxLen ;;
  match o with OSignatures l => ret l | _ => fail errDecode end.

Definition ReadTxnSignature (maxLen : Z) : M Conn TransactionSignature :=
  o <- ReadPrefix maxLen ;;
  match o with OTxnSignature s => ret s | _ => fail errDecode end.

(** [conn.Close()] *)
Definition Close (c : Conn) : option error * Conn :=
  if connClosed c then (Some errClosed, c)
  else (None, mkConn (connIn c) (connOut c) true).

End encoding.

Module crypto.

Local Open Scope go_scope.

(** [crypto.ReadSignedObject(conn, &settings, maxLen, pk)] *)
Definition ReadSignedObject `{SiaCrypto} (maxLen : Z) (pk : list byte)
  : M Conn HostSettings :=
  o <- encoding.ReadPrefix maxLen ;;
  match o with
  | OSignedSettings settings sig =>
      if VerifySettingsSignature pk settings sig then ret settings
      else fail ErrInvalidSignature
  | _ => fail errDecode
  end.

(** [crypto.SecureWipe(h[:n])] *)
Definition SecureWipe (n : nat) (h : Hash) : Hash :=
  repeat x00 (Nat.min n (length h)) ++ skipn n h.

End crypto.

Module modules.

Local Open Scope go_scope.
Definition AcceptResponse : string := "accept".
Definition StopResponse : string := "stop".

Definition NegotiateMaxErrorSize : Z := 256.
Definition NegotiateMaxHostExternalSettingsLen : Z := 16000.

Definition WriteNegotiationAcceptance : M Conn unit :=
  encoding.WriteObject (OString AcceptResponse).

Definition WriteNegotiationStop : M Conn unit :=
  encoding.WriteObject (OString StopResponse).

(** [modules.ReadNegotiationAcceptance]: [nil] on ["accept"], the sentinel
    on ["stop"], and the host's message as an error otherwise. *)
Definition ReadNegotiationAcceptance : M Conn unit :=
  resp <- encoding.ReadString NegotiateMaxErrorSize ;;
  if String.eqb resp AcceptResponse then ret tt
  else if String.eqb resp StopResponse then fail ErrStopResponse
  else fail (errNew resp).

End modules.

(** ** Go's standard library: [strings], [encoding/binary], [io] *)

Module strings.

(** [strings.HasPrefix(s, prefix)] *)
Definition HasPrefix (s prefix : string) : bool := String.prefix prefix s.

(** [strings.Contains(s, substr)] *)
Fixpoint Contains (s substr : string) : bool :=
  HasPrefix s substr
  || match s with
     | EmptyString => false
     | String _ s' => Contains s' substr
     end.

End strings.

Module binary.

(** [byte(v)]: the low eight bits. *)
Definition byteOf (v : Z) : byte :=
  match Byte.of_N (Z.to_N (v mod 256)) with
  | Some b => b
  | None => x00
  end.

(** The [n] low bytes of [v], the lowest first: [byte(v)], [byte(v >> 8)],
    ... *)
Fixpoint littleEndian (n : nat) (v : Z) : list byte :=
  match n with
  | O => []
  | S n' => byteOf v :: littleEndian n' (Z.shiftr v 8)
  end.

(** [binary.LittleEndian.PutUint64(buf, v)]: the eight bytes left in [buf]. *)
Definition PutUint64 (v : Z) : list byte := littleEndian 8 v.

(** [binary.LittleEndian.Uint64(b)], for a [b] of at least eight bytes (Go
    panics on a shorter one): the number its first eight bytes spell. *)
Definition Uint64 (b : list byte) : Z :=
  fold_right (fun x acc => Z.of_N (Byte.to_N x) + 256 * acc) 0 (firstn 8 b).

End binary.

Module io.

(** The interface [io.Writer]: [Write(p)] returns [(n, err)]. *)
Class Writer (W : Type) : Type := {
  Write : W -> list byte -> (Z * option error) * W
}.

(** [bytes.Buffer] as a writer: it grows and never fails. *)
Definition Buffer : Writer (list byte) :=
  {| Write := fun w p => ((len p, None), w ++ p) |}.

End io.

(** ** Revision construction ([negotiate.go]) *)

Module proto.

Local Open Scope go_scope.

Definition withOutputs (r : FileContractRevision)
    (valid missed : list SiacoinOutput) : FileContractRevision :=
  mkRevision (ParentID r) (RevUnlockConditions r) (NewRevisionNumber r)
    (NewFileSize r) (NewFileMerkleRoot r) (NewWindowStart r) (NewWindowEnd r)
    valid missed (NewUnlockHash r).

Definition withRevisionNumber (r : FileContractRevision) (n : Z)
  : FileContractRevision :=
  mkRevision (ParentID r) (RevUnlockConditions r) n
    (NewFileSize r) (NewFileMerkleRoot r) (NewWindowStart r) (NewWindowEnd r)
    (NewValidProofOutputs r) (NewMissedProofOutputs r) (NewUnlockHash r).

Definition withFile (r : FileContractRevision) (size : Z) (root : Hash)
  : FileContractRevision :=
  mkRevision (ParentID r) (RevUnlockConditions r) (NewRevisionNumber r)
    size root (NewWindowStart r) (NewWindowEnd r)
    (NewValidProofOutputs r) (NewMissedProofOutputs r) (NewUnlockHash r).

(** [newRevision]; [None] is an index-out-of-range panic. *)
Definition newRevision (current : FileContractRevision) (cost : Currency)
  : option FileContractRevision :=
  let valid := copy (make 2) (NewValidProofOutputs current) in
  let missed := copy (make 3) (NewMissedProofOutputs current) in
  (* move valid payout from renter to host *)
  cv0 <-? index (NewValidProofOutputs current) 0 ;;
  valid <-? setValue valid 0 (Currency_Sub (Value cv0) cost) ;;
  cv1 <-? index (NewValidProofOutputs current) 1 ;;
  valid <-? setValue valid 1 (Currency_Add (Value cv1) cost) ;;
  (* move missed payout from renter to void *)
  cm0 <-? index (NewMissedProofOutputs current) 0 ;;
  missed <-? setValue missed 0 (Currency_Sub (Value cm0) cost) ;;
  cm2 <-? index (NewMissedProofOutputs current) 2 ;;
  missed <-? setValue missed 2 (Currency_Add (Value cm2) cost) ;;
  (* increment revision number *)
  let rev := withOutputs current valid missed in
  Some (withRevisionNumber rev (u64 (NewRevisionNumber rev + 1))).

Definition newDownloadRevision (current : FileContractRevision)
    (downloadCost : Currency) : option FileContractRevision :=
  newRevision current downloadCost.

Definition newUploadRevision (current : FileContractRevision)
    (merkleRoot : Hash) (price collateral : Currency)
  : option FileContractRevision :=
  rev <-? newRevision current price ;;
  (* move collateral from host to void *)
  m1 <-? index (NewMissedProofOutputs rev) 1 ;;
  missed <-? setValue (NewMissedProofOutputs rev) 1
               (Currency_Sub (Value m1) collateral) ;;
  m2 <-? index missed 2 ;;
  missed <-? setValue missed 2 (Currency_Add (Value m2) collateral) ;;
  let rev := withOutputs rev (NewValidProofOutputs rev) missed in
  (* set new filesize and Merkle root *)
  Some (withFile rev (u64 (NewFileSize rev + SectorSize)) merkleRoot).

(** Modelled from the spec: [proto.ContractTransaction], declared outside the
    two source files: what the contract store exposes, namely the contract
    ID, the renter's secret key, the current revision and the end height. *)
Record ContractTransaction : Type := mkContractTransaction {
  ID : Hash;
  RenterKey : list byte;
  CurrentRevision : FileContractRevision;
  EndHeight : Z                               (* BlockHeight, uint64 *)
}.

(** The interface [proto.ContractEditor]: [Transaction()] and
    [SyncWithHost(rev, sigs)], which may rewrite the stored contract. *)
Class ContractEditor (C : Type) : Type := {
  ContractEditor_Transaction : C -> ContractTransaction;
  SyncWithHost :
    C -> FileContractRevision -> list TransactionSignature -> option error * C
}.

Definition errOf (r : error + unit) : option error :=
  match r with inl e => Some e | inr _ => None end.

(** What [initiateRPC] returns, [(net.Conn, error)], and what it leaves
    behind: the socket, if one was opened, and the contract. *)
Record RPCResult (C : Type) : Type := mkRPCResult {
  rpcConn : option Conn;
  rpcErr : option error;
  rpcSocket : option Conn;
  rpcContract : C
}.

Arguments mkRPCResult {C}.
Arguments rpcConn {C}.
Arguments rpcErr {C}.
Arguments rpcSocket {C}.
Arguments rpcContract {C}.

Section Negotiation.

Context `{SiaCrypto}.

(** [verifySettings] *)
Definition verifySettings (host : ScannedHost) : M Conn ScannedHost :=
  (* read signed host settings *)
  recvSettings <- wrapping "could not read signed host settings"
    (crypto.ReadSignedObject modules.NegotiateMaxHostExternalSettingsLen
       (Ed25519 (PublicKey host))) ;;
  let recvSettings :=
    if negb (String.eqb (NetAddress recvSettings) (NetAddress (Settings host)))
    then withNetAddress recvSettings (NetAddress (Settings host))
    else recvSettings in
  ret (mkHost recvSettings (PublicKey host)).

(** [startRevision]: the error returned, the value of [*host] and the
    connection afterwards. *)
Definition startRevision (host : ScannedHost) (conn : Conn)
  : option error * ScannedHost * Conn :=
  match verifySettings host conn with
  | (inl err, conn) => (Some err, host, conn)
  | (inr newhost, conn) =>
      if 0 <? Currency_Cmp (UploadBandwidthPrice (Settings newhost))
                           (UploadBandwidthPrice (Settings host))
      then (Some (errNew "host upload price increased"), host, conn)
      else if 0 <? Currency_Cmp (DownloadBandwidthPrice (Settings newhost))
                                (DownloadBandwidthPrice (Settings host))
      then (Some (errNew "host download price increased"), host, conn)
      else if 0 <? Currency_Cmp (StoragePrice (Settings newhost))
                                (StoragePrice (Settings host))
      then (Some (errNew "host storage price increased"), host, conn)
      else
        let (r, conn) := modules.WriteNegotiationAcceptance conn in
        (errOf r, newhost, conn)
  end.

(** [terminateRPC] *)
Definition terminateRPC (host : ScannedHost) (conn : Conn)
  : option error * Conn :=
  let (_, conn) := verifySettings host conn in
  let (_, conn) := modules.WriteNegotiationStop conn in
  encoding.Close conn.

(** [verifyRecentRevision] *)
Definition verifyRecentRevision (contract : ContractTransaction)
  : M Conn (FileContractRevision * list TransactionSignature) :=
  (* send contract ID *)
  wrapping "could not send contract ID"
    (encoding.WriteObject (OHash (ID contract))) ;;;
  (* read challenge *)
  challenge <- wrapping "could not read challenge" (encoding.ReadHash 32) ;;
  let challenge := crypto.SecureWipe 16 challenge in
  (* sign and return *)
  let sig := SignHash challenge (RenterKey contract) in
  wrapping "could not send challenge response"
    (encoding.WriteObject (OSignature sig)) ;;;
  (* read acceptance *)
  wrapping "host did not accept revision request"
    modules.ReadNegotiationAcceptance ;;;
  (* read host revision and signatures *)
  hostRevision <- wrapping "could not read host revision"
    (encoding.ReadRevision 2048) ;;
  hostSignatures <- wrapping "could not read host signatures"
    (encoding.ReadSignatures 2048) ;;
  (* validate the transaction signatures *)
  match VerifyFileContractRevisionTransactionSignatures hostRevision
          hostSignatures (u64 (EndHeight contract - 1)) with
  | Some err => fail (errWrap err "host sent invalid transaction")
  | None =>
      (* check that the unlock hashes match *)
      if negb (bytes_eqb
                 (UnlockConditionsHash (RevUnlockConditions hostRevision))
                 (UnlockConditionsHash
                    (RevUnlockConditions (CurrentRevision contract))))
      then fail (errNew "unlock conditions do not match")
      else ret (hostRevision, hostSignatures)
  end.

Definition closing {C : Type} (conn : Conn) (err : error) (contract : C)
  : RPCResult C :=
  mkRPCResult None (Some err) (Some (snd (encoding.Close conn))) contract.

(** [initiateRPC]; [dial] is the network: [net.DialTimeout("tcp", addr, _)]. *)
Definition initiateRPC {C : Type} `{ContractEditor C}
    (dial : string -> error + Conn) (addr : string) (rpc : string)
    (contract : C) : RPCResult C :=
  match dial addr with
  | inl err => mkRPCResult None (Some (errWrap err "could not dial host")) None contract
  | inr conn =>
      match encoding.WriteObject (OSpecifier rpc) conn with
      | (inl err, conn) =>
          closing conn (errWrap err "could not initiate RPC") contract
      | (inr _, conn) =>
          match verifyRecentRevision (ContractEditor_Transaction contract) conn with
          | (inl err, conn) =>
              closing conn
                (errWrap err "could not verify most recent contract revision")
                contract
          | (inr (hostRev, hostSigs), conn) =>
              match SyncWithHost contract hostRev hostSigs with
              | (Some err, contract) =>
                  closing conn
                    (errWrap err "could not synchronize contract with host")
                    contract
              | (None, contract) =>
                  mkRPCResult (Some conn) None (Some conn) contract
              end
          end
      end
  end.

(** The renter's signature entry of the negotiated transaction. *)
Definition renterSignature (rev : FileContractRevision) (sig : list byte)
  : TransactionSignature :=
  mkTxnSig (ParentID rev) 0 0 (mkCovered false [0]) sig.

(** [try m]: run [m] and keep its error as a value. *)
Definition try (m : M Conn unit) : M Conn (option error) :=
  fun c => let (r, c') := m c in (inr (errOf r), c').

(** [negotiateRevision]: the pair [(types.Transaction, error)] it returns and
    the connection afterwards. *)
Definition negotiateRevision (rev : FileContractRevision)
    (secretKey : list byte) (conn : Conn)
  : (Transaction * option error) * Conn :=
  (* create transaction containing the revision *)
  let signedTxn := mkTransaction [rev] [renterSignature rev []] in
  (* sign the transaction *)
  let encodedSig := SignHash (SigHash signedTxn 0) secretKey in
  let signedTxn := mkTransaction [rev] [renterSignature rev encodedSig] in
  let body : M Conn (Transaction * option error) :=
    (* send the revision *)
    wrapping "could not send revision"
      (encoding.WriteObject (ORevision rev)) ;;;
    (* read acceptance *)
    wrapping "host did not accept revision"
      modules.ReadNegotiationAcceptance ;;;
    (* send the new transaction signature *)
    wrapping "could not send transaction signature"
      (encoding.WriteObject (OTxnSignature (renterSignature rev encodedSig))) ;;;
    (* read the host's acceptance and transaction signature *)
    responseErr <- try modules.ReadNegotiationAcceptance ;;
    match responseErr with
    | Some e =>
        if negb (error_is_stop e)
        then fail (errWrap e "host did not accept transaction signature")
        else ret tt
    | None => ret tt
    end ;;;
    hostSig <- wrapping "could not read host's signature"
      (encoding.ReadTxnSignature 16000) ;;
    (* add the signature to the transaction and verify it *)
    let verificationHeight := u64 (NewWindowStart rev - 1) in
    let signedTxn :=
      mkTransaction (FileContractRevisions signedTxn)
        (TransactionSignatures signedTxn ++ [hostSig]) in
    match StandaloneValid signedTxn verificationHeight with
    | Some err => fail (errWrap err "negotiated transaction is invalid")
    | None =>
        (* if the host sent ErrStopResponse, return it *)
        ret (signedTxn, responseErr)
    end in
  match body conn with
  | (inl err, conn) => ((zeroTransaction, Some err), conn)
  | (inr r, conn) => (r, conn)
  end.

End Negotiation.

(** The text of a library's own error values: a parameter. *)
Class ErrorTexts : Type := {
  libraryError : error -> string
}.

(** [err.Error()]: [errors.New] keeps its message, [errors.Wrap] puts its
    message, a colon and a space before the text of the cause. *)
Fixpoint Error `{ErrorTexts} (e : error) : string :=
  match e with
  | errNew msg => msg
  | errWrap cause msg => (msg ++ ": " ++ Error cause)%string
  | other => libraryError other
  end.

(** [isHostDisconnect]; [None] is the [nil] error. *)
Definition isHostDisconnect `{ErrorTexts} (err : option error) : bool :=
  match err with
  | None => false
  | Some e => strings.Contains (Error e) "use of closed network connection"
  end.

(** [types.SpecifierLen] *)
Definition SpecifierLen : Z := 16.

(** [modules.RevisionAction]; [ActionType] is a specifier, an array of
    sixteen bytes. *)
Record RevisionAction : Type := mkAction {
  ActionType : list byte;
  ActionSectorIndex : Z;                      (* uint64 *)
  ActionOffset : Z;                           (* uint64 *)
  ActionData : list byte
}.

Definition actionSet : Type := list RevisionAction.

(** The loop of [actionSet.MarshalSia]. *)
Fixpoint marshalActions {W : Type} `{io.Writer W} (s : actionSet) (w : W)
  : option error * W :=
  match s with
  | [] => (None, w)
  | action :: rest =>
      let (_, w) := io.Write w (ActionType action) in
      let (_, w) := io.Write w (binary.PutUint64 (ActionSectorIndex action)) in
      let (_, w) := io.Write w (binary.PutUint64 (ActionOffset action)) in
      let (_, w) :=
        io.Write w (binary.PutUint64 (u64 (len (ActionData action)))) in
      let '((_, err), w) := io.Write w (ActionData action) in
      match err with
      | Some e => (Some e, w)
      | None => marshalActions rest w
      end
  end.

(** [actionSet.MarshalSia] *)
Definition MarshalSia {W : Type} `{io.Writer W} (s : actionSet) (w : W)
  : option error * W :=
  let (_, w) := io.Write w (binary.PutUint64 (u64 (len s))) in
  marshalActions s w.

(** The loop of [actionSet.MarshalSiaSize], from the size so far. *)
Fixpoint sizeActions (size : Z) (s : actionSet) {struct s} : Z :=
  match s with
  | [] => size
  | action :: rest =>
      let size := i64 (size + SpecifierLen) in
      let size := i64 (size + 8) in           (* SectorIndex *)
      let size := i64 (size + 8) in           (* Offset *)
      let size := i64 (size + 8) in           (* len(action.Data) *)
      let size := i64 (size + len (ActionData action)) in
      sizeActions size rest
  end.

(** [actionSet.MarshalSiaSize] *)
Definition MarshalSiaSize (s : actionSet) : Z :=
  sizeActions (i64 (0 + 8)) s.

End proto.

(** ** Sector builder and shard uploader (package [renter]) *)

Module renter.

Local Open Scope go_scope.

Definition EncryptionKey : Type := list byte.

(** Modelled from the spec: the struct [SectorSlice], declared outside the
    source file: [{offset: u32, length: u32, checksum: 32B, merkle_root: 32B}]. *)
Record SectorSlice : Type := mkSlice {
  Offset : Z;                                 (* uint32 *)
  Length : Z;                                 (* uint32 *)
  Checksum : Hash;
  MerkleRoot : Hash
}.

Definition zeroSlice : SectorSlice := mkSlice 0 0 zeroHash zeroHash.

Definition withMerkleRoot (root : Hash) (s : SectorSlice) : SectorSlice :=
  mkSlice (Offset s) (Length s) (Checksum s) root.

(** The functions of this repository the builder calls and whose code is
    outside the source file: [proto.SectorMerkleRoot] and
    [EncryptionKey.EncryptSegments(dst, src, startIndex)], here with the
    bytes it produces for [dst]. *)
Class SectorOps : Type := {
  SectorMerkleRoot : list byte -> Hash;
  EncryptSegments : EncryptionKey -> list byte -> Z -> list byte
}.

(** Modelled from the spec: the cipher is segment-indexed; the segment
    [k] of the bytes handed to [EncryptSegments] is encrypted under the
    index [startIndex + k], an unsigned 64-bit counter. *)
Definition segmentIndices (startIndex : Z) (nbytes : Z) : list Z :=
  map (fun k => u64 (startIndex + Z.of_nat k))
      (seq 0 (Z.to_nat (nbytes / SegmentSize))).

(** [fastrand]: an endless tape of random bytes. *)
Definition Rng : Type := nat -> byte.

(** [fastrand.Read(buf)] for a buffer of [n] bytes: the bytes written and
    the rest of the tape. *)
Definition fastrand_Read (n : nat) (rng : Rng) : list byte * Rng :=
  (map rng (seq 0 n), fun i => rng (n + i)%nat).

Record SectorBuilder : Type := mkBuilder {
  sector : list byte;                         (* [proto.SectorSize]byte *)
  sectorLen : Z;                              (* int *)
  slices : list SectorSlice
}.

(** The zero value of a [SectorBuilder]: an empty sector. *)
Definition zeroBuilder : SectorBuilder :=
  mkBuilder (repeat x00 (Z.to_nat SectorSize)) 0 [].

(** [Reset] *)
Definition Reset (sb : SectorBuilder) : SectorBuilder :=
  mkBuilder (sector sb) 0 [].

(** The padding [Append] adds to [n] bytes of data. *)
Definition padding (n : Z) : Z :=
  let mod_ := Z.rem n SegmentSize in
  if negb (mod_ =? 0) then i64 (SegmentSize - mod_) else 0.

(** [startIndex := uint64(chunkIndex * proto.SegmentsPerSector)], the
    product being taken on [int64]. *)
Definition startIndex (chunkIndex : Z) : Z :=
  u64 (i64 (chunkIndex * SegmentsPerSector)).

Section Builder.

Context `{SiaCrypto} `{SectorOps}.

(** [Append]; the error is the panic. *)
Definition Append (data : list byte) (key : EncryptionKey) (chunkIndex : Z)
  : M (SectorBuilder * Rng) unit :=
  fun '(sb, rng) =>
    (* pad the data to a multiple of SegmentSize *)
    let padding := padding (len data) in
    if SectorSize <? i64 (i64 (sectorLen sb + len data) + padding)
    then (inl (goPanic "data exceeds sector size"), (sb, rng))
    else
      (* sb.sector[sb.sectorLen:][:len(data)+padding] *)
      let n := i64 (len data + padding) in
      if (sectorLen sb <? 0) || (len (sector sb) <? sectorLen sb)
         || (n <? 0) || (len (sector sb) - sectorLen sb <? n)
      then (inl (goPanic "slice bounds out of range"), (sb, rng))
      else
        (* copy the data into the sector, adding random padding *)
        let (pad, rng) := fastrand_Read (Z.to_nat padding) rng in
        let sectorSlice := data ++ pad in
        (* encrypt the data+padding in place *)
        let sectorSlice :=
          copy sectorSlice (EncryptSegments key sectorSlice (startIndex chunkIndex)) in
        let sector' :=
          firstn (Z.to_nat (sectorLen sb)) (sector sb) ++ sectorSlice
          ++ skipn (Z.to_nat (sectorLen sb + n)) (sector sb) in
        (* update sectorLen and record the new slice *)
        let slices' :=
          slices sb ++ [mkSlice (u32 (sectorLen sb)) (u32 (len data))
                          (HashBytes data) zeroHash] in
        (inr tt, (mkBuilder sector' (i64 (sectorLen sb + len sectorSlice)) slices', rng)).

(** [Len] *)
Definition Len (sb : SectorBuilder) : Z := sectorLen sb.

(** [Remaining] *)
Definition Remaining (sb : SectorBuilder) : Z :=
  i64 (len (sector sb) - sectorLen sb).

(** [Finish]: the sector it points to; the error is a panic. *)
Definition Finish : M (SectorBuilder * Rng) (list byte) :=
  fun '(sb, rng) =>
    if (sectorLen sb <? 0) || (len (sector sb) <? sectorLen sb)
    then (inl (goPanic "slice bounds out of range"), (sb, rng))
    else
      let tail := (length (sector sb) - Z.to_nat (sectorLen sb))%nat in
      let (fill, rng) := fastrand_Read tail rng in
      let sector' := firstn (Z.to_nat (sectorLen sb)) (sector sb) ++ fill in
      (* set Merkle root of each slice *)
      let sectorRoot := SectorMerkleRoot sector' in
      (inr sector',
       (mkBuilder sector' (len sector') (map (withMerkleRoot sectorRoot) (slices sb)),
        rng)).

(** [Slices] *)
Definition Slices (sb : SectorBuilder) : list SectorSlice := slices sb.

End Builder.

(** The methods of this repository a [ShardUploader] calls and whose code is
    outside the source file: [proto.Uploader.Upload(sector)], returning
    [(crypto.Hash, error)], and [Shard.WriteSlice(slice, chunkIndex)]. *)
Class UploadOps (U S : Type) : Type := {
  Upload : U -> list byte -> (Hash * option error) * U;
  WriteSlice : S -> SectorSlice -> Z -> option error * S
}.

Record ShardUploader (U S : Type) : Type := mkShardUploader {
  Uploader : U;
  Shard : S;
  Key : EncryptionKey;
  sb : SectorBuilder
}.

Arguments mkShardUploader {U S}.
Arguments Uploader {U S}.
Arguments Shard {U S}.
Arguments Key {U S}.
Arguments sb {U S}.

Section Uploading.

Context `{SiaCrypto} `{SectorOps} {U S : Type} `{UploadOps U S}.

(** A method of [u.sb], run on the uploader. *)
Definition onBuilder {A : Type} (m : M (SectorBuilder * Rng) A)
  : M (ShardUploader U S * Rng) A :=
  fun '(u, rng) =>
    let '(r, (b, rng)) := m (sb u, rng) in
    (r, (mkShardUploader (Uploader u) (Shard u) (Key u) b, rng)).

(** [EncryptAndUpload]: the pair [(SectorSlice, error)] it returns; the
    error of the monad is a panic. *)
Definition EncryptAndUpload (data : list byte) (chunkIndex : Z)
  : M (ShardUploader U S * Rng) (SectorSlice * option error) :=
  fun '(u, rng) =>
    if SectorSize <? len data
    then (inr (zeroSlice, Some (errNew "data exceeds sector size")), (u, rng))
    else
      (onBuilder (fun '(b, rng) => (inr tt, (Reset b, rng))) ;;;
       onBuilder (Append data (Key u) chunkIndex) ;;;
       sec <- onBuilder Finish ;;
       fun '(u, rng) =>
         let '((_, err), up) := Upload (Uploader u) sec in
         let u := mkShardUploader up (Shard u) (Key u) (sb u) in
         match err with
         | Some e => (inr (zeroSlice, Some e), (u, rng))
         | None =>
             match index (Slices (sb u)) 0 with
             | None => (inl (goPanic "index out of range"), (u, rng))
             | Some ss =>
                 (* add slice to shard *)
                 let (werr, shard) := WriteSlice (Shard u) ss chunkIndex in
                 let u := mkShardUploader (Uploader u) shard (Key u) (sb u) in
                 match werr with
                 | Some e =>
                     (inr (zeroSlice,
                           Some (errWrap e "could not write to shard file")),
                      (u, rng))
                 | None => (inr (ss, None), (u, rng))
                 end
             end
         end) (u, rng).

End Uploading.

End renter.

(** ** Clients of the renter (package [renterutil]) *)

Module renterutil.

(** [SiadClient.AcceptTransactionSet]; [TransactionPoolRawPost] is the call
    to siad. *)
Definition AcceptTransactionSet
    (TransactionPoolRawPost : Transaction -> list Transaction -> option error)
    (txnSet : list Transaction) : option error :=
  if (length txnSet =? 0)%nat then Some (errNew "empty transaction set")
  else
    match index txnSet (length txnSet - 1) with
    | None => Some (goPanic "index out of range")
    | Some txn =>
        let parents := firstn (length txnSet - 1) txnSet in
        TransactionPoolRawPost txn parents
    end.

(** The loop of [SiadClient.LookupHost] over the public key strings of the
    hosts, [hpk] being the match found so far. *)
Fixpoint lookupLoop (keys : list string) (prefix : string) (hpk : string)
  : string * option error :=
  match keys with
  | [] =>
      if String.eqb hpk EmptyString
      then (EmptyString, Some (errNew "no host with that pubkey"))
      else (hpk, None)
  | key :: rest =>
      if strings.HasPrefix key prefix
      then
        if negb (String.eqb hpk EmptyString)
        then (EmptyString, Some (errNew "ambiguous pubkey"))
        else lookupLoop rest prefix key
      else lookupLoop rest prefix hpk
  end.

(** [SiadClient.LookupHost]; [allHosts] is what [siad.HostDbAllGet()]
    answers: an error or the public key strings of the hosts. *)
Definition LookupHost (allHosts : error + list string) (prefix : string)
  : string * option error :=
  let prefix :=
    if negb (strings.HasPrefix prefix "ed25519:")
    then ("ed25519:" ++ prefix)%string
    else prefix in
  match allHosts with
  | inl err => (EmptyString, Some err)
  | inr hosts => lookupLoop hosts prefix EmptyString
  end.

(** A siacoin or siafund input: its parent and its unlock conditions. *)
Record Input : Type := mkInput {
  InputParentID : Hash;
  InputUnlockConditions : UnlockConditions
}.

(** The fields of [types.Transaction] that [SignTransaction] reads and
    writes. *)
Record WalletTransaction : Type := mkWalletTransaction {
  TxnSiacoinInputs : list Input;
  TxnSiafundInputs : list Input;
  TxnFileContractRevisions : list FileContractRevision;
  TxnTransactionSignatures : list TransactionSignature
}.

(** The walrus server and the seed of a [WalrusClient], and the wallet
    library. *)
Class Walrus : Type := {
  (** [walrus.AddressInfo(addr)]: an error or the key index of the
      address *)
  AddressInfo : Hash -> error + Z;
  (** [seed.SecretKey(index)] *)
  SecretKey : Z -> list byte;
  (** [txn.SigHash(i, types.ASICHardforkHeight+1)] *)
  WalletSigHash : WalletTransaction -> nat -> Hash;
  (** [wallet.StandardTransactionSignature(id)] *)
  StandardTransactionSignature : Hash -> TransactionSignature;
  (** [wallet.AppendTransactionSignature(txn, txnSig, sk)] *)
  AppendTransactionSignature :
    WalletTransaction -> TransactionSignature -> list byte -> WalletTransaction
}.

Section Signing.

Context `{SiaCrypto} `{Walrus}.

(** The lazy mode of [SignTransaction]: a standard signature for every
    input the wallet owns. *)
Fixpoint signOwned (inputs : list Input) (txn : WalletTransaction)
  : WalletTransaction :=
  match inputs with
  | [] => txn
  | input :: rest =>
      match AddressInfo (UnlockConditionsHash (InputUnlockConditions input)) with
      | inl _ => signOwned rest txn
      | inr keyIndex =>
          let sk := SecretKey keyIndex in
          let txnSig := StandardTransactionSignature (InputParentID input) in
          signOwned rest (AppendTransactionSignature txn txnSig sk)
      end
  end.

(** One loop of [sigAddr] over inputs. *)
Fixpoint inputAddr (inputs : list Input) (id : Hash) : option Hash :=
  match inputs with
  | [] => None
  | sci :: rest =>
      if bytes_eqb (InputParentID sci) id
      then Some (UnlockConditionsHash (InputUnlockConditions sci))
      else inputAddr rest id
  end.

(** The loop of [sigAddr] over the revisions. *)
Fixpoint revisionAddr (revs : list FileContractRevision) (id : Hash)
  : option Hash :=
  match revs with
  | [] => None
  | fcr :: rest =>
      if bytes_eqb (ParentID fcr) id
      then Some (UnlockConditionsHash (RevUnlockConditions fcr))
      else revisionAddr rest id
  end.

(** The closure [sigAddr]; [None] is the answer [false]. *)
Definition sigAddr (txn : WalletTransaction) (id : Hash) : option Hash :=
  match inputAddr (TxnSiacoinInputs txn) id with
  | Some addr => Some addr
  | None =>
      match inputAddr (TxnSiafundInputs txn) id with
      | Some addr => Some addr
      | None => revisionAddr (TxnFileContractRevisions txn) id
      end
  end.

(** [sigs[i].Signature = s]; the index is in range where [sign] writes. *)
Fixpoint setSignature (sigs : list TransactionSignature) (i : nat)
    (s : list byte) : list TransactionSignature :=
  match sigs, i with
  | [], _ => []
  | sig :: rest, O =>
      mkTxnSig (SigParentID sig) (PublicKeyIndex sig) (SigTimelock sig)
        (SigCoveredFields sig) s :: rest
  | sig :: rest, S i' => sig :: setSignature rest i' s
  end.

(** The closure [sign]: the error and the transaction afterwards. *)
Definition sign (txn : WalletTransaction) (i : nat)
  : option error * WalletTransaction :=
  match index (TxnTransactionSignatures txn) i with
  | None => (Some (goPanic "index out of range"), txn)
  | Some sig =>
      match sigAddr txn (SigParentID sig) with
      | None => (Some (errNew "invalid id"), txn)
      | Some addr =>
          match AddressInfo addr with
          | inl err => (Some err, txn)
          | inr keyIndex =>
              let sk := SecretKey keyIndex in
              let s := SignHash (WalletSigHash txn i) sk in
              (None,
               mkWalletTransaction (TxnSiacoinInputs txn)
                 (TxnSiafundInputs txn) (TxnFileContractRevisions txn)
                 (setSignature (TxnTransactionSignatures txn) i s))
          end
      end
  end.

(** The inner loop of [SignTransaction] from index [sigIndex] on: the first
    signature whose parent is [parent] is signed. *)
Fixpoint signFirst (sigs : list TransactionSignature) (sigIndex : nat)
    (parent : Hash) (txn : WalletTransaction)
  : option error * WalletTransaction :=
  match sigs with
  | [] => (Some (errNew "sighash not found in transaction"), txn)
  | sig :: rest =>
      if bytes_eqb (SigParentID sig) parent then sign txn sigIndex
      else signFirst rest (S sigIndex) parent txn
  end.

(** The outer loop of [SignTransaction]. *)
Fixpoint signAll (toSign : list Hash) (txn : WalletTransaction)
  : option error * WalletTransaction :=
  match toSign with
  | [] => (None, txn)
  | parent :: rest =>
      match signFirst (TxnTransactionSignatures txn) 0 parent txn with
      | (Some err, txn) => (Some err, txn)
      | (None, txn) => signAll rest txn
      end
  end.

(** [WalrusClient.SignTransaction]: the error and the transaction
    afterwards. *)
Definition SignTransaction (txn : WalletTransaction) (toSign : list Hash)
  : option error * WalletTransaction :=
  if (length toSign =? 0)%nat
  then (None, signOwned (TxnSiacoinInputs txn) txn)
  else signAll toSign txn.

End Signing.

End renterutil.

(** ** The command [user] (package [main]) *)

Module user.

(** What the [migrate] action of [main] does with its flags. *)
Inductive migration : Type :=
| noStrategy                 (* "No migration strategy specified" *)
| migrateFile
| migrateDirFile
| migrateDirect
| migrateDirDirect
| migrateRemote
| migrateDirRemote
| multipleStrategies.         (* "Multiple migration strategies specified" *)

(** The [switch] of the [migrate] action; [mFile], [mDirect] and [mRemote]
    are the flags, [isDir] tells whether the metafile path is a
    directory. *)
Definition migrateSwitch (mFile : string) (mDirect mRemote isDir : bool)
  : migration :=
  if String.eqb mFile EmptyString && negb mDirect && negb mRemote
  then noStrategy
  else if negb (String.eqb mFile EmptyString) && negb isDir then migrateFile
  else if negb (String.eqb mFile EmptyString) && isDir then migrateDirFile
  else if mDirect && negb isDir then migrateDirect
  else if mDirect && isDir then migrateDirDirect
  else if mRemote && negb isDir then migrateRemote
  else if mRemote && isDir then migrateDirRemote
  else multipleStrategies.

End user.

(** * Specification vocabulary *)

Import proto renter.

(** The outputs of a revision by role: two valid-proof outputs (renter,
    host) and three missed-proof outputs (renter, host, void). *)
Definition validRenter (r : FileContractRevision) : SiacoinOutput :=
  nth 0 (NewValidProofOutputs r) zeroOutput.
Definition validHost (r : FileContractRevision) : SiacoinOutput :=
  nth 1 (NewValidProofOutputs r) zeroOutput.
Definition missedRenter (r : FileContractRevision) : SiacoinOutput :=
  nth 0 (NewMissedProofOutputs r) zeroOutput.
Definition missedHost (r : FileContractRevision) : SiacoinOutput :=
  nth 1 (NewMissedProofOutputs r) zeroOutput.
Definition missedVoid (r : FileContractRevision) : SiacoinOutput :=
  nth 2 (NewMissedProofOutputs r) zeroOutput.

(** A revision of a formed contract has exactly these five outputs. *)
Definition contractOutputs (r : FileContractRevision) : Prop :=
  length (NewValidProofOutputs r) = 2%nat /\
  length (NewMissedProofOutputs r) = 3%nat.

Definition credit (o : SiacoinOutput) (c : Currency) : SiacoinOutput :=
  mkOutput (Value o + c)%N (UnlockHash o).
Definition debit (o : SiacoinOutput) (c : Currency) : SiacoinOutput :=
  mkOutput (Value o - c)%N (UnlockHash o).

(** [current] after an action of price [cost]: every field as in [current],
    but for the four outputs the payment touches and the revision number. *)
Definition paidRevision (current : FileContractRevision) (cost : Currency)
  : FileContractRevision :=
  mkRevision (ParentID current) (RevUnlockConditions current)
    (u64 (NewRevisionNumber current + 1))
    (NewFileSize current) (NewFileMerkleRoot current)
    (NewWindowStart current) (NewWindowEnd current)
    [debit (validRenter current) cost; credit (validHost current) cost]
    [debit (missedRenter current) cost;
     missedHost current;
     credit (missedVoid current) cost]
    (NewUnlockHash current).

(** [current] after the upload of one sector of root [merkleRoot]. *)
Definition uploadedRevision (current : FileContractRevision)
    (merkleRoot : Hash) (cost collateral : Currency) : FileContractRevision :=
  mkRevision (ParentID current) (RevUnlockConditions current)
    (u64 (NewRevisionNumber current + 1))
    (u64 (NewFileSize current + SectorSize)) merkleRoot
    (NewWindowStart current) (NewWindowEnd current)
    [debit (validRenter current) cost; credit (validHost current) cost]
    [debit (missedRenter current) cost;
     debit (missedHost current) collateral;
     credit (credit (missedVoid current) cost) collateral]
    (NewUnlockHash current).

(** [n] rounded up to the next multiple of [m]. *)
Definition roundUp (n m : Z) : Z := (n + m - 1) / m * m.

(** The sector of a builder is an array of [SectorSize] bytes and its write
    cursor lies within it. *)
Definition builderOK (b : SectorBuilder) : Prop :=
  len (sector b) = SectorSize /\ 0 <= sectorLen b <= SectorSize.

(** One call of [Append]: the data, the key and the chunk index. *)
Definition appendCall : Type := (list byte * EncryptionKey * Z)%type.

(** A sequence of calls of [Append]. *)
Fixpoint appendAll `{SiaCrypto} `{SectorOps} (calls : list appendCall)
  : M (SectorBuilder * Rng) unit :=
  match calls with
  | [] => ret tt
  | (data, key, chunkIndex) :: rest =>
      bind (Append data key chunkIndex) (fun _ => appendAll rest)
  end.

(** The bytes a sequence of calls takes in the sector. *)
Fixpoint paddedTotal (calls : list appendCall) : Z :=
  match calls with
  | [] => 0
  | (data, _, _) :: rest => roundUp (len data) SegmentSize + paddedTotal rest
  end.

(** The slices a sequence of calls should leave, the first one at [offset],
    all of them under the Merkle root [root]. *)
Fixpoint layout `{SiaCrypto} (root : Hash) (offset : Z) (calls : list appendCall)
  : list SectorSlice :=
  match calls with
  | [] => []
  | (data, _, _) :: rest =>
      mkSlice offset (len data) (HashBytes data) root
      :: layout root (offset + roundUp (len data) SegmentSize) rest
  end.

(** The segment indices set aside for a chunk. *)
Definition chunkRange (chunkIndex : Z) (x : Z) : Prop :=
  chunkIndex * SegmentsPerSector <= x < (chunkIndex + 1) * SegmentsPerSector.

(** [Append] of [data] for chunk [chunkIndex] succeeds and hands the cipher
    [n] bytes, the data and its padding, under the starting index [start]. *)
Definition encryptsAt `{SiaCrypto} `{SectorOps} (b : SectorBuilder) (rng : Rng)
    (data : list byte) (key : EncryptionKey) (chunkIndex : Z) (start n : Z)
  : Prop :=
  exists pad b' rng',
    Append data key chunkIndex (b, rng) = (inr tt, (b', rng')) /\
    len (data ++ pad) = n /\
    sector b'
    = firstn (Z.to_nat (sectorLen b)) (sector b)
      ++ copy (data ++ pad) (EncryptSegments key (data ++ pad) start)
      ++ skipn (Z.to_nat (sectorLen b + n)) (sector b).

(** What was written to a connection between two of its states. *)
Definition written (before after : Conn) : list object :=
  skipn (length (connOut before)) (connOut after).

(** One of the three prices of [newhost] strictly exceeds the cached one. *)
Definition priceIncreased (host newhost : ScannedHost) : Prop :=
  (UploadBandwidthPrice (Settings host)
   < UploadBandwidthPrice (Settings newhost))%N \/
  (DownloadBandwidthPrice (Settings host)
   < DownloadBandwidthPrice (Settings newhost))%N \/
  (StoragePrice (Settings host) < StoragePrice (Settings newhost))%N.

(** The errors [startRevision] reports for a price increase. *)
Definition priceErrors : list error :=
  [errNew "host upload price increased";
   errNew "host download price increased";
   errNew "host storage price increased"].

(** The reading of a price increase under which [startRevision] would
    itself send the negotiation stop: once the settings are read and
    verified, an increase makes it fail and write ["stop"]. *)
Definition stopsOnPriceIncrease `{SiaCrypto} (host : ScannedHost) (conn : Conn)
  : Prop :=
  forall newhost conn1,
    verifySettings host conn = (inr newhost, conn1) ->
    priceIncreased host newhost ->
    let '(err, _, conn') := startRevision host conn in
    err <> None /\ In (OString modules.StopResponse) (written conn conn').

(** The transaction [negotiateRevision] sends its signature for, and the
    renter's signature on it. *)
Definition renterSigned `{SiaCrypto} (rev : FileContractRevision)
    (secretKey : list byte) : TransactionSignature :=
  renterSignature rev
    (SignHash (SigHash (mkTransaction [rev] [renterSignature rev []]) 0)
       secretKey).

(** The fully signed transaction of one iteration. *)
Definition negotiated `{SiaCrypto} (rev : FileContractRevision)
    (secretKey : list byte) (hostSig : TransactionSignature) : Transaction :=
  mkTransaction [rev] [renterSigned rev secretKey; hostSig].

(** Modelled from the spec: the contract store behind [ContractEditor],
    whose code is outside the two source files. It holds the contract and
    the latest signatures; [SyncWithHost] overwrites the latest revision and
    signatures if and only if the revision number does not go back and the
    unlock hashes agree, and fails with a desynchronisation error otherwise. *)
Record ContractStore : Type := mkStore {
  storeContract : ContractTransaction;
  storeSignatures : list TransactionSignature
}.

Definition ErrContractDesync : error := errNew "contract desynchronized".

Definition storeSync `{SiaCrypto} (s : ContractStore)
    (rev : FileContractRevision) (sigs : list TransactionSignature)
  : option error * ContractStore :=
  let cur := CurrentRevision (storeContract s) in
  if (NewRevisionNumber cur <=? NewRevisionNumber rev)
     && bytes_eqb (UnlockConditionsHash (RevUnlockConditions rev))
                  (UnlockConditionsHash (RevUnlockConditions cur))
  then (None,
        mkStore (mkContractTransaction (proto.ID (storeContract s))
                   (RenterKey (storeContract s)) rev
                   (EndHeight (storeContract s)))
                sigs)
  else (Some ErrContractDesync, s).

Definition storeEditor `{SiaCrypto} : ContractEditor ContractStore :=
  {| ContractEditor_Transaction := storeContract;
     SyncWithHost := storeSync |}.

(** [initiateRPC] failed while verifying the host's revision: it returns no
    connection, leaves the socket [sock] behind and the contract as it was. *)
Definition refusedBeforeSync {C : Type} (result : RPCResult C) (contract : C)
    (err : error) (sock : Conn) : Prop :=
  result
  = mkRPCResult None
      (Some (errWrap err "could not verify most recent contract revision"))
      (Some sock) contract.

(** What the host sends during the handshake: a challenge, its answer to
    the signed challenge, its revision of the contract and the signatures of
    that revision; [rest] is what it sends afterwards. *)
Definition handshakeScript (challenge : Hash) (lch lacc lrev lsigs : Z)
    (hostRev : FileContractRevision) (hostSigs : list TransactionSignature)
    (rest : list frame) : list frame :=
  [mkFrame lch (OHash challenge);
   mkFrame lacc (OString modules.AcceptResponse);
   mkFrame lrev (ORevision hostRev);
   mkFrame lsigs (OSignatures hostSigs)] ++ rest.

(** What the renter writes during the handshake, after the RPC specifier:
    the contract ID and the signed challenge. *)
Definition handshakeAnswer `{SiaCrypto} (ct : ContractTransaction)
    (challenge : Hash) : list object :=
  [OHash (proto.ID ct);
   OSignature (SignHash (crypto.SecureWipe 16 challenge) (RenterKey ct))].

(** ** Vocabulary for the builder's invariants *)

(** The write cursor of a builder sits on a segment boundary. *)
Definition builderAligned (b : SectorBuilder) : Prop :=
  builderOK b /\ sectorLen b mod SegmentSize = 0.

(** Slices in the order they were recorded, none starting before [from]:
    each starts on a segment boundary and ends before the next one starts,
    the last one before [bound]. *)
Fixpoint slicesPacked (from : Z) (l : list SectorSlice) (bound : Z) : Prop :=
  match l with
  | [] => from <= bound
  | s :: rest =>
      from <= Offset s /\ Offset s mod SegmentSize = 0 /\ 0 <= Length s /\
      slicesPacked (Offset s + Length s) rest bound
  end.

(** What [Reset] establishes and [Append] and [Finish] keep. *)
Definition builderSound (b : SectorBuilder) : Prop :=
  builderAligned b /\ slicesPacked 0 (slices b) (sectorLen b).

(** Data a Go program can hold: far below the range of [int]. *)
Definition addressable (data : list byte) : Prop :=
  len data + SectorSize + SegmentSize <= maxInt.

(** The bytes of [sec] from [offset] on, [n] of them. *)
Definition region (sec : list byte) (offset n : Z) : list byte :=
  firstn (Z.to_nat n) (skipn (Z.to_nat offset) sec).

(** [Currency.Sub] on the value of an output. *)
Definition charge (o : SiacoinOutput) (c : Currency) : SiacoinOutput :=
  mkOutput (Currency_Sub (Value o) c) (UnlockHash o).

(** What [newRevision] makes of the outputs it finds, whatever the funds:
    the first two valid and the first three missed outputs, the payment
    applied with [Currency.Sub] and [Currency.Add]. *)
Definition revisedOutputs (current : FileContractRevision) (cost : Currency)
  : list SiacoinOutput * list SiacoinOutput :=
  ([charge (validRenter current) cost; credit (validHost current) cost],
   [charge (missedRenter current) cost;
    missedHost current;
    credit (missedVoid current) cost]).

(** ** Vocabulary for the wire format of action sets *)

(** An action as the types of its fields allow it: a specifier of sixteen
    bytes, two unsigned 64-bit numbers, data whose length is one. *)
Definition wireAction (a : RevisionAction) : Prop :=
  length (ActionType a) = 16%nat /\
  0 <= ActionSectorIndex a < 2 ^ 64 /\
  0 <= ActionOffset a < 2 ^ 64 /\
  len (ActionData a) < 2 ^ 64.

(** The bytes of the actions of a set, one after the other. *)
Fixpoint encodeActions (s : actionSet) : list byte :=
  match s with
  | [] => []
  | a :: rest =>
      ActionType a ++ binary.PutUint64 (ActionSectorIndex a)
      ++ binary.PutUint64 (ActionOffset a)
      ++ binary.PutUint64 (u64 (len (ActionData a)))
      ++ ActionData a ++ encodeActions rest
  end.

(** The number of bytes of the actions of a set. *)
Fixpoint encodedSize (s : actionSet) : Z :=
  match s with
  | [] => 0
  | a :: rest => 40 + len (ActionData a) + encodedSize rest
  end.

(** The first [n] bytes and the rest, when there are [n]. *)
Definition take (n : nat) (b : list byte) : option (list byte * list byte) :=
  if (length b <? n)%nat then None else Some (firstn n b, skipn n b).

(** A reader for the format: [n] actions from the front of [b]. *)
Fixpoint parseActions (n : nat) (b : list byte)
  : option (actionSet * list byte) :=
  match n with
  | O => Some ([], b)
  | S n' =>
      obind (take 16 b) (fun '(ty, b) =>
      obind (take 8 b) (fun '(idx, b) =>
      obind (take 8 b) (fun '(off, b) =>
      obind (take 8 b) (fun '(dl, b) =>
      obind (take (Z.to_nat (binary.Uint64 dl)) b) (fun '(data, b) =>
      obind (parseActions n' b) (fun '(rest, b) =>
      Some (mkAction ty (binary.Uint64 idx) (binary.Uint64 off) data :: rest,
            b)))))))
  end.

(** A reader for an action set: the count, that many actions, and nothing
    after them. *)
Definition parseActionSet (b : list byte) : option actionSet :=
  obind (take 8 b) (fun '(count, b) =>
  obind (parseActions (Z.to_nat (binary.Uint64 count)) b) (fun '(s, b) =>
  match b with
  | [] => Some s
  | _ :: _ => None
  end)).

(** ** Vocabulary for the clients *)

(** A signature entry without its signature. *)
Definition unsigned (sig : TransactionSignature) : TransactionSignature :=
  mkTxnSig (SigParentID sig) (PublicKeyIndex sig) (SigTimelock sig)
    (SigCoveredFields sig) [].

(** [txn'] is [txn] but for the signatures inside its signature entries. *)
Definition sameButSignatures (txn txn' : renterutil.WalletTransaction)
  : Prop :=
  renterutil.TxnSiacoinInputs txn' = renterutil.TxnSiacoinInputs txn /\
  renterutil.TxnSiafundInputs txn' = renterutil.TxnSiafundInputs txn /\
  renterutil.TxnFileContractRevisions txn'
  = renterutil.TxnFileContractRevisions txn /\
  map unsigned (renterutil.TxnTransactionSignatures txn')
  = map unsigned (renterutil.TxnTransactionSignatures txn).

(** The entry at index [j] comes after an entry with the same parent. *)
Definition shadowed (sigs : list TransactionSignature) (j : nat) : Prop :=
  exists i si sj,
    (i < j)%nat /\ nth_error sigs i = Some si /\ nth_error sigs j = Some sj /\
    SigParentID si = SigParentID sj.

(** The transaction has a signature entry for [parent], [parent] is the
    parent of one of its inputs or revisions, and the wallet knows the
    address of that one. *)
Definition signable `{SiaCrypto} `{renterutil.Walrus}
    (txn : renterutil.WalletTransaction) (parent : Hash) : Prop :=
  (exists sig,
      In sig (renterutil.TxnTransactionSignatures txn) /\
      SigParentID sig = parent) /\
  exists addr keyIndex,
    renterutil.sigAddr txn parent = Some addr /\
    renterutil.AddressInfo addr = inr keyIndex.

(** * Sample data *)

(** A revision at number 7 of a contract holding 1500 coins. *)
Definition sampleRevision : FileContractRevision :=
  mkRevision zeroHash (mkUnlockConditions 0 [] 2) 7 0 zeroHash 100 200
    [mkOutput 1000%N zeroHash; mkOutput 500%N zeroHash]
    [mkOutput 1000%N zeroHash; mkOutput 500%N zeroHash; mkOutput 0%N zeroHash]
    zeroHash.

(** Stand-ins for the cryptography: a hash is the bytes hashed, a signature
    is valid when it repeats the public key, the unlock hash is the
    concatenation of the keys, a transaction is valid with two signatures. *)
Definition toyCrypto : SiaCrypto :=
  {| HashBytes := fun d => d;
     SignHash := fun h k => h ++ k;
     Ed25519 := list_byte_of_string;
     VerifySettingsSignature := fun pk _ sig => bytes_eqb sig pk;
     UnlockConditionsHash := fun uc => concat (PublicKeys uc);
     SigHash := fun t _ =>
       match FileContractRevisions t with
       | r :: _ => ParentID r
       | [] => zeroHash
       end;
     StandaloneValid := fun t _ =>
       if (length (TransactionSignatures t) =? 2)%nat then None
       else Some (errNew "missing signature");
     VerifyFileContractRevisionTransactionSignatures := fun _ sigs _ =>
       match sigs with
       | [] => Some (errNew "no signatures")
       | _ => None
       end |}.

(** Stand-ins for the sector functions: the root is the first 32 bytes of
    the sector, the cipher leaves the bytes as they are. *)
Definition toySectorOps : SectorOps :=
  {| SectorMerkleRoot := fun sec => firstn 32 sec;
     EncryptSegments := fun _ d _ => d |}.

Definition sampleRng : Rng := fun _ => x2a.

Definition ABC : list byte := [x41; x42; x43].
Definition DEFGH : list byte := [x44; x45; x46; x47; x48].

(** Scenario S2: three bytes for chunk 0, then five bytes for chunk 1. *)
Definition sampleCalls : list appendCall := [(ABC, [], 0); (DEFGH, [], 1)].

(** 4 MiB + 1 bytes. *)
Definition oversized : list byte := repeat x00 (Z.to_nat (SectorSize + 1)).

(** A host as cached by a session, and what it may answer. *)
Definition sampleSettings : HostSettings :=
  mkSettings "host.example:9982" true 1000 100%N 5%N 3%N 4%N 1%N 144
    SectorSize 0.

Definition sampleHost : ScannedHost := mkHost sampleSettings "ed25519:aa".

(** The same settings announced from another address. *)
Definition movedSettings : HostSettings :=
  withNetAddress sampleSettings "elsewhere.example:1".

(** The same settings with the upload price raised from 3 to 4. *)
Definition hikedSettings : HostSettings :=
  mkSettings "host.example:9982" true 1000 100%N 5%N 4%N 4%N 1%N 144
    SectorSize 0.

Definition sampleKey : list byte := list_byte_of_string "ed25519:aa".

Definition movedConn : Conn :=
  mkConn [mkFrame 200 (OSignedSettings movedSettings sampleKey)] [] false.

Definition hikedConn : Conn :=
  mkConn [mkFrame 200 (OSignedSettings hikedSettings sampleKey)] [] false.

Definition sampleHostSig : TransactionSignature :=
  mkTxnSig zeroHash 1 0 (mkCovered false [0]) [x01].

(** A host that accepts the revision and answers the signature with a stop. *)
Definition stoppingConn : Conn :=
  mkConn [mkFrame 6 (OString "accept"); mkFrame 4 (OString "stop");
          mkFrame 100 (OTxnSignature sampleHostSig)] [] false.

(** A contract store at [sampleRevision], and a host whose revision is
    signed but carries other unlock conditions. *)
Definition sampleStore : ContractStore :=
  mkStore (mkContractTransaction zeroHash [x07] sampleRevision 100) [].

Definition foreignRevision : FileContractRevision :=
  mkRevision zeroHash (mkUnlockConditions 0 [[x01]] 2) 8 0 zeroHash 100 200
    [mkOutput 1000%N zeroHash; mkOutput 500%N zeroHash]
    [mkOutput 1000%N zeroHash; mkOutput 500%N zeroHash; mkOutput 0%N zeroHash]
    zeroHash.

Definition foreignConn : Conn :=
  mkConn [mkFrame 32 (OHash (repeat xff 32));
          mkFrame 6 (OString "accept");
          mkFrame 300 (ORevision foreignRevision);
          mkFrame 100 (OSignatures [sampleHostSig])] [] false.

(** Stand-ins for the host and the shard index: a host is the number of
    uploads it is still going to accept, a shard index is the list of the
    records written, newest first, each under its chunk index. *)
Definition toyUploadOps : UploadOps nat (list (Z * SectorSlice)) :=
  {| Upload := fun n sec =>
       match n with
       | O => ((zeroHash, Some (errNew "host unreachable")), O)
       | S k => ((firstn 32 sec, None), k)
       end;
     WriteSlice := fun shard ss chunkIndex => (None, (chunkIndex, ss) :: shard) |}.

(** An uploader whose host is unreachable, with an empty shard index. *)
Definition strandedUploader : ShardUploader nat (list (Z * SectorSlice)) :=
  mkShardUploader 0%nat [] [] zeroBuilder.

(** The revision after [sampleRevision], as a host in agreement presents it. *)
Definition nextRevision : FileContractRevision :=
  mkRevision zeroHash (mkUnlockConditions 0 [] 2) 8 0 zeroHash 100 200
    [mkOutput 990%N zeroHash; mkOutput 510%N zeroHash]
    [mkOutput 990%N zeroHash; mkOutput 500%N zeroHash; mkOutput 10%N zeroHash]
    zeroHash.

Definition agreeingConn : Conn :=
  mkConn [mkFrame 32 (OHash (repeat xff 32));
          mkFrame 6 (OString "accept");
          mkFrame 300 (ORevision nextRevision);
          mkFrame 100 (OSignatures [sampleHostSig])] [] false.

(** A writer every write of which fails. *)
Definition closedPipe : io.Writer unit :=
  {| io.Write := fun w _ => ((0, Some errClosed), w) |}.

(** An upload of three bytes to sector 2 and a download of 64 bytes at
    offset 128 of sector 1. *)
Definition sampleActions : actionSet :=
  [mkAction (repeat x55 16) 2 0 ABC; mkAction (repeat x44 16) 1 128 []].


(** The texts of the library errors, as the Sia and Go libraries word
    them. *)
Definition libraryTexts : ErrorTexts :=
  {| libraryError := fun e =>
       (match e with
       | ErrStopResponse => "stop"
       | ErrObjectTooLarge => "encoded object exceeds size limit"
       | errDecode => "could not decode type"
       | errEOF => "EOF"
       | errClosed => "use of closed network connection"
       | ErrInvalidSignature => "invalid signature"
       | goPanic msg => msg
       | errNew msg => msg
       | errWrap _ msg => msg
       end)%string |}.

(** A host that refuses the revision and words its refusal as a network
    error. *)
Definition mimickingConn : Conn :=
  mkConn [mkFrame 31 (OString "use of closed network connection")] [] false.

(** A transaction pool that accepts a transaction with exactly one
    parent. *)
Definition oneParentPool (txn : Transaction) (parents : list Transaction)
  : option error :=
  if (length parents =? 1)%nat then None else Some (errNew "orphan").

(** A wallet that owns every address, with key index 7. *)
Definition toyWalrus : renterutil.Walrus :=
  {| renterutil.AddressInfo := fun _ => inr 7;
     renterutil.SecretKey := fun _ => sampleKey;
     renterutil.WalletSigHash := fun _ _ => zeroHash;
     renterutil.StandardTransactionSignature := fun id =>
       mkTxnSig id 0 0 (mkCovered true []) [];
     renterutil.AppendTransactionSignature := fun txn _ _ => txn |}.

(** A transaction with one siacoin input and two signature entries for
    it. *)
Definition doubleEntryTxn : renterutil.WalletTransaction :=
  renterutil.mkWalletTransaction
    [renterutil.mkInput zeroHash (mkUnlockConditions 0 [] 1)] [] []
    [mkTxnSig zeroHash 0 0 (mkCovered true []) [];
     mkTxnSig zeroHash 1 0 (mkCovered true []) []].
(** * Properties *)

(** ** Machine arithmetic *)

Lemma u64_small (z : Z) : 0 <= z < 2 ^ 64 -> u64 z = z.
Proof. intros Hz. unfold u64. apply Z.mod_small. exact Hz. Qed.

Lemma u32_small (z : Z) : 0 <= z < 2 ^ 32 -> u32 z = z.
Proof. intros Hz. unfold u32. apply Z.mod_small. exact Hz. Qed.

Lemma i64_small (z : Z) : - 2 ^ 63 <= z < 2 ^ 63 -> i64 z = z.
Proof.
  intros Hz. unfold i64. rewrite Z.mod_small; lia.
Qed.

Lemma u64_i64 (z : Z) : u64 (i64 z) = u64 z.
Proof.
  unfold u64, i64.
  rewrite <- Zminus_mod_idemp_l.
  rewrite Z.mod_mod by lia.
  rewrite Zminus_mod_idemp_l.
  replace (z + 2 ^ 63 - 2 ^ 63) with z by lia.
  reflexivity.
Qed.

Lemma len_nonneg {A : Type} (l : list A) : 0 <= len l.
Proof. unfold len. lia. Qed.

Lemma len_app {A : Type} (l1 l2 : list A) : len (l1 ++ l2) = len l1 + len l2.
Proof. unfold len. rewrite length_app. lia. Qed.

(** ** Revision construction *)

Lemma Currency_Sub_le (x y : Currency) :
  (y <= x)%N -> Currency_Sub x y = (x - y)%N.
Proof.
  intros Hle. unfold Currency_Sub.
  destruct (N.ltb_spec x y) as [Hlt | _]; [lia | reflexivity].
Qed.

Lemma contractOutputs_inv (r : FileContractRevision) :
  contractOutputs r ->
  NewValidProofOutputs r = [validRenter r; validHost r] /\
  NewMissedProofOutputs r = [missedRenter r; missedHost r; missedVoid r].
Proof.
  unfold contractOutputs, validRenter, validHost, missedRenter, missedHost,
    missedVoid.
  destruct (NewValidProofOutputs r) as [| a [| b [| c v]]];
    destruct (NewMissedProofOutputs r) as [| x [| y [| z [| w m]]]];
    cbn; intros [Hv Hm]; try discriminate; split; reflexivity.
Qed.

(** A revision without outputs makes [newRevision] panic. *)
Example newRevision_no_outputs : newRevision zeroRevision 5%N = None.
Proof. reflexivity. Qed.

Section Revisions.

Variables (current : FileContractRevision) (cost : Currency).

Hypothesis outputs : contractOutputs current.
Hypothesis renter_valid_funds : (cost <= Value (validRenter current))%N.
Hypothesis renter_missed_funds : (cost <= Value (missedRenter current))%N.

Lemma newRevision_paid :
  newRevision current cost = Some (paidRevision current cost).
Proof.
  destruct (contractOutputs_inv current outputs) as [Hv Hm].
  unfold newRevision, paidRevision.
  rewrite Hv, Hm. cbn.
  rewrite !Currency_Sub_le by assumption.
  reflexivity.
Qed.

Variables (collateral : Currency) (merkleRoot : Hash).
Hypothesis host_missed_funds : (collateral <= Value (missedHost current))%N.

Lemma newUploadRevision_uploaded :
  newUploadRevision current merkleRoot cost collateral
  = Some (uploadedRevision current merkleRoot cost collateral).
Proof.
  unfold newUploadRevision. rewrite newRevision_paid.
  destruct (contractOutputs_inv current outputs) as [Hv Hm].
  unfold paidRevision, uploadedRevision. cbn.
  rewrite Currency_Sub_le by assumption.
  reflexivity.
Qed.

End Revisions.

(** C1: for a revision with the five outputs of a contract, a cost covered by
    the renter's valid and missed outputs and, for uploads, a collateral
    covered by the host's missed output, [newRevision] (and
    [newDownloadRevision]) return the current revision with [cost] moved from
    the renter's to the host's valid output and from the renter's missed
    output to the void, and the revision number incremented (on 64 bits);
    [newUploadRevision] moves in addition [collateral] from the host's missed
    output to the void, adds [SectorSize] to the file size (on 64 bits) and
    sets the Merkle root to the one supplied. *)
Theorem new_revision_moves_coins
    (current : FileContractRevision) (merkleRoot : Hash)
    (cost collateral : Currency) :
  contractOutputs current ->
  (cost <= Value (validRenter current))%N ->
  (cost <= Value (missedRenter current))%N ->
  (collateral <= Value (missedHost current))%N ->
  newRevision current cost = Some (paidRevision current cost) /\
  newDownloadRevision current cost = Some (paidRevision current cost) /\
  newUploadRevision current merkleRoot cost collateral
  = Some (uploadedRevision current merkleRoot cost collateral).
Proof.
  intros Hout Hv Hm Hc.
  split; [| split].
  - apply newRevision_paid; assumption.
  - unfold newDownloadRevision. apply newRevision_paid; assumption.
  - apply newUploadRevision_uploaded; assumption.
Qed.

Lemma new_revision_moves_coins_witness :
  newRevision sampleRevision 10%N = Some (paidRevision sampleRevision 10%N) /\
  newDownloadRevision sampleRevision 10%N = Some (paidRevision sampleRevision 10%N) /\
  newUploadRevision sampleRevision zeroHash 10%N 5%N
  = Some (uploadedRevision sampleRevision zeroHash 10%N 5%N).
Proof.
  apply (new_revision_moves_coins sampleRevision zeroHash 10%N 5%N).
  - split; reflexivity.
  - cbn. lia.
  - cbn. lia.
  - cbn. lia.
Defined.

Lemma sumValues_contract (r : FileContractRevision) :
  contractOutputs r ->
  sumValues (NewValidProofOutputs r)
  = (Value (validRenter r) + Value (validHost r))%N /\
  sumValues (NewMissedProofOutputs r)
  = (Value (missedRenter r) + Value (missedHost r) + Value (missedVoid r))%N.
Proof.
  intros Hout. destruct (contractOutputs_inv r Hout) as [Hv Hm].
  rewrite Hv at 1. rewrite Hm at 1. cbn. lia.
Qed.

(** C2: under the same preconditions the revision built by [newRevision],
    and the one built by [newUploadRevision], carry the same total of valid
    outputs and the same total of missed outputs as the current revision. *)
Theorem new_revision_conserves_coins
    (current : FileContractRevision) (merkleRoot : Hash)
    (cost collateral : Currency) :
  contractOutputs current ->
  (cost <= Value (validRenter current))%N ->
  (cost <= Value (missedRenter current))%N ->
  (collateral <= Value (missedHost current))%N ->
  (exists rev,
      newRevision current cost = Some rev /\
      sumValues (NewValidProofOutputs rev)
      = sumValues (NewValidProofOutputs current) /\
      sumValues (NewMissedProofOutputs rev)
      = sumValues (NewMissedProofOutputs current)) /\
  (exists rev,
      newUploadRevision current merkleRoot cost collateral = Some rev /\
      sumValues (NewValidProofOutputs rev)
      = sumValues (NewValidProofOutputs current) /\
      sumValues (NewMissedProofOutputs rev)
      = sumValues (NewMissedProofOutputs current)).
Proof.
  intros Hout Hv Hm Hc.
  destruct (sumValues_contract current Hout) as [Sv Sm].
  split.
  - exists (paidRevision current cost). split.
    + apply newRevision_paid; assumption.
    + rewrite Sv, Sm. cbn. split; lia.
  - exists (uploadedRevision current merkleRoot cost collateral). split.
    + apply newUploadRevision_uploaded; assumption.
    + rewrite Sv, Sm. cbn. split; lia.
Qed.

Lemma new_revision_conserves_coins_witness :
  (exists rev,
      newRevision sampleRevision 10%N = Some rev /\
      sumValues (NewValidProofOutputs rev) = 1500%N /\
      sumValues (NewMissedProofOutputs rev) = 1500%N) /\
  (exists rev,
      newUploadRevision sampleRevision zeroHash 10%N 5%N = Some rev /\
      sumValues (NewValidProofOutputs rev) = 1500%N /\
      sumValues (NewMissedProofOutputs rev) = 1500%N).
Proof.
  apply (new_revision_conserves_coins sampleRevision zeroHash 10%N 5%N).
  - split; reflexivity.
  - cbn. lia.
  - cbn. lia.
  - cbn. lia.
Defined.

(** ** Sector builder *)

Lemma padding_roundUp (n : Z) :
  0 <= n -> n + padding n = roundUp n SegmentSize /\ 0 <= padding n < SegmentSize.
Proof.
  intros Hn. unfold padding, roundUp, SegmentSize.
  rewrite Z.rem_mod_nonneg by lia.
  destruct (Z.eqb_spec (n mod 64) 0) as [E | E]; cbn [negb].
  - split; [| lia].
    Z.to_euclidean_division_equations; lia.
  - rewrite i64_small by (pose proof (Z.mod_pos_bound n 64); lia).
    split; [| pose proof (Z.mod_pos_bound n 64); lia].
    Z.to_euclidean_division_equations; lia.
Qed.

Lemma roundUp_bounds (n : Z) :
  0 <= n -> n <= roundUp n SegmentSize < n + SegmentSize.
Proof.
  intros Hn. destruct (padding_roundUp n Hn) as [E B]. lia.
Qed.

Lemma roundUp_segments (n : Z) :
  roundUp n SegmentSize mod SegmentSize = 0.
Proof.
  unfold roundUp. apply Z.mod_mul. unfold SegmentSize. lia.
Qed.

Lemma length_copy {A : Type} (dst src : list A) :
  length (copy dst src) = length dst.
Proof.
  unfold copy. rewrite length_app, length_firstn, length_skipn. lia.
Qed.

Lemma zeroBuilder_OK : builderOK zeroBuilder.
Proof.
  unfold builderOK, zeroBuilder, len. cbn [sector sectorLen].
  rewrite repeat_length. unfold SectorSize. split; lia.
Qed.

Lemma Reset_OK (b : SectorBuilder) :
  len (sector b) = SectorSize -> builderOK (Reset b).
Proof.
  intros Hl. unfold builderOK, Reset. cbn [sector sectorLen].
  unfold SectorSize in *. lia.
Qed.

Section BuilderFacts.

Context `{SiaCrypto} `{SectorOps}.

(** An [Append] that fits: the builder it leaves and the rest of the tape. *)
Lemma Append_fits (b : SectorBuilder) (rng : Rng) (data : list byte)
    (key : EncryptionKey) (chunkIndex : Z) :
  builderOK b ->
  sectorLen b + roundUp (len data) SegmentSize <= SectorSize ->
  let pad := map rng (seq 0 (Z.to_nat (padding (len data)))) in
  let buf := data ++ pad in
  Append data key chunkIndex (b, rng)
  = (inr tt,
     (mkBuilder
        (firstn (Z.to_nat (sectorLen b)) (sector b)
         ++ copy buf (EncryptSegments key buf (startIndex chunkIndex))
         ++ skipn (Z.to_nat (sectorLen b + roundUp (len data) SegmentSize))
              (sector b))
        (sectorLen b + roundUp (len data) SegmentSize)
        (slices b ++ [mkSlice (sectorLen b) (len data) (HashBytes data) zeroHash]),
      fun i => rng (Z.to_nat (padding (len data)) + i)%nat)).
Proof.
  intros [Hsec Hcur] Hfit pad buf.
  pose proof (len_nonneg data) as Hd.
  destruct (padding_roundUp (len data) Hd) as [Hpad Hp].
  assert (Hbuf : len buf = len data + padding (len data)).
  { unfold buf, pad. rewrite len_app. unfold len at 2.
    rewrite length_map, length_seq. lia. }
  unfold Append.
  unfold SectorSize, SegmentSize in *.
  rewrite (i64_small (sectorLen b + len data)) by lia.
  rewrite (i64_small (sectorLen b + len data + padding (len data))) by lia.
  rewrite (i64_small (len data + padding (len data))) by lia.
  destruct (Z.ltb_spec 4194304 (sectorLen b + len data + padding (len data)));
    [lia |].
  rewrite Hsec.
  destruct (Z.ltb_spec (sectorLen b) 0); [lia |].
  destruct (Z.ltb_spec 4194304 (sectorLen b)); [lia |].
  destruct (Z.ltb_spec (len data + padding (len data)) 0); [lia |].
  destruct (Z.ltb_spec (4194304 - sectorLen b) (len data + padding (len data)));
    [lia |].
  cbn [orb fastrand_Read].
  fold pad. fold buf.
  assert (Hc : len (copy buf (EncryptSegments key buf (startIndex chunkIndex)))
               = len buf).
  { unfold len. rewrite length_copy. reflexivity. }
  rewrite Hc, Hbuf.
  rewrite (i64_small (sectorLen b + (len data + padding (len data)))) by lia.
  rewrite (u32_small (sectorLen b)) by lia.
  rewrite (u32_small (len data)) by lia.
  replace (sectorLen b + (len data + padding (len data)))
    with (sectorLen b + roundUp (len data) 64) by lia.
  reflexivity.
Qed.

Lemma Append_overflows (b : SectorBuilder) (rng : Rng) (data : list byte)
    (key : EncryptionKey) (chunkIndex : Z) :
  SectorSize < sectorLen b + roundUp (len data) SegmentSize ->
  sectorLen b + roundUp (len data) SegmentSize <= maxInt ->
  Append data key chunkIndex (b, rng)
  = (inl (goPanic "data exceeds sector size"), (b, rng)).
Proof.
  intros Hover Hrep.
  pose proof (len_nonneg data) as Hd.
  destruct (padding_roundUp (len data) Hd) as [Hpad Hp].
  unfold Append.
  unfold SectorSize, SegmentSize, maxInt in *.
  rewrite (i64_small (sectorLen b + len data)) by lia.
  rewrite (i64_small (sectorLen b + len data + padding (len data))) by lia.
  destruct (Z.ltb_spec 4194304 (sectorLen b + len data + padding (len data)));
    [reflexivity | lia].
Qed.

(** Conversely an [Append] that returns did fit. *)
Lemma Append_returns_fitting (b : SectorBuilder) (rng : Rng)
    (data : list byte) (key : EncryptionKey) (chunkIndex : Z)
    (st : SectorBuilder * Rng) :
  builderOK b ->
  len data + SectorSize + SegmentSize <= maxInt ->
  Append data key chunkIndex (b, rng) = (inr tt, st) ->
  sectorLen b + roundUp (len data) SegmentSize <= SectorSize.
Proof.
  intros [_ Hcur] Hrep Hrun.
  destruct (Z.le_gt_cases (sectorLen b + roundUp (len data) SegmentSize)
              SectorSize) as [Hle | Hgt]; [exact Hle |].
  pose proof (roundUp_bounds (len data) (len_nonneg data)) as Hr.
  rewrite Append_overflows in Hrun by lia.
  discriminate.
Qed.

Lemma Finish_fills (b : SectorBuilder) (rng : Rng) :
  builderOK b ->
  let tail := (length (sector b) - Z.to_nat (sectorLen b))%nat in
  let sec := firstn (Z.to_nat (sectorLen b)) (sector b) ++ map rng (seq 0 tail) in
  Finish (b, rng)
  = (inr sec,
     (mkBuilder sec SectorSize
        (map (withMerkleRoot (SectorMerkleRoot sec)) (slices b)),
      fun i => rng (tail + i)%nat))
  /\ len sec = SectorSize.
Proof.
  intros [Hsec Hcur] tail sec.
  assert (Hlen : len sec = SectorSize).
  { unfold sec, tail. rewrite len_app. unfold len in *.
    rewrite length_firstn, length_map, length_seq. lia. }
  split; [| exact Hlen].
  unfold Finish. rewrite Hsec.
  destruct (Z.ltb_spec (sectorLen b) 0); [lia |].
  destruct (Z.ltb_spec SectorSize (sectorLen b)); [lia |].
  cbn [orb fastrand_Read].
  fold tail. fold sec. rewrite Hlen. reflexivity.
Qed.

Lemma appendAll_fits (calls : list appendCall) :
  forall (b : SectorBuilder) (rng : Rng),
    builderOK b ->
    sectorLen b + paddedTotal calls <= SectorSize ->
    exists b' rng',
      appendAll calls (b, rng) = (inr tt, (b', rng')) /\
      builderOK b' /\
      sectorLen b' = sectorLen b + paddedTotal calls /\
      slices b' = slices b ++ layout zeroHash (sectorLen b) calls.
Proof.
  induction calls as [| [[data key] chunkIndex] rest IH]; intros b rng Hok Hfit.
  - exists b, rng. cbn. rewrite app_nil_r. split; [reflexivity |].
    split; [exact Hok |]. split; [lia | reflexivity].
  - cbn [paddedTotal] in Hfit.
    pose proof (len_nonneg data) as Hd.
    pose proof (roundUp_bounds (len data) Hd) as Hr.
    assert (Hrest : 0 <= paddedTotal rest).
    { clear. induction rest as [| [[d k] c] r IHr]; cbn [paddedTotal]; [lia |].
      pose proof (roundUp_bounds (len d) (len_nonneg d)).
      pose proof (len_nonneg d). lia. }
    assert (Hone : sectorLen b + roundUp (len data) SegmentSize <= SectorSize)
      by lia.
    pose proof (Append_fits b rng data key chunkIndex Hok Hone) as Happ.
    cbv zeta in Happ.
    cbn [appendAll]. unfold bind at 1. rewrite Happ.
    match goal with
    | |- context [appendAll rest (?b1, ?r1)] =>
        destruct (IH b1 r1) as (b' & rng' & Hrun & Hok' & Hlen' & Hsl')
    end.
    + destruct Hok as [Hsec Hcur]. split; cbn [sector sectorLen]; [| lia].
      rewrite !len_app. unfold len in *.
      rewrite length_firstn, length_copy, length_skipn, length_app,
        length_map, length_seq.
      destruct (padding_roundUp (len data) Hd) as [Hpad Hp].
      unfold len in *. lia.
    + cbn [sectorLen]. lia.
    + exists b', rng'. split; [exact Hrun |]. split; [exact Hok' |].
      cbn [sectorLen slices] in Hlen', Hsl'.
      split; [cbn [paddedTotal]; lia |].
      rewrite Hsl'. cbn [layout]. rewrite <- app_assoc. reflexivity.
Qed.

Lemma layout_root (root : Hash) (calls : list appendCall) :
  forall offset,
    map (withMerkleRoot root) (layout zeroHash offset calls)
    = layout root offset calls.
Proof.
  induction calls as [| [[data key] chunkIndex] rest IH]; intros offset.
  - reflexivity.
  - cbn [layout map]. rewrite IH. reflexivity.
Qed.


(** C3: when the builder length plus the data length rounded up to the next
    segment boundary exceeds [SectorSize] (the sum being a Go [int]),
    [Append] panics with "data exceeds sector size" and leaves the builder
    and the random tape as they were; in particular so does the append of
    any [SectorSize + 1] bytes to an empty builder. *)
Theorem append_overflow_panics (b : SectorBuilder) (rng : Rng)
    (data : list byte) (key : EncryptionKey) (chunkIndex : Z) :
  SectorSize < Len b + roundUp (len data) SegmentSize ->
  Len b + roundUp (len data) SegmentSize <= maxInt ->
  Append data key chunkIndex (b, rng)
  = (inl (goPanic "data exceeds sector size"), (b, rng)) /\
  (forall big : list byte,
      len big = SectorSize + 1 ->
      Append big key chunkIndex (zeroBuilder, rng)
      = (inl (goPanic "data exceeds sector size"), (zeroBuilder, rng))).
Proof.
  intros Hover Hrep. split.
  - apply Append_overflows; assumption.
  - intros big Hbig. apply Append_overflows.
    + pose proof (roundUp_bounds (len big) (len_nonneg big)).
      cbn [zeroBuilder sectorLen]. lia.
    + pose proof (roundUp_bounds (len big) (len_nonneg big)).
      cbn [zeroBuilder sectorLen].
      unfold maxInt, SectorSize, SegmentSize in *. lia.
Qed.

(** C8: from a well-formed builder, when a first call and the calls after it
    fit in the sector, the first [Append] records the slice
    [{Len b, len data, HashBytes data}] with no root and advances the length
    by the data length rounded up to the segment size; the whole sequence
    followed by [Finish] returns a sector of [SectorSize] bytes and leaves the
    earlier slices and one slice per call, laid out back to back at
    segment-aligned offsets, every one under the Merkle root of that sector.
    In particular three bytes and then five bytes appended to an empty
    builder leave the slices [{0, 3}] and [{64, 5}] under one root. *)
Theorem append_then_finish_slices (b : SectorBuilder) (rng : Rng)
    (data : list byte) (key : EncryptionKey) (chunkIndex : Z)
    (rest : list appendCall) :
  builderOK b ->
  Len b + paddedTotal ((data, key, chunkIndex) :: rest) <= SectorSize ->
  (exists b1 rng1,
      Append data key chunkIndex (b, rng) = (inr tt, (b1, rng1)) /\
      Slices b1
      = Slices b ++ [mkSlice (Len b) (len data) (HashBytes data) zeroHash] /\
      Len b1 = Len b + roundUp (len data) SegmentSize) /\
  (exists sec b' rng',
      bind (appendAll ((data, key, chunkIndex) :: rest)) (fun _ => Finish)
        (b, rng)
      = (inr sec, (b', rng')) /\
      len sec = SectorSize /\
      sector b' = sec /\
      Slices b'
      = map (withMerkleRoot (SectorMerkleRoot sec)) (Slices b)
        ++ layout (SectorMerkleRoot sec) (Len b) ((data, key, chunkIndex) :: rest) /\
      (forall s, In s (Slices b') -> MerkleRoot s = SectorMerkleRoot sec)) /\
  (forall (d3 d5 : list byte) (k3 k5 : EncryptionKey) (c3 c5 : Z),
      len d3 = 3 -> len d5 = 5 ->
      exists sec b' rng',
        bind (appendAll [(d3, k3, c3); (d5, k5, c5)]) (fun _ => Finish)
          (zeroBuilder, rng)
        = (inr sec, (b', rng')) /\
        Slices b'
        = [mkSlice 0 3 (HashBytes d3) (SectorMerkleRoot sec);
           mkSlice 64 5 (HashBytes d5) (SectorMerkleRoot sec)]).
Proof.
  intros Hok Hfit. unfold Len, Slices in *. split; [| split].
  - assert (Hone : sectorLen b + roundUp (len data) SegmentSize <= SectorSize).
    { cbn [paddedTotal] in Hfit.
      assert (0 <= paddedTotal rest).
      { clear. induction rest as [| [[d k] c] r IHr]; cbn [paddedTotal]; [lia |].
        pose proof (roundUp_bounds (len d) (len_nonneg d)).
        pose proof (len_nonneg d). lia. }
      lia. }
    pose proof (Append_fits b rng data key chunkIndex Hok Hone) as Happ.
    cbv zeta in Happ.
    eexists. eexists. split; [exact Happ |].
    cbn [slices sectorLen]. split; reflexivity.
  - destruct (appendAll_fits ((data, key, chunkIndex) :: rest) b rng Hok Hfit)
      as (b2 & rng2 & Hrun & Hok2 & Hlen2 & Hsl2).
    destruct (Finish_fills b2 rng2 Hok2) as [Hfin Hsec].
    cbv zeta in Hfin, Hsec.
    eexists. eexists. eexists.
    split; [unfold bind; rewrite Hrun; exact Hfin |].
    split; [exact Hsec |].
    cbn [sector slices].
    split; [reflexivity |].
    split.
    + rewrite Hsl2, map_app, layout_root. reflexivity.
    + intros s Hin. apply in_map_iff in Hin.
      destruct Hin as (s0 & <- & _). reflexivity.
  - intros d3 d5 k3 k5 c3 c5 H3 H5.
    assert (Hfit2 : sectorLen zeroBuilder
                    + paddedTotal [(d3, k3, c3); (d5, k5, c5)] <= SectorSize).
    { cbn [paddedTotal zeroBuilder sectorLen]. rewrite H3, H5.
      unfold roundUp, SegmentSize, SectorSize. cbn. lia. }
    destruct (appendAll_fits [(d3, k3, c3); (d5, k5, c5)] zeroBuilder rng
                zeroBuilder_OK Hfit2)
      as (b2 & rng2 & Hrun & Hok2 & _ & Hsl2).
    destruct (Finish_fills b2 rng2 Hok2) as [Hfin _].
    cbv zeta in Hfin.
    eexists. eexists. eexists.
    split; [unfold bind; rewrite Hrun; exact Hfin |].
    cbn [slices]. rewrite Hsl2.
    cbn [zeroBuilder slices sectorLen app layout map withMerkleRoot
         Offset Length Checksum].
    rewrite H3, H5. reflexivity.
Qed.

Lemma startIndex_chunk (i : Z) :
  0 <= i < 2 ^ 48 -> startIndex i = i * SegmentsPerSector.
Proof.
  intros Hi. unfold startIndex. rewrite u64_i64.
  apply u64_small. unfold SegmentsPerSector. lia.
Qed.

Lemma segmentIndices_chunk (i n x : Z) :
  0 <= i < 2 ^ 48 ->
  0 <= n <= SectorSize ->
  In x (segmentIndices (startIndex i) n) -> chunkRange i x.
Proof.
  intros Hi Hn Hin. unfold segmentIndices in Hin.
  apply in_map_iff in Hin. destruct Hin as (k & <- & Hk).
  apply in_seq in Hk. rewrite startIndex_chunk by exact Hi.
  assert (Hq : n / SegmentSize <= SegmentsPerSector).
  { unfold SegmentSize, SegmentsPerSector, SectorSize in *.
    Z.to_euclidean_division_equations; lia. }
  assert (Hk' : Z.of_nat k < SegmentsPerSector) by lia.
  unfold chunkRange, SegmentsPerSector in *.
  rewrite u64_small by lia. lia.
Qed.

Lemma chunkRange_disjoint (i j x : Z) :
  i <> j -> chunkRange i x -> chunkRange j x -> False.
Proof.
  unfold chunkRange, SegmentsPerSector. intros Hij Hi Hj. lia.
Qed.

Lemma Append_encryptsAt (b : SectorBuilder) (rng : Rng) (data : list byte)
    (key : EncryptionKey) (i : Z) :
  0 <= i < 2 ^ 48 ->
  builderOK b ->
  sectorLen b + roundUp (len data) SegmentSize <= SectorSize ->
  encryptsAt b rng data key i (i * SegmentsPerSector)
    (roundUp (len data) SegmentSize).
Proof.
  intros Hi Hok Hfit.
  pose proof (Append_fits b rng data key i Hok Hfit) as Happ.
  cbv zeta in Happ. rewrite startIndex_chunk in Happ by exact Hi.
  unfold encryptsAt.
  exists (map rng (seq 0 (Z.to_nat (padding (len data))))).
  eexists. eexists. split; [exact Happ |].
  cbn [sector]. split; [| reflexivity].
  destruct (padding_roundUp (len data) (len_nonneg data)) as [Hpad Hp].
  rewrite len_app. unfold len at 2. rewrite length_map, length_seq. lia.
Qed.

(** C7: for two distinct chunk indices below 2^48 the segment ranges
    [[i * SegmentsPerSector, (i + 1) * SegmentsPerSector)] are disjoint;
    an [Append] that fits hands the cipher the padded data, a whole number
    of at most [SegmentsPerSector] segments, under the starting index
    [i * SegmentsPerSector]; the segment indices of the two chunks lie in
    their ranges and none is common to both. *)
Theorem chunks_never_share_segments
    (i j : Z) (bi bj : SectorBuilder) (rngi rngj : Rng)
    (di dj : list byte) (key : EncryptionKey) :
  0 <= i < 2 ^ 48 ->
  0 <= j < 2 ^ 48 ->
  i <> j ->
  builderOK bi ->
  builderOK bj ->
  Len bi + roundUp (len di) SegmentSize <= SectorSize ->
  Len bj + roundUp (len dj) SegmentSize <= SectorSize ->
  let ni := roundUp (len di) SegmentSize in
  let nj := roundUp (len dj) SegmentSize in
  startIndex i = i * SegmentsPerSector /\
  startIndex j = j * SegmentsPerSector /\
  (forall x, chunkRange i x -> chunkRange j x -> False) /\
  encryptsAt bi rngi di key i (i * SegmentsPerSector) ni /\
  encryptsAt bj rngj dj key j (j * SegmentsPerSector) nj /\
  ni mod SegmentSize = 0 /\ ni / SegmentSize <= SegmentsPerSector /\
  nj mod SegmentSize = 0 /\ nj / SegmentSize <= SegmentsPerSector /\
  (forall x, In x (segmentIndices (startIndex i) ni) -> chunkRange i x) /\
  (forall x, In x (segmentIndices (startIndex j) nj) -> chunkRange j x) /\
  (forall x, In x (segmentIndices (startIndex i) ni) ->
             In x (segmentIndices (startIndex j) nj) -> False).
Proof.
  intros Hi Hj Hij Hoki Hokj Hfi Hfj ni nj. unfold Len in *.
  pose proof (roundUp_bounds (len di) (len_nonneg di)) as Hri.
  pose proof (roundUp_bounds (len dj) (len_nonneg dj)) as Hrj.
  pose proof (len_nonneg di) as Hdi. pose proof (len_nonneg dj) as Hdj.
  assert (Hni : 0 <= ni <= SectorSize)
    by (destruct Hoki as [_ ?]; unfold ni; lia).
  assert (Hnj : 0 <= nj <= SectorSize)
    by (destruct Hokj as [_ ?]; unfold nj; lia).
  assert (Hseg : forall n, 0 <= n <= SectorSize ->
                           n / SegmentSize <= SegmentsPerSector).
  { intros n Hn. unfold SegmentSize, SegmentsPerSector, SectorSize in *.
    Z.to_euclidean_division_equations; lia. }
  split; [apply startIndex_chunk; exact Hi |].
  split; [apply startIndex_chunk; exact Hj |].
  split; [intros x; apply chunkRange_disjoint; exact Hij |].
  split; [apply Append_encryptsAt; assumption |].
  split; [apply Append_encryptsAt; assumption |].
  split; [apply roundUp_segments |].
  split; [apply Hseg; exact Hni |].
  split; [apply roundUp_segments |].
  split; [apply Hseg; exact Hnj |].
  split; [intros x; apply segmentIndices_chunk; assumption |].
  split; [intros x; apply segmentIndices_chunk; assumption |].
  intros x Hxi Hxj.
  apply (chunkRange_disjoint i j x Hij).
  - apply (segmentIndices_chunk i ni x); assumption.
  - apply (segmentIndices_chunk j nj x); assumption.
Qed.

End BuilderFacts.

Lemma len_oversized : len oversized = SectorSize + 1.
Proof.
  unfold len, oversized. rewrite repeat_length. unfold SectorSize. lia.
Qed.

Lemma append_overflow_panics_witness :
  @Append toyCrypto toySectorOps oversized [] 0 (zeroBuilder, sampleRng)
  = (inl (goPanic "data exceeds sector size"), (zeroBuilder, sampleRng)) /\
  (forall big : list byte,
      len big = SectorSize + 1 ->
      @Append toyCrypto toySectorOps big [] 0 (zeroBuilder, sampleRng)
      = (inl (goPanic "data exceeds sector size"), (zeroBuilder, sampleRng))).
Proof.
  apply (@append_overflow_panics toyCrypto toySectorOps
           zeroBuilder sampleRng oversized [] 0).
  - unfold Len, zeroBuilder. cbn [sectorLen]. rewrite len_oversized.
    unfold roundUp, SectorSize, SegmentSize. cbn. lia.
  - unfold Len, zeroBuilder. cbn [sectorLen]. rewrite len_oversized.
    unfold roundUp, SectorSize, SegmentSize, maxInt. cbn. lia.
Defined.

Lemma append_then_finish_slices_witness :
  exists sec b' rng',
    bind (@appendAll toyCrypto toySectorOps sampleCalls)
      (fun _ => @Finish toySectorOps) (zeroBuilder, sampleRng)
    = (inr sec, (b', rng')) /\
    Slices b'
    = [mkSlice 0 3 ABC (firstn 32 sec); mkSlice 64 5 DEFGH (firstn 32 sec)].
Proof.
  destruct (@append_then_finish_slices toyCrypto toySectorOps
              zeroBuilder sampleRng ABC [] 0 [(DEFGH, [], 1)])
    as (_ & (sec & b' & rng' & Hrun & _ & _ & Hsl & _) & _).
  - exact zeroBuilder_OK.
  - unfold Len, zeroBuilder. cbn [sectorLen].
    unfold SectorSize. cbn. lia.
  - exists sec, b', rng'. split; [exact Hrun |].
    rewrite Hsl. reflexivity.
Defined.

Lemma chunks_never_share_segments_witness :
  @encryptsAt toyCrypto toySectorOps zeroBuilder sampleRng ABC [] 0 0 64 /\
  @encryptsAt toyCrypto toySectorOps zeroBuilder sampleRng DEFGH [] 1 65536 64 /\
  (forall x, In x (segmentIndices (startIndex 0) 64) ->
             In x (segmentIndices (startIndex 1) 64) -> False).
Proof.
  destruct (@chunks_never_share_segments toyCrypto toySectorOps
              0 1 zeroBuilder zeroBuilder sampleRng sampleRng ABC DEFGH [])
    as (_ & _ & _ & Hi & Hj & _ & _ & _ & _ & _ & _ & Hdis).
  - lia.
  - lia.
  - discriminate.
  - exact zeroBuilder_OK.
  - exact zeroBuilder_OK.
  - unfold Len, zeroBuilder. cbn [sectorLen]. unfold SectorSize. cbn. lia.
  - unfold Len, zeroBuilder. cbn [sectorLen]. unfold SectorSize. cbn. lia.
  - split; [exact Hi |]. split; [exact Hj |]. exact Hdis.
Defined.

(** ** Settings re-exchange *)

(** Unfolds the monad and the wire primitives, and reduces what the
    constructors in sight decide. *)
Ltac run_wire :=
  cbv beta iota zeta delta
    [verifySettings verifyRecentRevision wrapping bind ret fail try errOf
     crypto.ReadSignedObject encoding.ReadPrefix encoding.ReadString
     encoding.ReadHash encoding.ReadRevision encoding.ReadSignatures
     encoding.ReadTxnSignature encoding.WriteObject encoding.Close
     modules.ReadNegotiationAcceptance modules.WriteNegotiationAcceptance
     modules.WriteNegotiationStop
     connClosed connIn connOut frameLen frameObj fst snd].

Section NegotiationFacts.

Context `{SiaCrypto}.

Lemma withNetAddress_same (s : HostSettings) (addr : string) :
  NetAddress s = addr -> withNetAddress s addr = s.
Proof. intros <-. destruct s. reflexivity. Qed.

Lemma verifySettings_reads (host : ScannedHost) (settings : HostSettings)
    (sig : list byte) (flen : Z) (rest : list frame) (out : list object) :
  flen <= modules.NegotiateMaxHostExternalSettingsLen ->
  VerifySettingsSignature (Ed25519 (PublicKey host)) settings sig = true ->
  verifySettings host
    (mkConn (mkFrame flen (OSignedSettings settings sig) :: rest) out false)
  = (inr (mkHost (withNetAddress settings (NetAddress (Settings host)))
            (PublicKey host)),
     mkConn rest out false).
Proof.
  intros Hlen Hsig.
  run_wire.
  destruct (Z.ltb_spec modules.NegotiateMaxHostExternalSettingsLen flen);
    [lia |].
  run_wire. rewrite Hsig.
  destruct (String.eqb_spec (NetAddress settings) (NetAddress (Settings host)))
    as [E | E]; cbn [negb].
  - rewrite withNetAddress_same by exact E. reflexivity.
  - reflexivity.
Qed.

Lemma verifySettings_inr (host host' : ScannedHost) (conn conn' : Conn) :
  verifySettings host conn = (inr host', conn') ->
  NetAddress (Settings host') = NetAddress (Settings host) /\
  PublicKey host' = PublicKey host /\
  connOut conn' = connOut conn /\
  connClosed conn' = false.
Proof.
  destruct conn as [inbox out closed].
  run_wire.
  destruct closed; [discriminate |].
  destruct inbox as [| [flen obj] rest]; [discriminate |].
  destruct (modules.NegotiateMaxHostExternalSettingsLen <? flen);
    [discriminate |].
  destruct obj as [| | | | | | | settings sig]; try discriminate.
  destruct (VerifySettingsSignature (Ed25519 (PublicKey host)) settings sig);
    [| discriminate].
  intros Heq. injection Heq as <- <-.
  cbn [Settings PublicKey].
  repeat split.
  destruct (String.eqb_spec (NetAddress settings) (NetAddress (Settings host)))
    as [E | E]; cbn [negb]; [exact E | reflexivity].
Qed.

(** C10: when the signed settings arrive within the size limit and their
    signature verifies, [verifySettings] returns the host with the received
    settings, their network address replaced by the one of the session host
    (the address that was dialed); and whenever it returns a host at all,
    that host has the address of the session host. *)
Theorem verifySettings_keeps_dialed_address (host : ScannedHost)
    (settings : HostSettings) (sig : list byte) (flen : Z)
    (rest : list frame) (out : list object) :
  flen <= modules.NegotiateMaxHostExternalSettingsLen ->
  VerifySettingsSignature (Ed25519 (PublicKey host)) settings sig = true ->
  verifySettings host
    (mkConn (mkFrame flen (OSignedSettings settings sig) :: rest) out false)
  = (inr (mkHost (withNetAddress settings (NetAddress (Settings host)))
            (PublicKey host)),
     mkConn rest out false) /\
  NetAddress (withNetAddress settings (NetAddress (Settings host)))
  = NetAddress (Settings host) /\
  (forall conn host' conn',
      verifySettings host conn = (inr host', conn') ->
      NetAddress (Settings host') = NetAddress (Settings host)).
Proof.
  intros Hlen Hsig. split; [| split].
  - apply verifySettings_reads; assumption.
  - reflexivity.
  - intros conn host' conn' Hrun.
    apply (verifySettings_inr host host' conn conn' Hrun).
Qed.

Lemma Currency_Cmp_gt (x y : Currency) :
  (0 <? Currency_Cmp x y) = true <-> (y < x)%N.
Proof.
  unfold Currency_Cmp.
  destruct (N.compare_spec x y) as [E | L | G]; cbn; split; intros Hx;
    try discriminate; try lia; reflexivity.
Qed.

Lemma Currency_Cmp_le (x y : Currency) :
  (0 <? Currency_Cmp x y) = false <-> (x <= y)%N.
Proof.
  unfold Currency_Cmp.
  destruct (N.compare_spec x y) as [E | L | G]; cbn; split; intros Hx;
    try discriminate; try lia; reflexivity.
Qed.

Lemma written_nothing (c c' : Conn) :
  connOut c' = connOut c -> written c c' = [].
Proof. intros E. unfold written. rewrite E. apply skipn_all. Qed.

Lemma written_more (c c' : Conn) (objs : list object) :
  connOut c' = connOut c ++ objs -> written c c' = objs.
Proof.
  intros E. unfold written. rewrite E.
  rewrite skipn_app, skipn_all, Nat.sub_diag. reflexivity.
Qed.

Lemma startRevision_unverified (host : ScannedHost) (conn conn1 : Conn)
    (err : error) :
  verifySettings host conn = (inl err, conn1) ->
  startRevision host conn = (Some err, host, conn1).
Proof. intros Hrun. unfold startRevision. rewrite Hrun. reflexivity. Qed.

(** C5, as the code has it: once the settings are read and verified, a
    strict increase of the upload, download or storage price makes
    [startRevision] return a price error, keep the cached host and write
    nothing, no negotiation stop included; without an increase it caches the
    new host and writes one acceptance. *)
Theorem startRevision_price_gate (host newhost : ScannedHost)
    (conn conn1 : Conn) :
  verifySettings host conn = (inr newhost, conn1) ->
  (priceIncreased host newhost ->
   exists err,
     In err priceErrors /\
     startRevision host conn = (Some err, host, conn1) /\
     written conn conn1 = []) /\
  (~ priceIncreased host newhost ->
   let conn2 :=
     mkConn (connIn conn1)
       (connOut conn1 ++ [OString modules.AcceptResponse]) false in
   startRevision host conn = (None, newhost, conn2) /\
   written conn conn2 = [OString modules.AcceptResponse]).
Proof.
  intros Hrun.
  destruct (verifySettings_inr host newhost conn conn1 Hrun)
    as (_ & _ & Hout & Hopen).
  unfold startRevision. rewrite Hrun. unfold priceIncreased, priceErrors.
  destruct (0 <? Currency_Cmp (UploadBandwidthPrice (Settings newhost))
                              (UploadBandwidthPrice (Settings host))) eqn:Hu;
    [| destruct (0 <? Currency_Cmp (DownloadBandwidthPrice (Settings newhost))
                                   (DownloadBandwidthPrice (Settings host)))
         eqn:Hd;
       [| destruct (0 <? Currency_Cmp (StoragePrice (Settings newhost))
                                      (StoragePrice (Settings host))) eqn:Hs]].
  - apply Currency_Cmp_gt in Hu. split.
    + intros _. eexists. split; [left; reflexivity |].
      split; [reflexivity | apply written_nothing; exact Hout].
    + intros Hno. exfalso. apply Hno. left. exact Hu.
  - apply Currency_Cmp_gt in Hd. split.
    + intros _. eexists. split; [right; left; reflexivity |].
      split; [reflexivity | apply written_nothing; exact Hout].
    + intros Hno. exfalso. apply Hno. right. left. exact Hd.
  - apply Currency_Cmp_gt in Hs. split.
    + intros _. eexists. split; [right; right; left; reflexivity |].
      split; [reflexivity | apply written_nothing; exact Hout].
    + intros Hno. exfalso. apply Hno. right. right. exact Hs.
  - apply Currency_Cmp_le in Hu, Hd, Hs. split.
    + intros [Hi | [Hi | Hi]]; lia.
    + intros _. cbv zeta.
      unfold modules.WriteNegotiationAcceptance, encoding.WriteObject.
      rewrite Hopen. cbn [errOf]. split; [reflexivity |].
      apply written_more. cbn [connOut]. rewrite Hout. reflexivity.
Qed.

(** The stop is sent when the session is torn down: on an open connection
    [terminateRPC] writes exactly one ["stop"] and closes the socket,
    whatever the host answers to the settings request. *)
Lemma terminateRPC_sends_stop (host : ScannedHost) (conn : Conn) :
  connClosed conn = false ->
  exists conn',
    terminateRPC host conn = (None, conn') /\
    connClosed conn' = true /\
    written conn conn' = [OString modules.StopResponse].
Proof.
  destruct conn as [inbox out closed]. cbn [connClosed]. intros ->.
  assert (Hread : exists inbox',
             snd (verifySettings host (mkConn inbox out false))
             = mkConn inbox' out false).
  { run_wire.
    destruct inbox as [| [flen obj] rest]; [exists []; reflexivity |].
    exists rest.
    destruct (modules.NegotiateMaxHostExternalSettingsLen <? flen);
      [reflexivity |].
    destruct obj as [| | | | | | | settings sig]; try reflexivity.
    destruct (VerifySettingsSignature (Ed25519 (PublicKey host)) settings sig);
      reflexivity. }
  destruct Hread as [inbox' Hread].
  unfold terminateRPC.
  destruct (verifySettings host (mkConn inbox out false)) as [r c1].
  cbn [snd] in Hread. subst c1.
  run_wire.
  eexists. split; [reflexivity |]. split; [reflexivity |].
  apply written_more. reflexivity.
Qed.

(** The acceptance path on sample data: the settings arrive from another
    address, the prices are the cached ones. *)
Example startRevision_accepts :
  startRevision (H := toyCrypto) sampleHost movedConn
  = (None, sampleHost, mkConn [] [OString "accept"] false).
Proof. reflexivity. Qed.

(** ** One iteration of the revision loop *)

Lemma ReadNegotiationAcceptance_accept (l : Z) (tail : list frame)
    (out : list object) :
  l <= modules.NegotiateMaxErrorSize ->
  modules.ReadNegotiationAcceptance
    (mkConn (mkFrame l (OString modules.AcceptResponse) :: tail) out false)
  = (inr tt, mkConn tail out false).
Proof.
  intros Hl. run_wire.
  destruct (Z.ltb_spec modules.NegotiateMaxErrorSize l); [lia |].
  reflexivity.
Qed.

Lemma ReadNegotiationAcceptance_stop (l : Z) (tail : list frame)
    (out : list object) :
  l <= modules.NegotiateMaxErrorSize ->
  modules.ReadNegotiationAcceptance
    (mkConn (mkFrame l (OString modules.StopResponse) :: tail) out false)
  = (inl ErrStopResponse, mkConn tail out false).
Proof.
  intros Hl. run_wire.
  destruct (Z.ltb_spec modules.NegotiateMaxErrorSize l); [lia |].
  reflexivity.
Qed.

Lemma ReadTxnSignature_reads (maxLen l : Z) (sig : TransactionSignature)
    (tail : list frame) (out : list object) :
  l <= maxLen ->
  encoding.ReadTxnSignature maxLen
    (mkConn (mkFrame l (OTxnSignature sig) :: tail) out false)
  = (inr sig, mkConn tail out false).
Proof.
  intros Hl. run_wire.
  destruct (Z.ltb_spec maxLen l); [lia |].
  reflexivity.
Qed.

(** Unfolds [negotiateRevision] down to its reads. *)
Ltac run_iteration :=
  cbv beta iota zeta delta
    [negotiateRevision renterSigned negotiated wrapping bind ret fail try errOf
     encoding.WriteObject connClosed connIn connOut error_is_stop negb
     FileContractRevisions TransactionSignatures].

Lemma negotiateRevision_answered (rev : FileContractRevision)
    (secretKey : list byte) (hostSig : TransactionSignature)
    (l1 l3 : Z) (tail rest : list frame) (out : list object)
    (answer : option error) :
  l1 <= modules.NegotiateMaxErrorSize ->
  l3 <= 16000 ->
  let sent := out ++ [ORevision rev; OTxnSignature (renterSigned rev secretKey)] in
  modules.ReadNegotiationAcceptance (mkConn tail sent false)
  = (match answer with Some e => inl e | None => inr tt end,
     mkConn (mkFrame l3 (OTxnSignature hostSig) :: rest) sent false) ->
  match answer with Some e => e = ErrStopResponse | None => True end ->
  negotiateRevision rev secretKey
    (mkConn (mkFrame l1 (OString modules.AcceptResponse) :: tail) out false)
  = (match StandaloneValid (negotiated rev secretKey hostSig)
             (u64 (NewWindowStart rev - 1)) with
     | None => (negotiated rev secretKey hostSig, answer)
     | Some err =>
         (zeroTransaction,
          Some (errWrap err "negotiated transaction is invalid"))
     end,
     mkConn rest sent false).
Proof.
  intros Hl1 Hl3 sent Hread Hstop. subst sent.
  run_iteration.
  rewrite ReadNegotiationAcceptance_accept by exact Hl1.
  run_iteration.
  rewrite <- app_assoc. cbn [app].
  unfold renterSigned in Hread. rewrite Hread.
  destruct answer as [e |]; [subst e |]; run_iteration;
    rewrite ReadTxnSignature_reads by exact Hl3;
    cbn [app];
    destruct (StandaloneValid _ _); reflexivity.
Qed.

Lemma negotiateRevision_refused (rev : FileContractRevision)
    (secretKey : list byte) (l1 : Z) (tail : list frame) (out : list object)
    (e : error) (c2 : Conn) :
  l1 <= modules.NegotiateMaxErrorSize ->
  modules.ReadNegotiationAcceptance
    (mkConn tail
       (out ++ [ORevision rev; OTxnSignature (renterSigned rev secretKey)])
       false)
  = (inl e, c2) ->
  e <> ErrStopResponse ->
  negotiateRevision rev secretKey
    (mkConn (mkFrame l1 (OString modules.AcceptResponse) :: tail) out false)
  = ((zeroTransaction,
      Some (errWrap e "host did not accept transaction signature")),
     c2).
Proof.
  intros Hl1 Hread Hstop.
  run_iteration.
  rewrite ReadNegotiationAcceptance_accept by exact Hl1.
  run_iteration.
  rewrite <- app_assoc. cbn [app].
  unfold renterSigned in Hread. rewrite Hread.
  destruct e; try reflexivity. contradiction.
Qed.

(** C4: when the host accepts the revision and answers the renter's
    signature with the stop response, [negotiateRevision] still reads the
    host's signature, appends it and validates the transaction at
    [NewWindowStart - 1]; a valid transaction is returned together with
    [ErrStopResponse], exactly the transaction an acceptance would have
    returned with no error. Any other error at that point is returned
    wrapped, with the zero transaction. *)
Theorem negotiateRevision_completes_on_stop (rev : FileContractRevision)
    (secretKey : list byte) (hostSig : TransactionSignature)
    (l1 l2 l3 : Z) (rest : list frame) (out : list object) :
  l1 <= modules.NegotiateMaxErrorSize ->
  l2 <= modules.NegotiateMaxErrorSize ->
  l3 <= 16000 ->
  let answers := fun resp =>
    mkConn (mkFrame l1 (OString modules.AcceptResponse)
            :: mkFrame l2 (OString resp)
            :: mkFrame l3 (OTxnSignature hostSig) :: rest) out false in
  let sent := out ++ [ORevision rev; OTxnSignature (renterSigned rev secretKey)] in
  let txn := negotiated rev secretKey hostSig in
  let verdict := StandaloneValid txn (u64 (NewWindowStart rev - 1)) in
  negotiateRevision rev secretKey (answers modules.StopResponse)
  = (match verdict with
     | None => (txn, Some ErrStopResponse)
     | Some err =>
         (zeroTransaction,
          Some (errWrap err "negotiated transaction is invalid"))
     end,
     mkConn rest sent false) /\
  negotiateRevision rev secretKey (answers modules.AcceptResponse)
  = (match verdict with
     | None => (txn, None)
     | Some err =>
         (zeroTransaction,
          Some (errWrap err "negotiated transaction is invalid"))
     end,
     mkConn rest sent false) /\
  (forall tail e c2,
      modules.ReadNegotiationAcceptance (mkConn tail sent false) = (inl e, c2) ->
      e <> ErrStopResponse ->
      negotiateRevision rev secretKey
        (mkConn (mkFrame l1 (OString modules.AcceptResponse) :: tail) out false)
      = ((zeroTransaction,
          Some (errWrap e "host did not accept transaction signature")),
         c2)).
Proof.
  intros Hl1 Hl2 Hl3 answers sent txn verdict.
  split; [| split].
  - apply (negotiateRevision_answered rev secretKey hostSig l1 l3 _ rest out
             (Some ErrStopResponse) Hl1 Hl3); [| reflexivity].
    apply ReadNegotiationAcceptance_stop. exact Hl2.
  - apply (negotiateRevision_answered rev secretKey hostSig l1 l3 _ rest out
             None Hl1 Hl3); [| exact I].
    apply ReadNegotiationAcceptance_accept. exact Hl2.
  - intros tail e c2 Hread Hne.
    apply negotiateRevision_refused; assumption.
Qed.

End NegotiationFacts.

Lemma negotiateRevision_completes_on_stop_witness :
  @negotiateRevision toyCrypto sampleRevision [x07] stoppingConn
  = ((@negotiated toyCrypto sampleRevision [x07] sampleHostSig,
      Some ErrStopResponse),
     mkConn []
       [ORevision sampleRevision;
        OTxnSignature (@renterSigned toyCrypto sampleRevision [x07])]
       false).
Proof.
  apply (@negotiateRevision_completes_on_stop toyCrypto sampleRevision [x07]
           sampleHostSig 6 4 100 [] []).
  - unfold modules.NegotiateMaxErrorSize. lia.
  - unfold modules.NegotiateMaxErrorSize. lia.
  - lia.
Defined.

Lemma verifySettings_keeps_dialed_address_witness :
  @verifySettings toyCrypto sampleHost movedConn
  = (inr sampleHost, mkConn [] [] false) /\
  NetAddress (withNetAddress movedSettings (NetAddress (Settings sampleHost)))
  = NetAddress (Settings sampleHost) /\
  (forall conn host' conn',
      @verifySettings toyCrypto sampleHost conn = (inr host', conn') ->
      NetAddress (Settings host') = NetAddress (Settings sampleHost)).
Proof.
  apply (@verifySettings_keeps_dialed_address toyCrypto sampleHost
           movedSettings sampleKey 200 [] []).
  - unfold modules.NegotiateMaxHostExternalSettingsLen. lia.
  - reflexivity.
Defined.

Lemma startRevision_price_gate_witness :
  exists err,
    In err priceErrors /\
    @startRevision toyCrypto sampleHost hikedConn
    = (Some err, sampleHost, mkConn [] [] false) /\
    written hikedConn (mkConn [] [] false) = [].
Proof.
  apply (@startRevision_price_gate toyCrypto sampleHost
           (mkHost hikedSettings "ed25519:aa") hikedConn (mkConn [] [] false)).
  - reflexivity.
  - left. cbn. lia.
Defined.

Lemma startRevision_sends_no_stop :
  ~ @stopsOnPriceIncrease toyCrypto sampleHost hikedConn.
Proof.
  intros Hstop.
  specialize (Hstop (mkHost hikedSettings "ed25519:aa") (mkConn [] [] false)
                eq_refl).
  assert (Hinc : priceIncreased sampleHost (mkHost hikedSettings "ed25519:aa"))
    by (left; cbn; lia).
  specialize (Hstop Hinc). cbn in Hstop.
  destruct Hstop as [_ Hin]. exact Hin.
Qed.

(** ** The opening handshake *)

Lemma bytes_eqb_eq (a b : list byte) : bytes_eqb a b = true <-> a = b.
Proof.
  revert b. induction a as [| x a IH]; intros [| y b]; cbn; split;
    intros Hab; try discriminate; try reflexivity.
  - apply andb_true_iff in Hab. destruct Hab as [Hxy Hrest].
    apply Byte.byte_dec_bl in Hxy. apply IH in Hrest. subst. reflexivity.
  - injection Hab as -> ->. apply andb_true_iff. split.
    + apply Byte.byte_dec_lb. reflexivity.
    + apply IH. reflexivity.
Qed.

Section HandshakeFacts.

Context `{SiaCrypto} {C : Type} `{ContractEditor C}.

Variables (ct : ContractTransaction) (challenge : Hash).
Variables (lch lacc lrev lsigs : Z).
Variables (hostRev : FileContractRevision).
Variables (hostSigs : list TransactionSignature).
Variables (rest : list frame).

Local Abbreviation script :=
  (handshakeScript challenge lch lacc lrev lsigs hostRev hostSigs rest).
Local Abbreviation answer := (handshakeAnswer ct challenge).

Hypothesis challenge_frame : lch <= 32.
Hypothesis challenge_size : length challenge = 32%nat.
Hypothesis acceptance_frame : lacc <= modules.NegotiateMaxErrorSize.

Lemma verifyRecentRevision_reads (out : list object) :
  verifyRecentRevision ct (mkConn script out false)
  = if 2048 <? lrev
    then (inl (errWrap ErrObjectTooLarge "could not read host revision"),
          mkConn (mkFrame lsigs (OSignatures hostSigs) :: rest)
            (out ++ answer) false)
    else if 2048 <? lsigs
    then (inl (errWrap ErrObjectTooLarge "could not read host signatures"),
          mkConn rest (out ++ answer) false)
    else
      match VerifyFileContractRevisionTransactionSignatures hostRev hostSigs
              (u64 (EndHeight ct - 1)) with
      | Some err =>
          (inl (errWrap err "host sent invalid transaction"),
           mkConn rest (out ++ answer) false)
      | None =>
          if bytes_eqb (UnlockConditionsHash (RevUnlockConditions hostRev))
               (UnlockConditionsHash
                  (RevUnlockConditions (CurrentRevision ct)))
          then (inr (hostRev, hostSigs), mkConn rest (out ++ answer) false)
          else (inl (errNew "unlock conditions do not match"),
                mkConn rest (out ++ answer) false)
      end.
Proof.
  unfold handshakeScript, handshakeAnswer. cbn [app].
  run_wire.
  destruct (Z.ltb_spec 32 lch); [lia |].
  run_wire. rewrite challenge_size. cbn [Nat.eqb].
  run_wire.
  destruct (Z.ltb_spec modules.NegotiateMaxErrorSize lacc); [lia |].
  run_wire. rewrite String.eqb_refl. run_wire.
  rewrite <- app_assoc. cbn [app].
  destruct (2048 <? lrev); [reflexivity |].
  run_wire.
  destruct (2048 <? lsigs); [reflexivity |].
  run_wire.
  destruct (VerifyFileContractRevisionTransactionSignatures hostRev hostSigs
              (u64 (EndHeight ct - 1))); [reflexivity |].
  destruct (bytes_eqb _ _); reflexivity.
Qed.

(** C6: in the handshake the host's revision and its signatures are each
    read with a limit of 2048 bytes, the signatures are verified at
    [EndHeight - 1], and a revision whose unlock hash differs from the
    current one makes [initiateRPC] fail with "unlock conditions do not
    match"; in each of these failures the socket is closed, no connection is
    returned and the contract is the one passed in: [SyncWithHost] has not
    run. Only when every check passes is [SyncWithHost] called. *)
Theorem handshake_checks_before_sync (dial : string -> error + Conn)
    (addr rpc : string) (contract : C) (out : list object) :
  ContractEditor_Transaction contract = ct ->
  dial addr = inr (mkConn script out false) ->
  let result := initiateRPC dial addr rpc contract in
  let sent := out ++ OSpecifier rpc :: answer in
  let verdict :=
    VerifyFileContractRevisionTransactionSignatures hostRev hostSigs
      (u64 (EndHeight ct - 1)) in
  let hostHash := UnlockConditionsHash (RevUnlockConditions hostRev) in
  let ourHash :=
    UnlockConditionsHash (RevUnlockConditions (CurrentRevision ct)) in
  (2048 < lrev ->
   refusedBeforeSync result contract
     (errWrap ErrObjectTooLarge "could not read host revision")
     (mkConn (mkFrame lsigs (OSignatures hostSigs) :: rest) sent true)) /\
  (lrev <= 2048 -> 2048 < lsigs ->
   refusedBeforeSync result contract
     (errWrap ErrObjectTooLarge "could not read host signatures")
     (mkConn rest sent true)) /\
  (lrev <= 2048 -> lsigs <= 2048 ->
   forall err, verdict = Some err ->
   refusedBeforeSync result contract
     (errWrap err "host sent invalid transaction") (mkConn rest sent true)) /\
  (lrev <= 2048 -> lsigs <= 2048 -> verdict = None -> hostHash <> ourHash ->
   refusedBeforeSync result contract
     (errNew "unlock conditions do not match") (mkConn rest sent true)) /\
  (lrev <= 2048 -> lsigs <= 2048 -> verdict = None -> hostHash = ourHash ->
   result
   = match SyncWithHost contract hostRev hostSigs with
     | (Some err, contract') =>
         mkRPCResult None
           (Some (errWrap err "could not synchronize contract with host"))
           (Some (mkConn rest sent true)) contract'
     | (None, contract') =>
         mkRPCResult (Some (mkConn rest sent false)) None
           (Some (mkConn rest sent false)) contract'
     end).
Proof.
  intros Hct Hdial result sent verdict hostHash ourHash.
  assert (Hrun : result
    = match verifyRecentRevision ct (mkConn script (out ++ [OSpecifier rpc]) false) with
      | (inl err, conn) =>
          closing conn
            (errWrap err "could not verify most recent contract revision")
            contract
      | (inr (rev, sigs), conn) =>
          match SyncWithHost contract rev sigs with
          | (Some err, contract') =>
              closing conn
                (errWrap err "could not synchronize contract with host")
                contract'
          | (None, contract') => mkRPCResult (Some conn) None (Some conn) contract'
          end
      end).
  { unfold result, initiateRPC. rewrite Hdial, Hct.
    unfold encoding.WriteObject. cbn [connClosed connIn connOut].
    reflexivity. }
  rewrite verifyRecentRevision_reads in Hrun.
  rewrite <- app_assoc in Hrun. cbn [app] in Hrun. fold sent in Hrun.
  fold verdict hostHash ourHash in Hrun.
  unfold refusedBeforeSync.
  split; [| split; [| split; [| split]]].
  - intros Hrev. rewrite Hrun.
    destruct (Z.ltb_spec 2048 lrev); [reflexivity | lia].
  - intros Hrev Hsigs. rewrite Hrun.
    destruct (Z.ltb_spec 2048 lrev); [lia |].
    destruct (Z.ltb_spec 2048 lsigs); [reflexivity | lia].
  - intros Hrev Hsigs err Hv. rewrite Hrun.
    destruct (Z.ltb_spec 2048 lrev); [lia |].
    destruct (Z.ltb_spec 2048 lsigs); [lia |].
    rewrite Hv. reflexivity.
  - intros Hrev Hsigs Hv Hne. rewrite Hrun.
    destruct (Z.ltb_spec 2048 lrev); [lia |].
    destruct (Z.ltb_spec 2048 lsigs); [lia |].
    rewrite Hv.
    destruct (bytes_eqb hostHash ourHash) eqn:Heq; [| reflexivity].
    apply bytes_eqb_eq in Heq. contradiction.
  - intros Hrev Hsigs Hv Heq. rewrite Hrun.
    destruct (Z.ltb_spec 2048 lrev); [lia |].
    destruct (Z.ltb_spec 2048 lsigs); [lia |].
    rewrite Hv.
    apply bytes_eqb_eq in Heq. rewrite Heq.
    destruct (SyncWithHost contract hostRev hostSigs) as [[err |] contract'];
      reflexivity.
Qed.

End HandshakeFacts.

Lemma handshake_checks_before_sync_witness :
  @refusedBeforeSync ContractStore
    (@initiateRPC toyCrypto ContractStore (@storeEditor toyCrypto)
       (fun _ => inr foreignConn) "host.example:9982" "RevisionRPC"
       sampleStore)
    sampleStore
    (errNew "unlock conditions do not match")
    (mkConn []
       [OSpecifier "RevisionRPC"; OHash zeroHash;
        OSignature (repeat x00 16 ++ repeat xff 16 ++ [x07])]
       true).
Proof.
  apply (@handshake_checks_before_sync toyCrypto ContractStore
           (@storeEditor toyCrypto)
           (storeContract sampleStore) (repeat xff 32) 32 6 300 100
           foreignRevision [sampleHostSig] []
           ltac:(lia) eq_refl ltac:(unfold modules.NegotiateMaxErrorSize; lia)
           (fun _ => inr foreignConn) "host.example:9982" "RevisionRPC"
           sampleStore [] eq_refl eq_refl).
  - lia.
  - lia.
  - reflexivity.
  - discriminate.
Defined.

(** ** Upload of one chunk *)

Section UploadFacts.

Context `{SiaCrypto} `{SectorOps} {U S : Type} `{UploadOps U S}.

Lemma roundUp_sector (n : Z) :
  0 <= n <= SectorSize -> roundUp n SegmentSize <= SectorSize.
Proof.
  unfold roundUp, SegmentSize, SectorSize. intros Hn.
  Z.to_euclidean_division_equations; lia.
Qed.

Lemma Reset_Append_Finish (b : SectorBuilder) (rng : Rng) (data : list byte)
    (key : EncryptionKey) (chunkIndex : Z) :
  len (sector b) = SectorSize ->
  len data <= SectorSize ->
  exists b1 rng1 sec b' rng',
    Append data key chunkIndex (Reset b, rng) = (inr tt, (b1, rng1)) /\
    Finish (b1, rng1) = (inr sec, (b', rng')) /\
    Slices b'
    = [mkSlice 0 (len data) (HashBytes data) (SectorMerkleRoot sec)].
Proof.
  intros Hsec Hdata.
  pose proof (Reset_OK b Hsec) as Hok.
  pose proof (roundUp_sector (len data) (conj (len_nonneg data) Hdata)) as Hr.
  assert (Hfit : sectorLen (Reset b) + paddedTotal [(data, key, chunkIndex)]
                 <= SectorSize).
  { cbn [Reset sectorLen paddedTotal]. lia. }
  destruct (appendAll_fits [(data, key, chunkIndex)] (Reset b) rng Hok Hfit)
    as (b1 & rng1 & Hrun & Hok1 & _ & Hsl1).
  cbn [appendAll] in Hrun. unfold bind, ret in Hrun.
  destruct (Append data key chunkIndex (Reset b, rng)) as [[e | []] st] eqn:Happ;
    [discriminate |].
  injection Hrun as ->.
  destruct (Finish_fills b1 rng1 Hok1) as [Hfin _]. cbv zeta in Hfin.
  exists b1, rng1. eexists. eexists. eexists.
  split; [reflexivity |]. split; [exact Hfin |].
  unfold Slices. cbn [slices]. rewrite Hsl1. reflexivity.
Qed.

(** C9: data longer than a sector is refused at once, with the uploader
    untouched. Otherwise the sector is built and handed to the host; when
    the host's upload returns an error, [EncryptAndUpload] returns that very
    error and the shard is the one it started with, so [WriteSlice] has not
    run; the slice is written to the shard, under the chunk index, only when
    the upload returned no error. *)
Theorem EncryptAndUpload_writes_after_upload (u : ShardUploader U S)
    (rng : Rng) (data : list byte) (chunkIndex : Z) :
  len (sector (sb u)) = SectorSize ->
  (SectorSize < len data ->
   EncryptAndUpload data chunkIndex (u, rng)
   = (inr (zeroSlice, Some (errNew "data exceeds sector size")), (u, rng))) /\
  (len data <= SectorSize ->
   exists sec b' rng',
     bind (Append data (Key u) chunkIndex) (fun _ => Finish) (Reset (sb u), rng)
     = (inr sec, (b', rng')) /\
     let ss := mkSlice 0 (len data) (HashBytes data) (SectorMerkleRoot sec) in
     Slices b' = [ss] /\
     (forall h e up,
         Upload (Uploader u) sec = ((h, Some e), up) ->
         EncryptAndUpload data chunkIndex (u, rng)
         = (inr (zeroSlice, Some e),
            (mkShardUploader up (Shard u) (Key u) b', rng'))) /\
     (forall h up werr shard,
         Upload (Uploader u) sec = ((h, None), up) ->
         WriteSlice (Shard u) ss chunkIndex = (werr, shard) ->
         EncryptAndUpload data chunkIndex (u, rng)
         = (inr match werr with
                | Some e =>
                    (zeroSlice,
                     Some (errWrap e "could not write to shard file"))
                | None => (ss, None)
                end,
            (mkShardUploader up shard (Key u) b', rng')))).
Proof.
  intros Hsec. destruct u as [up0 shard0 key b]. cbn [sb] in Hsec.
  cbn [Uploader Shard Key sb]. split.
  - intros Hbig. unfold EncryptAndUpload.
    destruct (Z.ltb_spec SectorSize (len data)); [reflexivity | lia].
  - intros Hdata.
    destruct (Reset_Append_Finish b rng data key chunkIndex Hsec Hdata)
      as (b1 & rng1 & sec & b' & rng' & Happ & Hfin & Hsl).
    exists sec, b', rng'.
    split; [unfold bind; rewrite Happ; exact Hfin |].
    cbv zeta. split; [exact Hsl |].
    split.
    + intros h e up Hup. unfold EncryptAndUpload.
      destruct (Z.ltb_spec SectorSize (len data)); [lia |].
      cbv beta iota zeta delta [bind onBuilder sb Uploader Shard Key].
      rewrite Happ.
      cbv beta iota zeta delta [bind onBuilder sb Uploader Shard Key].
      rewrite Hfin.
      cbv beta iota zeta delta [bind onBuilder sb Uploader Shard Key].
      rewrite Hup. reflexivity.
    + intros h up werr shard Hup Hwrite. unfold EncryptAndUpload.
      destruct (Z.ltb_spec SectorSize (len data)); [lia |].
      cbv beta iota zeta delta [bind onBuilder sb Uploader Shard Key].
      rewrite Happ.
      cbv beta iota zeta delta [bind onBuilder sb Uploader Shard Key].
      rewrite Hfin.
      cbv beta iota zeta delta [bind onBuilder sb Uploader Shard Key].
      rewrite Hup. rewrite Hsl. cbn [index nth_error].
      rewrite Hwrite. destruct werr; reflexivity.
Qed.

End UploadFacts.

Lemma EncryptAndUpload_writes_after_upload_witness :
  exists st,
    @EncryptAndUpload toyCrypto toySectorOps _ _ toyUploadOps ABC 0
      (strandedUploader, sampleRng)
    = (inr (zeroSlice, Some (errNew "host unreachable")), st) /\
    Shard (fst st) = [].
Proof.
  destruct (@EncryptAndUpload_writes_after_upload toyCrypto toySectorOps
              _ _ toyUploadOps strandedUploader sampleRng ABC 0)
    as [_ Hfit].
  - destruct zeroBuilder_OK as [Hsec _]. exact Hsec.
  - destruct Hfit as (sec & b' & rng' & _ & _ & Hfail & _).
    + unfold SectorSize. cbn. lia.
    + eexists. split.
      * apply (Hfail zeroHash (errNew "host unreachable") 0%nat). reflexivity.
      * reflexivity.
Defined.

(** * Further properties *)

(** ** The sector builder between calls *)

Lemma firstn_exact {A : Type} (l1 l2 : list A) (n : nat) :
  length l1 = n -> firstn n (l1 ++ l2) = l1.
Proof.
  intros <-. rewrite firstn_app, Nat.sub_diag, firstn_all. cbn.
  apply app_nil_r.
Qed.

Lemma skipn_exact {A : Type} (l1 l2 : list A) (n : nat) :
  length l1 = n -> skipn n (l1 ++ l2) = l2.
Proof.
  intros <-. rewrite skipn_app, Nat.sub_diag, skipn_all. reflexivity.
Qed.

Lemma slicesPacked_snoc (l : list SectorSlice) :
  forall (from bound : Z) (s : SectorSlice) (bound' : Z),
    slicesPacked from l bound ->
    bound <= Offset s -> Offset s mod SegmentSize = 0 -> 0 <= Length s ->
    Offset s + Length s <= bound' ->
    slicesPacked from (l ++ [s]) bound'.
Proof.
  induction l as [| x l IH]; intros from bound s bound' Hl Hb Hal Hlen Hend.
  - cbn in *. repeat split; lia.
  - cbn [slicesPacked app] in *. destruct Hl as (H1 & H2 & H3 & H4).
    repeat split; try assumption.
    apply (IH _ bound); assumption.
Qed.

Lemma slicesPacked_weaken (l : list SectorSlice) :
  forall (from bound bound' : Z),
    slicesPacked from l bound -> bound <= bound' ->
    slicesPacked from l bound'.
Proof.
  induction l as [| x l IH]; intros from bound bound' Hl Hb.
  - cbn in *. lia.
  - cbn [slicesPacked] in *. destruct Hl as (H1 & H2 & H3 & H4).
    repeat split; try assumption. apply (IH _ bound); assumption.
Qed.

Lemma slicesPacked_root (root : Hash) (l : list SectorSlice) :
  forall (from bound : Z),
    slicesPacked from l bound ->
    slicesPacked from (map (withMerkleRoot root) l) bound.
Proof.
  induction l as [| x l IH]; intros from bound Hl.
  - exact Hl.
  - cbn [slicesPacked map withMerkleRoot Offset Length] in *.
    destruct Hl as (H1 & H2 & H3 & H4).
    repeat split; try assumption. apply IH. exact H4.
Qed.

Section BuilderCalls.

Context `{SiaCrypto} `{SectorOps}.

(** Everything a fitting [Append] does, piece by piece. *)
Lemma Append_shape (b : SectorBuilder) (rng : Rng) (data : list byte)
    (key : EncryptionKey) (chunkIndex : Z) :
  builderOK b ->
  sectorLen b + roundUp (len data) SegmentSize <= SectorSize ->
  let n := roundUp (len data) SegmentSize in
  let buf := data ++ map rng (seq 0 (Z.to_nat (padding (len data)))) in
  exists b',
    Append data key chunkIndex (b, rng)
    = (inr tt, (b', fun i => rng (Z.to_nat (padding (len data)) + i)%nat)) /\
    builderOK b' /\
    sectorLen b' = sectorLen b + n /\
    slices b'
    = slices b ++ [mkSlice (sectorLen b) (len data) (HashBytes data) zeroHash] /\
    len buf = n /\
    firstn (Z.to_nat (sectorLen b)) (sector b')
    = firstn (Z.to_nat (sectorLen b)) (sector b) /\
    region (sector b') (sectorLen b) n
    = copy buf (EncryptSegments key buf (startIndex chunkIndex)) /\
    skipn (Z.to_nat (sectorLen b + n)) (sector b')
    = skipn (Z.to_nat (sectorLen b + n)) (sector b).
Proof.
  intros Hok Hfit n buf.
  pose proof (Append_fits b rng data key chunkIndex Hok Hfit) as Happ.
  cbv zeta in Happ. fold buf in Happ. fold n in Happ.
  destruct Hok as [Hsec Hcur].
  pose proof (len_nonneg data) as Hd.
  destruct (padding_roundUp (len data) Hd) as [Hpad Hp].
  assert (Hbuf : len buf = n).
  { unfold buf. rewrite len_app. unfold len at 2.
    rewrite length_map, length_seq. fold n in Hpad. lia. }
  set (enc := copy buf (EncryptSegments key buf (startIndex chunkIndex))) in *.
  assert (Henc : length enc = Z.to_nat n).
  { unfold enc. rewrite length_copy. unfold len in Hbuf. lia. }
  assert (Hpre : length (firstn (Z.to_nat (sectorLen b)) (sector b))
                 = Z.to_nat (sectorLen b)).
  { rewrite length_firstn. unfold len in Hsec. lia. }
  assert (Hn : 0 <= n) by (unfold n; pose proof (roundUp_bounds _ Hd); lia).
  eexists. split; [exact Happ |].
  cbn [sector sectorLen slices].
  split.
  { split; cbn [sector sectorLen]; [| fold n in Hfit; lia].
    rewrite !len_app. unfold len in *.
    rewrite Hpre, Henc, length_skipn. fold n in Hfit. lia. }
  split; [reflexivity |]. split; [reflexivity |]. split; [exact Hbuf |].
  split; [apply firstn_exact; exact Hpre |].
  split.
  { unfold region. rewrite (skipn_exact _ _ _ Hpre).
    apply firstn_exact. exact Henc. }
  rewrite app_assoc. apply skipn_exact.
  rewrite length_app, Hpre, Henc. lia.
Qed.


Lemma roundUp_le_multiple (n m : Z) :
  0 <= n <= m -> m mod SegmentSize = 0 -> roundUp n SegmentSize <= m.
Proof.
  unfold roundUp, SegmentSize. intros Hn Hm.
  Z.to_euclidean_division_equations; lia.
Qed.

Lemma Remaining_OK (b : SectorBuilder) :
  builderOK b -> Remaining b = SectorSize - sectorLen b.
Proof.
  intros [Hsec Hcur]. unfold Remaining. rewrite Hsec.
  apply i64_small. unfold SectorSize in *. lia.
Qed.

Lemma aligned_remaining (b : SectorBuilder) :
  builderAligned b -> (SectorSize - sectorLen b) mod SegmentSize = 0.
Proof.
  intros [_ Hal]. unfold SectorSize, SegmentSize in *.
  Z.to_euclidean_division_equations; lia.
Qed.

(** X1: [Append] panics exactly when the data is longer than what remains, as
    its comment says, provided the cursor is on a segment boundary. *)
Theorem Append_panics_iff_exceeds_remaining (b : SectorBuilder) (rng : Rng)
    (data : list byte) (key : EncryptionKey) (chunkIndex : Z) :
  builderAligned b ->
  addressable data ->
  (Remaining b < len data ->
   Append data key chunkIndex (b, rng)
   = (inl (goPanic "data exceeds sector size"), (b, rng))) /\
  (len data <= Remaining b ->
   exists st, Append data key chunkIndex (b, rng) = (inr tt, st)).
Proof.
  intros Hal Hadd. pose proof Hal as [Hok _].
  rewrite (Remaining_OK b Hok).
  pose proof (len_nonneg data) as Hd.
  pose proof (roundUp_bounds (len data) Hd) as Hr.
  destruct Hok as [Hsec Hcur]. unfold addressable in Hadd.
  split.
  - intros Hbig. apply Append_overflows; unfold SegmentSize in *; lia.
  - intros Hfit.
    pose proof (roundUp_le_multiple (len data) (SectorSize - sectorLen b)
                  (conj Hd Hfit) (aligned_remaining b Hal)) as Hle.
    destruct (Append_shape b rng data key chunkIndex (conj Hsec Hcur))
      as (b' & Happ & _); [lia |].
    eexists. exact Happ.
Qed.

(** X2: A fitting [Append] keeps the builder sound: the cursor stays on a
    segment boundary inside the sector, the slices stay packed one after the
    other below the cursor, and [Len] and [Remaining] add up to the sector. *)
Theorem Append_keeps_builder_sound (b : SectorBuilder) (rng : Rng)
    (data : list byte) (key : EncryptionKey) (chunkIndex : Z) :
  builderSound b ->
  Len b + roundUp (len data) SegmentSize <= SectorSize ->
  exists b' rng',
    Append data key chunkIndex (b, rng) = (inr tt, (b', rng')) /\
    builderSound b' /\
    Len b' + Remaining b' = SectorSize /\
    Len b <= Len b'.
Proof.
  intros [[Hok Hal] Hpack] Hfit. unfold Len in *.
  destruct (Append_shape b rng data key chunkIndex Hok Hfit)
    as (b' & Happ & Hok' & Hlen' & Hsl' & _).
  pose proof (len_nonneg data) as Hd.
  pose proof (roundUp_bounds (len data) Hd) as Hr.
  exists b'. eexists. split; [exact Happ |].
  split; [| split].
  - split; [split; [exact Hok' |] |].
    + rewrite Hlen'. pose proof (roundUp_segments (len data)) as Hm.
      unfold SegmentSize in *. Z.to_euclidean_division_equations; lia.
    + rewrite Hsl', Hlen'.
      apply (slicesPacked_snoc _ 0 (sectorLen b)); cbn [Offset Length];
        try assumption; lia.
  - rewrite (Remaining_OK b' Hok'). lia.
  - lia.
Qed.

(** X3: Appending no data always succeeds, even on a full sector: the sector
    and the length stay as they are, no random byte is drawn, and one slice
    of length zero is recorded at the cursor. *)
Theorem Append_empty_records_slice (b : SectorBuilder) (rng : Rng)
    (key : EncryptionKey) (chunkIndex : Z) :
  builderOK b ->
  Append [] key chunkIndex (b, rng)
  = (inr tt,
     (mkBuilder (sector b) (sectorLen b)
        (slices b ++ [mkSlice (sectorLen b) 0 (HashBytes []) zeroHash]),
      rng)).
Proof.
  intros Hok.
  assert (Hfit : sectorLen b + roundUp (len (@nil byte)) SegmentSize
                 <= SectorSize).
  { destruct Hok as [_ Hcur]. cbn. lia. }
  pose proof (Append_fits b rng [] key chunkIndex Hok Hfit) as Happ.
  cbv zeta in Happ. rewrite Happ.
  change (roundUp (len (@nil byte)) SegmentSize) with 0.
  change (padding (len (@nil byte))) with 0.
  cbn [Z.to_nat seq map app copy length firstn skipn].
  rewrite Z.add_0_r, skipn_nil. cbn [app]. rewrite firstn_skipn.
  reflexivity.
Qed.

Lemma Finish_shape (b : SectorBuilder) (rng : Rng) :
  builderOK b ->
  exists sec rng',
    Finish (b, rng)
    = (inr sec,
       (mkBuilder sec SectorSize
          (map (withMerkleRoot (SectorMerkleRoot sec)) (slices b)), rng')) /\
    len sec = SectorSize /\
    firstn (Z.to_nat (sectorLen b)) sec
    = firstn (Z.to_nat (sectorLen b)) (sector b) /\
    (sectorLen b = SectorSize -> sec = sector b /\ rng' = rng).
Proof.
  intros Hok. destruct (Finish_fills b rng Hok) as [Hfin Hlen].
  cbv zeta in Hfin, Hlen. destruct Hok as [Hsec Hcur].
  eexists. eexists. split; [exact Hfin |]. split; [exact Hlen |]. split.
  - apply firstn_exact. rewrite length_firstn. unfold len in Hsec. lia.
  - intros Hfull.
    assert (Hall : Z.to_nat (sectorLen b) = length (sector b))
      by (unfold len in Hsec; lia).
    rewrite Hall, Nat.sub_diag, firstn_all. cbn [seq map].
    rewrite app_nil_r. split; reflexivity.
Qed.

(** X4: What is in the sector stays there: [Append] changes no byte outside
    the segments it fills, and [Finish] changes no byte below the cursor. *)
Theorem builder_is_append_only (b : SectorBuilder) (rng : Rng)
    (data : list byte) (key : EncryptionKey) (chunkIndex : Z) :
  builderOK b ->
  Len b + roundUp (len data) SegmentSize <= SectorSize ->
  (exists b' rng',
      Append data key chunkIndex (b, rng) = (inr tt, (b', rng')) /\
      firstn (Z.to_nat (Len b)) (sector b')
      = firstn (Z.to_nat (Len b)) (sector b) /\
      skipn (Z.to_nat (Len b')) (sector b')
      = skipn (Z.to_nat (Len b')) (sector b)) /\
  (exists sec st,
      Finish (b, rng) = (inr sec, st) /\
      firstn (Z.to_nat (Len b)) sec = firstn (Z.to_nat (Len b)) (sector b)).
Proof.
  intros Hok Hfit. unfold Len in *. split.
  - destruct (Append_shape b rng data key chunkIndex Hok Hfit)
      as (b' & Happ & _ & Hlen' & _ & _ & Hpre & _ & Hpost).
    exists b'. eexists. split; [exact Happ |].
    rewrite Hlen'. split; assumption.
  - destruct (Finish_shape b rng Hok) as (sec & rng' & Hfin & _ & Hpre & _).
    exists sec. eexists. split; [exact Hfin | exact Hpre].
Qed.

Lemma map_withMerkleRoot_twice (root : Hash) (l : list SectorSlice) :
  map (withMerkleRoot root) (map (withMerkleRoot root) l)
  = map (withMerkleRoot root) l.
Proof. rewrite map_map. apply map_ext. intros s. reflexivity. Qed.

(** X5: [Finish] seals the sector: it returns [SectorSize] bytes, [Len] becomes
    [SectorSize] and [Remaining] zero, the builder stays sound, any further
    [Append] of at least one byte panics, and a second [Finish] returns the
    same sector with the same slices without drawing a random byte. *)
Theorem Finish_seals_sector (b : SectorBuilder) (rng : Rng) :
  builderSound b ->
  exists sec b' rng',
    Finish (b, rng) = (inr sec, (b', rng')) /\
    len sec = SectorSize /\
    sector b' = sec /\
    Len b' = SectorSize /\
    Remaining b' = 0 /\
    builderSound b' /\
    (forall data key chunkIndex,
        data <> [] -> addressable data ->
        Append data key chunkIndex (b', rng')
        = (inl (goPanic "data exceeds sector size"), (b', rng'))) /\
    Finish (b', rng') = (inr sec, (b', rng')).
Proof.
  intros [[Hok Hal] Hpack].
  destruct (Finish_shape b rng Hok) as (sec & rng' & Hfin & Hlen & _ & _).
  set (b' := mkBuilder sec SectorSize
               (map (withMerkleRoot (SectorMerkleRoot sec)) (slices b))) in *.
  assert (Hok' : builderOK b').
  { split; cbn [b' sector sectorLen]; [exact Hlen |].
    unfold SectorSize. lia. }
  exists sec, b', rng'.
  split; [exact Hfin |]. split; [exact Hlen |]. split; [reflexivity |].
  split; [reflexivity |].
  split; [rewrite (Remaining_OK b' Hok'); cbn [b' sectorLen]; lia |].
  split; [| split].
  - split; [split; [exact Hok' | reflexivity] |].
    cbn [b' slices sectorLen]. apply slicesPacked_root.
    apply (slicesPacked_weaken _ _ (sectorLen b)); [exact Hpack |].
    destruct Hok as [_ Hcur]. lia.
  - intros data key chunkIndex Hne Hadd.
    assert (Hpos : 0 < len data).
    { destruct data; [contradiction | unfold len; cbn; lia]. }
    pose proof (roundUp_bounds (len data) (len_nonneg data)) as Hr.
    unfold addressable in Hadd.
    apply Append_overflows; cbn [b' sectorLen]; unfold SegmentSize in *; lia.
  - destruct (Finish_shape b' rng' Hok')
      as (sec2 & rng2 & Hfin2 & _ & _ & Hfull).
    destruct (Hfull eq_refl) as [-> ->].
    rewrite Hfin2. cbn [b' sector slices].
    rewrite map_withMerkleRoot_twice. reflexivity.
Qed.

(** X6: [Reset] makes the builder usable again whatever state it was in: the
    builder is sound and empty, the buffer is the same, and any data of at
    most [SectorSize] bytes fits, its slice starting at offset 0. *)
Theorem Reset_makes_room (b : SectorBuilder) (rng : Rng) (data : list byte)
    (key : EncryptionKey) (chunkIndex : Z) :
  len (sector b) = SectorSize ->
  len data <= SectorSize ->
  builderSound (Reset b) /\
  sector (Reset b) = sector b /\
  Remaining (Reset b) = SectorSize /\
  exists b' rng',
    Append data key chunkIndex (Reset b, rng) = (inr tt, (b', rng')) /\
    Slices b' = [mkSlice 0 (len data) (HashBytes data) zeroHash] /\
    Len b' = roundUp (len data) SegmentSize.
Proof.
  intros Hsec Hdata.
  pose proof (Reset_OK b Hsec) as Hok.
  split; [| split; [reflexivity | split]].
  - split; [split; [exact Hok | reflexivity] |].
    cbn. lia.
  - rewrite (Remaining_OK _ Hok). cbn [Reset sectorLen]. lia.
  - assert (Hr : roundUp (len data) SegmentSize <= SectorSize).
    { apply roundUp_le_multiple; [pose proof (len_nonneg data); lia |].
      reflexivity. }
    destruct (Append_shape (Reset b) rng data key chunkIndex Hok)
      as (b' & Happ & _ & Hlen' & Hsl' & _);
      [cbn [Reset sectorLen]; lia |].
    exists b'. eexists. split; [exact Happ |].
    unfold Slices, Len. rewrite Hsl', Hlen'. cbn [Reset slices sectorLen app].
    split; [reflexivity | lia].
Qed.

Lemma firstn_prefix_le {A : Type} (l l' : list A) (a n : nat) :
  (a <= n)%nat -> firstn n l = firstn n l' -> firstn a l = firstn a l'.
Proof.
  intros Han Heq.
  rewrite <- (Nat.min_l a n Han), <- !firstn_firstn, Heq. reflexivity.
Qed.

Lemma region_of_prefix (l l' : list byte) (offset n : Z) :
  0 <= offset -> 0 <= n ->
  firstn (Z.to_nat (offset + n)) l = firstn (Z.to_nat (offset + n)) l' ->
  region l offset n = region l' offset n.
Proof.
  intros Ho Hn Heq. unfold region.
  rewrite !firstn_skipn_comm, <- Z2Nat.inj_add by lia.
  rewrite Heq. reflexivity.
Qed.

Lemma paddedTotal_nonneg (calls : list appendCall) : 0 <= paddedTotal calls.
Proof.
  induction calls as [| [[d k] c] r IHr]; cbn [paddedTotal]; [lia |].
  pose proof (roundUp_bounds (len d) (len_nonneg d)).
  pose proof (len_nonneg d). lia.
Qed.

Lemma appendAll_shape (calls : list appendCall) :
  forall (b : SectorBuilder) (rng : Rng),
    builderOK b ->
    sectorLen b + paddedTotal calls <= SectorSize ->
    exists b' rng',
      appendAll calls (b, rng) = (inr tt, (b', rng')) /\
      builderOK b' /\
      sectorLen b' = sectorLen b + paddedTotal calls /\
      slices b' = slices b ++ layout zeroHash (sectorLen b) calls /\
      firstn (Z.to_nat (sectorLen b)) (sector b')
      = firstn (Z.to_nat (sectorLen b)) (sector b).
Proof.
  induction calls as [| [[data key] chunkIndex] rest IH]; intros b rng Hok Hfit.
  - exists b, rng. cbn. rewrite app_nil_r.
    repeat split; try reflexivity; try apply Hok; lia.
  - cbn [paddedTotal] in Hfit.
    pose proof (paddedTotal_nonneg rest) as Hrest.
    pose proof (roundUp_bounds (len data) (len_nonneg data)) as Hr.
    pose proof (len_nonneg data) as Hd.
    destruct (Append_shape b rng data key chunkIndex Hok)
      as (b1 & Happ & Hok1 & Hlen1 & Hsl1 & _ & Hpre1 & _); [lia |].
    destruct (IH b1 (fun i => rng (Z.to_nat (padding (len data)) + i)%nat) Hok1)
      as (b' & rng' & Hrun & Hok' & Hlen' & Hsl' & Hpre'); [lia |].
    exists b', rng'. cbn [appendAll]. unfold bind at 1. rewrite Happ.
    split; [exact Hrun |]. split; [exact Hok' |].
    split; [cbn [paddedTotal]; lia |].
    split.
    + rewrite Hsl', Hsl1, Hlen1. cbn [layout]. rewrite <- app_assoc.
      reflexivity.
    + rewrite <- Hpre1.
      apply (firstn_prefix_le _ _ _ (Z.to_nat (sectorLen b1))); [| exact Hpre'].
      destruct Hok as [_ Hcur]. lia.
Qed.

Lemma copy_same_length {A : Type} (dst src : list A) :
  length src = length dst -> copy dst src = src.
Proof.
  intros Hlen. unfold copy. rewrite <- Hlen, firstn_all.
  rewrite Hlen, skipn_all. apply app_nil_r.
Qed.

(** X7: With a cipher that keeps lengths and can be undone, every slice reads
    back: in the finished sector, whatever was appended afterwards, the
    segments of a slice decrypt under the chunk's start index to the data
    followed by its padding, and the first [Length] bytes are the data whose
    hash is the slice's checksum. *)
Theorem slice_decrypts_to_data
    (decrypt : EncryptionKey -> list byte -> Z -> list byte)
    (b : SectorBuilder) (rng : Rng) (data : list byte) (key : EncryptionKey)
    (chunkIndex : Z) (rest : list appendCall) :
  (forall k d i, length (EncryptSegments k d i) = length d) ->
  (forall k d i, decrypt k (EncryptSegments k d i) i = d) ->
  builderOK b ->
  Len b + paddedTotal ((data, key, chunkIndex) :: rest) <= SectorSize ->
  exists sec b' rng',
    bind (appendAll ((data, key, chunkIndex) :: rest)) (fun _ => Finish)
      (b, rng)
    = (inr sec, (b', rng')) /\
    let plain :=
      firstn (length data)
        (decrypt key
           (region sec (Len b) (roundUp (len data) SegmentSize))
           (startIndex chunkIndex)) in
    plain = data /\
    In (mkSlice (Len b) (len data) (HashBytes plain) (SectorMerkleRoot sec))
       (Slices b').
Proof.
  intros Hlen Hinv Hok Hfit. unfold Len in *.
  cbn [paddedTotal] in Hfit.
  pose proof (paddedTotal_nonneg rest) as Hrest.
  pose proof (roundUp_bounds (len data) (len_nonneg data)) as Hr.
  pose proof (len_nonneg data) as Hd.
  destruct (Append_shape b rng data key chunkIndex Hok)
    as (b1 & Happ & Hok1 & Hlen1 & Hsl1 & Hbuf & _ & Hreg & _); [lia |].
  cbv zeta in Hbuf, Hreg.
  destruct (appendAll_shape rest b1
              (fun i => rng (Z.to_nat (padding (len data)) + i)%nat) Hok1)
    as (b2 & rng2 & Hrun & Hok2 & Hlen2 & Hsl2 & Hpre2); [lia |].
  destruct (Finish_shape b2 rng2 Hok2) as (sec & rng3 & Hfin & _ & Hpre3 & _).
  eexists. eexists. eexists. split.
  { cbn [appendAll]. unfold bind. rewrite Happ. cbv beta iota.
    unfold Rng in *. rewrite Hrun. exact Hfin. }
  assert (Hregion : region sec (sectorLen b) (roundUp (len data) SegmentSize)
                    = region (sector b1) (sectorLen b)
                        (roundUp (len data) SegmentSize)).
  { destruct Hok as [_ Hcur].
    apply region_of_prefix; [lia | lia |].
    rewrite <- Hlen1.
    transitivity (firstn (Z.to_nat (sectorLen b1)) (sector b2)).
    - apply (firstn_prefix_le _ _ _ (Z.to_nat (sectorLen b2)));
        [lia | exact Hpre3].
    - exact Hpre2. }
  cbv zeta. rewrite Hregion, Hreg.
  rewrite copy_same_length by apply Hlen.
  rewrite Hinv.
  rewrite (firstn_exact data _ (length data) eq_refl).
  split; [reflexivity |].
  unfold Slices. cbn [slices]. rewrite Hsl2, Hsl1, map_app, map_app.
  apply in_or_app. left. apply in_or_app. right. left. reflexivity.
Qed.

End BuilderCalls.

(** ** What the host receives *)

Section UploadedSector.

Context `{SiaCrypto} `{SectorOps} {U S : Type} `{UploadOps U S}.

(** X8: The sector [EncryptAndUpload] hands to the host is the encrypted data
    and padding followed by random bytes up to [SectorSize]: nothing of what
    the builder held before reaches the host. The call then behaves as the
    upload and the shard decide: an upload error is returned as it is, a
    shard error wrapped, and otherwise the slice [{0, len data}] under the
    root of that sector is written and returned. *)
Theorem EncryptAndUpload_sends_fresh_sector (u : ShardUploader U S)
    (rng : Rng) (data : list byte) (chunkIndex : Z) :
  len (sector (sb u)) = SectorSize ->
  len data <= SectorSize ->
  let buf := data ++ map rng (seq 0 (Z.to_nat (padding (len data)))) in
  let n := roundUp (len data) SegmentSize in
  let sec :=
    copy buf (EncryptSegments (Key u) buf (startIndex chunkIndex))
    ++ map (fun i => rng (Z.to_nat (padding (len data)) + i)%nat)
         (seq 0 (Z.to_nat (SectorSize - n))) in
  let ss := mkSlice 0 (len data) (HashBytes data) (SectorMerkleRoot sec) in
  let b' := mkBuilder sec SectorSize [ss] in
  len sec = SectorSize /\
  exists rng',
    EncryptAndUpload data chunkIndex (u, rng)
    = (let '((_, err), up) := Upload (Uploader u) sec in
       match err with
       | Some e =>
           (inr (zeroSlice, Some e),
            (mkShardUploader up (Shard u) (Key u) b', rng'))
       | None =>
           let (werr, shard) := WriteSlice (Shard u) ss chunkIndex in
           (inr match werr with
                | Some e =>
                    (zeroSlice,
                     Some (errWrap e "could not write to shard file"))
                | None => (ss, None)
                end,
            (mkShardUploader up shard (Key u) b', rng'))
       end).
Proof.
  intros Hsec Hdata buf n sec ss b'.
  destruct u as [up0 shard0 key b]. cbn [sb Key Uploader Shard] in *.
  pose proof (Reset_OK b Hsec) as Hok.
  pose proof (len_nonneg data) as Hd.
  assert (Hn : 0 <= n <= SectorSize).
  { unfold n. pose proof (roundUp_bounds (len data) Hd).
    split; [lia |]. apply roundUp_le_multiple; [lia | reflexivity]. }
  destruct (Append_shape (Reset b) rng data key chunkIndex Hok)
    as (b1 & Happ & Hok1 & Hlen1 & Hsl1 & Hbuf & _ & Hreg & _);
    [cbn [Reset sectorLen]; fold n; lia |].
  cbv zeta in Hbuf, Hreg. fold buf in Hbuf, Hreg. fold n in Hlen1, Hbuf, Hreg.
  cbn [Reset sectorLen slices app] in Hlen1, Hsl1, Hreg.
  rewrite Z.add_0_l in Hlen1.
  unfold region in Hreg. cbn [Z.to_nat skipn] in Hreg.
  destruct (Finish_fills b1 (fun i => rng (Z.to_nat (padding (len data)) + i)%nat)
              Hok1) as [Hfin Hseclen].
  cbv zeta in Hfin, Hseclen.
  assert (Htail : (length (sector b1) - Z.to_nat (sectorLen b1))%nat
                  = Z.to_nat (SectorSize - n)).
  { destruct Hok1 as [Hs1 _]. unfold len in Hs1. lia. }
  rewrite Htail, Hlen1, Hreg in Hfin, Hseclen.
  fold sec in Hfin, Hseclen. rewrite Hsl1 in Hfin.
  cbn [map] in Hfin. unfold withMerkleRoot in Hfin.
  cbn [Offset Length Checksum] in Hfin.
  fold ss in Hfin. fold b' in Hfin.
  split; [exact Hseclen |].
  eexists.
  unfold EncryptAndUpload.
  destruct (Z.ltb_spec SectorSize (len data)); [lia |].
  cbv beta iota zeta delta [bind onBuilder sb Uploader Shard Key].
  unfold Rng in *. rewrite Happ.
  cbv beta iota zeta delta [bind onBuilder sb Uploader Shard Key].
  rewrite Hfin.
  cbv beta iota zeta delta [bind onBuilder sb Uploader Shard Key].
  destruct (Upload up0 sec) as [[h [e |]] up]; [reflexivity |].
  cbn [b' slices Slices index nth_error].
  unfold Slices. cbn [b' slices index nth_error].
  destruct (WriteSlice shard0 ss chunkIndex) as [[e |] shard]; reflexivity.
Qed.

End UploadedSector.

Lemma zeroBuilder_sound : builderSound zeroBuilder.
Proof.
  split; [split; [exact zeroBuilder_OK | reflexivity] |].
  cbn. lia.
Qed.

Lemma ABC_addressable : addressable ABC.
Proof. unfold addressable, SectorSize, SegmentSize, maxInt. cbn. lia. Qed.

Lemma Append_panics_iff_exceeds_remaining_witness :
  (Remaining zeroBuilder < len ABC ->
   @Append toyCrypto toySectorOps ABC [] 0 (zeroBuilder, sampleRng)
   = (inl (goPanic "data exceeds sector size"), (zeroBuilder, sampleRng))) /\
  (len ABC <= Remaining zeroBuilder ->
   exists st,
     @Append toyCrypto toySectorOps ABC [] 0 (zeroBuilder, sampleRng)
     = (inr tt, st)).
Proof.
  apply (@Append_panics_iff_exceeds_remaining toyCrypto toySectorOps
           zeroBuilder sampleRng ABC [] 0).
  - destruct zeroBuilder_sound as [Hal _]. exact Hal.
  - exact ABC_addressable.
Defined.

Lemma Append_keeps_builder_sound_witness :
  exists b' rng',
    @Append toyCrypto toySectorOps ABC [] 0 (zeroBuilder, sampleRng)
    = (inr tt, (b', rng')) /\
    builderSound b' /\
    Len b' + Remaining b' = SectorSize /\
    Len zeroBuilder <= Len b'.
Proof.
  apply (@Append_keeps_builder_sound toyCrypto toySectorOps
           zeroBuilder sampleRng ABC [] 0).
  - exact zeroBuilder_sound.
  - unfold Len, zeroBuilder. cbn [sectorLen]. unfold SectorSize. cbn. lia.
Defined.

Lemma Append_empty_records_slice_witness :
  @Append toyCrypto toySectorOps [] [] 0 (zeroBuilder, sampleRng)
  = (inr tt,
     (mkBuilder (sector zeroBuilder) (sectorLen zeroBuilder)
        (slices zeroBuilder ++ [mkSlice (sectorLen zeroBuilder) 0 [] zeroHash]),
      sampleRng)).
Proof.
  apply (@Append_empty_records_slice toyCrypto toySectorOps
           zeroBuilder sampleRng [] 0).
  exact zeroBuilder_OK.
Defined.

Lemma builder_is_append_only_witness :
  (exists b' rng',
      @Append toyCrypto toySectorOps ABC [] 0 (zeroBuilder, sampleRng)
      = (inr tt, (b', rng')) /\
      firstn (Z.to_nat (Len zeroBuilder)) (sector b')
      = firstn (Z.to_nat (Len zeroBuilder)) (sector zeroBuilder) /\
      skipn (Z.to_nat (Len b')) (sector b')
      = skipn (Z.to_nat (Len b')) (sector zeroBuilder)) /\
  (exists sec st,
      @Finish toySectorOps (zeroBuilder, sampleRng) = (inr sec, st) /\
      firstn (Z.to_nat (Len zeroBuilder)) sec
      = firstn (Z.to_nat (Len zeroBuilder)) (sector zeroBuilder)).
Proof.
  apply (@builder_is_append_only toyCrypto toySectorOps
           zeroBuilder sampleRng ABC [] 0).
  - exact zeroBuilder_OK.
  - unfold Len, zeroBuilder. cbn [sectorLen]. unfold SectorSize. cbn. lia.
Defined.

Lemma Finish_seals_sector_witness :
  exists sec b' rng',
    @Finish toySectorOps (zeroBuilder, sampleRng) = (inr sec, (b', rng')) /\
    len sec = SectorSize /\
    Remaining b' = 0 /\
    @Finish toySectorOps (b', rng') = (inr sec, (b', rng')).
Proof.
  destruct (@Finish_seals_sector toyCrypto toySectorOps zeroBuilder sampleRng
              zeroBuilder_sound)
    as (sec & b' & rng' & Hfin & Hlen & _ & _ & Hrem & _ & _ & Hagain).
  exists sec, b', rng'. repeat split; assumption.
Defined.

Lemma Reset_makes_room_witness :
  builderSound (Reset zeroBuilder) /\
  sector (Reset zeroBuilder) = sector zeroBuilder /\
  Remaining (Reset zeroBuilder) = SectorSize /\
  exists b' rng',
    @Append toyCrypto toySectorOps ABC [] 0 (Reset zeroBuilder, sampleRng)
    = (inr tt, (b', rng')) /\
    Slices b' = [mkSlice 0 3 ABC zeroHash] /\
    Len b' = 64.
Proof.
  apply (@Reset_makes_room toyCrypto toySectorOps zeroBuilder sampleRng
           ABC [] 0).
  - destruct zeroBuilder_OK as [Hsec _]. exact Hsec.
  - unfold SectorSize. cbn. lia.
Defined.

Lemma slice_decrypts_to_data_witness :
  exists sec b' rng',
    bind (@appendAll toyCrypto toySectorOps sampleCalls)
      (fun _ => @Finish toySectorOps) (zeroBuilder, sampleRng)
    = (inr sec, (b', rng')) /\
    firstn 3 (region sec 0 64) = ABC /\
    In (mkSlice 0 3 ABC (firstn 32 sec)) (Slices b').
Proof.
  destruct (@slice_decrypts_to_data toyCrypto toySectorOps
              (fun _ d _ => d) zeroBuilder sampleRng ABC [] 0 [(DEFGH, [], 1)])
    as (sec & b' & rng' & Hrun & Hplain & Hin).
  - reflexivity.
  - reflexivity.
  - exact zeroBuilder_OK.
  - unfold Len, zeroBuilder. cbn [sectorLen]. unfold SectorSize. cbn. lia.
  - exists sec, b', rng'. split; [exact Hrun |].
    split; [exact Hplain |].
    rewrite Hplain in Hin. exact Hin.
Defined.

Lemma EncryptAndUpload_sends_fresh_sector_witness :
  exists sec rng',
    len sec = SectorSize /\
    @EncryptAndUpload toyCrypto toySectorOps _ _ toyUploadOps ABC 0
      (strandedUploader, sampleRng)
    = (inr (zeroSlice, Some (errNew "host unreachable")),
       (mkShardUploader 0%nat []
          [] (mkBuilder sec SectorSize [mkSlice 0 3 ABC (firstn 32 sec)]),
        rng')).
Proof.
  destruct (@EncryptAndUpload_sends_fresh_sector toyCrypto toySectorOps
              _ _ toyUploadOps strandedUploader sampleRng ABC 0)
    as [Hlen [rng' Hrun]].
  - destruct zeroBuilder_OK as [Hsec _]. exact Hsec.
  - unfold SectorSize. cbn. lia.
  - eexists. exists rng'. split; [exact Hlen |]. exact Hrun.
Defined.

(** ** The negotiation on any connection *)

(** Unfolds the protocol functions and the wire to the bottom. *)
Ltac run_protocol :=
  cbv beta iota zeta delta
    [negotiateRevision startRevision terminateRPC initiateRPC closing
     verifySettings verifyRecentRevision renterSigned negotiated
     wrapping bind ret fail try errOf error_is_stop negb
     crypto.ReadSignedObject encoding.ReadPrefix encoding.ReadString
     encoding.ReadHash encoding.ReadRevision encoding.ReadSignatures
     encoding.ReadTxnSignature encoding.WriteObject encoding.Close
     modules.ReadNegotiationAcceptance modules.WriteNegotiationAcceptance
     modules.WriteNegotiationStop
     FileContractRevisions TransactionSignatures
     connClosed connIn connOut frameLen frameObj fst snd].

(** Splits on whatever the next step of the protocol looks at. *)
Ltac split_protocol :=
  repeat (run_protocol;
          match goal with
          | |- context [match ?x with _ => _ end] => is_var x; destruct x
          | |- context [Z.ltb ?a ?b] => destruct (Z.ltb a b) eqn:?
          | |- context [Nat.eqb ?a ?b] => destruct (Nat.eqb a b) eqn:?
          | |- context [String.eqb ?a ?b] => destruct (String.eqb a b) eqn:?
          | |- context [bytes_eqb ?a ?b] => destruct (bytes_eqb a b) eqn:?
          | |- context [VerifySettingsSignature ?a ?b ?c] =>
              destruct (VerifySettingsSignature a b c) eqn:?
          | |- context [StandaloneValid ?a ?b] =>
              destruct (StandaloneValid a b) eqn:?
          | |- context [VerifyFileContractRevisionTransactionSignatures ?a ?b ?c] =>
              destruct (VerifyFileContractRevisionTransactionSignatures a b c)
                eqn:?
          end).

(** Turns the boolean tests met on the way into facts. *)
Ltac eqb_facts :=
  repeat match goal with
    | H : (_ <? _) = false |- _ => apply Z.ltb_ge in H
    | H : (_ <? _) = true |- _ => apply Z.ltb_lt in H
    | H : String.eqb _ _ = true |- _ => apply String.eqb_eq in H
    | H : Nat.eqb _ _ = true |- _ => apply Nat.eqb_eq in H
    | H : bytes_eqb _ _ = true |- _ => apply bytes_eqb_eq in H
    end.

Section AnyConnection.

Context `{SiaCrypto}.

Lemma written_snoc2 (inbox inbox' : list frame) (out : list object)
    (c c' : bool) (a b : object) :
  written (mkConn inbox out c) (mkConn inbox' ((out ++ [a]) ++ [b]) c')
  = [a; b].
Proof. apply written_more. cbn. rewrite <- app_assoc. reflexivity. Qed.

Lemma written_snoc1 (inbox inbox' : list frame) (out : list object)
    (c c' : bool) (a : object) :
  written (mkConn inbox out c) (mkConn inbox' (out ++ [a]) c') = [a].
Proof. apply written_more. reflexivity. Qed.

Lemma written_same (inbox inbox' : list frame) (out : list object)
    (c c' : bool) :
  written (mkConn inbox out c) (mkConn inbox' out c') = [].
Proof. apply written_nothing. reflexivity. Qed.

(** X9: [negotiateRevision] never returns a transaction it has not validated:
    either it returns the zero transaction with a wrapped error, or the
    revision with the renter's and the host's signature, valid at
    [NewWindowStart - 1], with no error or with [ErrStopResponse]. *)
Theorem negotiateRevision_returns_validated (rev : FileContractRevision)
    (secretKey : list byte) (conn : Conn) :
  let '((txn, err), _) := negotiateRevision rev secretKey conn in
  (txn = zeroTransaction /\ exists e msg, err = Some (errWrap e msg)) \/
  (exists hostSig,
      txn = negotiated rev secretKey hostSig /\
      StandaloneValid txn (u64 (NewWindowStart rev - 1)) = None /\
      (err = None \/ err = Some ErrStopResponse)).
Proof.
  destruct conn as [inbox out closed].
  split_protocol;
    try (left; split; [reflexivity | eexists; eexists; reflexivity]);
    right; eexists; (split; [reflexivity |]);
    (split; [eassumption |]); first [left; reflexivity | right; reflexivity].
Qed.


(** X10: The renter's signature leaves only after the host accepted the
    revision: [negotiateRevision] writes nothing, or the revision, or the
    revision and then its signature, the latter only when the first answer
    of the host was an acceptance within the size limit. *)
Theorem negotiateRevision_signs_after_acceptance (rev : FileContractRevision)
    (secretKey : list byte) (conn : Conn) :
  let '(_, conn') := negotiateRevision rev secretKey conn in
  written conn conn' = [] \/
  written conn conn' = [ORevision rev] \/
  (written conn conn'
   = [ORevision rev; OTxnSignature (renterSigned rev secretKey)] /\
   exists l rest,
     connIn conn = mkFrame l (OString modules.AcceptResponse) :: rest /\
     l <= modules.NegotiateMaxErrorSize).
Proof.
  destruct conn as [inbox out closed].
  split_protocol; eqb_facts;
    first [ left; apply written_same
          | right; left; apply written_snoc1
          | right; right; split;
            [ apply written_snoc2
            | eexists; eexists; split; [subst; reflexivity | assumption] ] ].
Qed.

Lemma verifyRecentRevision_outcome (ct : ContractTransaction) (conn : Conn) :
  match verifyRecentRevision ct conn with
  | (inr (rev, sigs), conn') =>
      VerifyFileContractRevisionTransactionSignatures rev sigs
        (u64 (EndHeight ct - 1)) = None /\
      UnlockConditionsHash (RevUnlockConditions rev)
      = UnlockConditionsHash (RevUnlockConditions (CurrentRevision ct)) /\
      connClosed conn' = false
  | (inl _, _) => True
  end.
Proof.
  destruct conn as [inbox out closed].
  split_protocol; try exact I; eqb_facts; repeat split;
    first [assumption | reflexivity].
Qed.

(** X11: On success [verifyRecentRevision] has checked what it returns: the
    host's signatures verify at [EndHeight - 1] and the unlock hash of the
    host's revision is the one of the current revision. *)
Theorem verifyRecentRevision_returns_checked (ct : ContractTransaction)
    (conn conn' : Conn) (rev : FileContractRevision)
    (sigs : list TransactionSignature) :
  verifyRecentRevision ct conn = (inr (rev, sigs), conn') ->
  VerifyFileContractRevisionTransactionSignatures rev sigs
    (u64 (EndHeight ct - 1)) = None /\
  UnlockConditionsHash (RevUnlockConditions rev)
  = UnlockConditionsHash (RevUnlockConditions (CurrentRevision ct)) /\
  connClosed conn' = false.
Proof.
  intros Hrun. pose proof (verifyRecentRevision_outcome ct conn) as Hout.
  rewrite Hrun in Hout. exact Hout.
Qed.

(** X12: The renter only signs a challenge whose first sixteen bytes it has
    zeroed: whatever the host sends, [verifyRecentRevision] writes nothing,
    or the contract ID, or the contract ID and the signature of sixteen zero
    bytes followed by the last sixteen bytes of a 32-byte challenge. *)
Theorem verifyRecentRevision_signs_wiped_challenge (ct : ContractTransaction)
    (conn : Conn) :
  let '(_, conn') := verifyRecentRevision ct conn in
  written conn conn' = [] \/
  written conn conn' = [OHash (proto.ID ct)] \/
  exists challenge,
    length challenge = 32%nat /\
    written conn conn'
    = [OHash (proto.ID ct);
       OSignature (SignHash (repeat x00 16 ++ skipn 16 challenge)
                     (RenterKey ct))].
Proof.
  destruct conn as [inbox out closed].
  split_protocol; eqb_facts;
    first [ left; apply written_same
          | right; left; apply written_snoc1
          | right; right; eexists; split; [eassumption |];
            rewrite written_snoc2; unfold crypto.SecureWipe;
            match goal with
            | Hl : length _ = 32%nat |- _ => rewrite Hl
            end; reflexivity ].
Qed.




End AnyConnection.

Lemma verifyRecentRevision_returns_checked_witness :
  @VerifyFileContractRevisionTransactionSignatures toyCrypto nextRevision
    [sampleHostSig] (u64 (EndHeight (storeContract sampleStore) - 1)) = None /\
  @UnlockConditionsHash toyCrypto (RevUnlockConditions nextRevision)
  = @UnlockConditionsHash toyCrypto
      (RevUnlockConditions (CurrentRevision (storeContract sampleStore))) /\
  connClosed
    (mkConn []
       [OHash zeroHash; OSignature (repeat x00 16 ++ repeat xff 16 ++ [x07])]
       false) = false.
Proof.
  apply (@verifyRecentRevision_returns_checked toyCrypto
           (storeContract sampleStore) agreeingConn).
  reflexivity.
Defined.

Section AnyHandshake.

Context `{SiaCrypto} {C : Type} `{ContractEditor C}.

(** X15: [initiateRPC] returns a connection exactly when it returns no error.
    On success the connection is the open socket and the contract is what
    [SyncWithHost] made of it; on failure no socket is left open, and the
    contract is the one passed in unless the failure is [SyncWithHost]'s
    own. *)
Theorem initiateRPC_closes_on_failure (dial : string -> error + Conn)
    (addr rpc : string) (contract : C) :
  let r := initiateRPC dial addr rpc contract in
  match rpcErr r with
  | None =>
      exists conn rev sigs,
        rpcConn r = Some conn /\ rpcSocket r = Some conn /\
        connClosed conn = false /\
        SyncWithHost contract rev sigs = (None, rpcContract r)
  | Some _ =>
      rpcConn r = None /\
      (rpcSocket r = None \/
       exists conn, rpcSocket r = Some conn /\ connClosed conn = true) /\
      (rpcContract r = contract \/
       exists rev sigs e,
         SyncWithHost contract rev sigs = (Some e, rpcContract r))
  end.
Proof.
  cbv zeta. unfold initiateRPC.
  destruct (dial addr) as [e | [inbox out closed]].
  { cbn. split; [reflexivity |]. split; left; reflexivity. }
  split_protocol;
    try match goal with
      | |- context [SyncWithHost ?a ?b ?c] =>
          destruct (SyncWithHost a b c) as [[?e |] ?c'] eqn:?Hsync
      end;
    run_protocol; cbn [rpcErr rpcConn rpcSocket rpcContract];
    first
      [ split; [reflexivity |]; split;
        [ right; eexists; split; reflexivity
        | first [ left; reflexivity
                | right; eexists; eexists; eexists; eassumption ] ]
      | eexists; eexists; eexists;
        split; [reflexivity |]; split; [reflexivity |];
        split; [reflexivity | eassumption] ].
Qed.

End AnyHandshake.

(** ** Revisions on any input *)

Lemma newRevision_general (current : FileContractRevision) (cost : Currency) :
  (2 <= length (NewValidProofOutputs current))%nat ->
  (3 <= length (NewMissedProofOutputs current))%nat ->
  newRevision current cost
  = Some (mkRevision (ParentID current) (RevUnlockConditions current)
            (u64 (NewRevisionNumber current + 1))
            (NewFileSize current) (NewFileMerkleRoot current)
            (NewWindowStart current) (NewWindowEnd current)
            (fst (revisedOutputs current cost))
            (snd (revisedOutputs current cost))
            (NewUnlockHash current)).
Proof.
  unfold newRevision, revisedOutputs, validRenter, validHost, missedRenter,
    missedHost, missedVoid.
  destruct (NewValidProofOutputs current) as [| v0 [| v1 vs]];
    destruct (NewMissedProofOutputs current) as [| m0 [| m1 [| m2 ms]]];
    cbn [length]; intros Hv Hm; try lia.
  unfold copy, make. cbn [length repeat firstn skipn app].
  rewrite !skipn_nil. reflexivity.
Qed.

Lemma newRevision_short (current : FileContractRevision) (cost : Currency) :
  (length (NewValidProofOutputs current) < 2)%nat \/
  (length (NewMissedProofOutputs current) < 3)%nat ->
  newRevision current cost = None.
Proof.
  unfold newRevision.
  destruct (NewValidProofOutputs current) as [| v0 [| v1 vs]];
    destruct (NewMissedProofOutputs current) as [| m0 [| m1 [| m2 ms]]];
    cbn [length]; intros [Hv | Hm]; try lia; reflexivity.
Qed.

(** X16: [newRevision] and [newUploadRevision] panic exactly when the current
    revision has fewer than two valid or fewer than three missed outputs.
    Otherwise they return a revision with exactly two valid and three missed
    outputs, built from the first ones of the current revision: outputs
    beyond these are dropped. *)
Theorem newRevision_needs_five_outputs (current : FileContractRevision)
    (merkleRoot : Hash) (cost collateral : Currency) :
  ((length (NewValidProofOutputs current) < 2)%nat \/
   (length (NewMissedProofOutputs current) < 3)%nat ->
   newRevision current cost = None /\
   newUploadRevision current merkleRoot cost collateral = None) /\
  ((2 <= length (NewValidProofOutputs current))%nat ->
   (3 <= length (NewMissedProofOutputs current))%nat ->
   exists rev up,
     newRevision current cost = Some rev /\
     newUploadRevision current merkleRoot cost collateral = Some up /\
     contractOutputs rev /\ contractOutputs up /\
     NewValidProofOutputs rev = fst (revisedOutputs current cost) /\
     NewMissedProofOutputs rev = snd (revisedOutputs current cost) /\
     NewValidProofOutputs up = NewValidProofOutputs rev).
Proof.
  split.
  - intros Hshort. pose proof (newRevision_short current cost Hshort) as Hn.
    split; [exact Hn |]. unfold newUploadRevision. rewrite Hn. reflexivity.
  - intros Hv Hm.
    pose proof (newRevision_general current cost Hv Hm) as Hn.
    eexists. eexists. split; [exact Hn |].
    unfold newUploadRevision. rewrite Hn.
    split; [reflexivity |].
    repeat split; reflexivity.
Qed.

Lemma u64_succ_twice (n : Z) : u64 (u64 (n + 1) + 1) = u64 (n + 2).
Proof.
  unfold u64. rewrite Zplus_mod_idemp_l. f_equal. lia.
Qed.

Lemma debit_twice (o : SiacoinOutput) (a b : Currency) :
  debit (debit o a) b = debit o (a + b)%N.
Proof. unfold debit. cbn. f_equal. lia. Qed.

Lemma credit_twice (o : SiacoinOutput) (a b : Currency) :
  credit (credit o a) b = credit o (a + b)%N.
Proof. unfold credit. cbn. f_equal. lia. Qed.

(** X17: Two payments in a row come to one payment of their sum: the outputs
    are the same, and the revision number has advanced twice. *)
Theorem payments_add_up (current : FileContractRevision) (c1 c2 : Currency) :
  contractOutputs current ->
  (c1 + c2 <= Value (validRenter current))%N ->
  (c1 + c2 <= Value (missedRenter current))%N ->
  exists r1 r2 r12,
    newRevision current c1 = Some r1 /\
    newRevision r1 c2 = Some r2 /\
    newRevision current (c1 + c2)%N = Some r12 /\
    NewValidProofOutputs r2 = NewValidProofOutputs r12 /\
    NewMissedProofOutputs r2 = NewMissedProofOutputs r12 /\
    NewRevisionNumber r2 = u64 (NewRevisionNumber current + 2) /\
    NewRevisionNumber r12 = u64 (NewRevisionNumber current + 1).
Proof.
  intros Hout Hv Hm.
  assert (H1 : newRevision current c1 = Some (paidRevision current c1))
    by (apply newRevision_paid; [assumption | lia | lia]).
  assert (H12 : newRevision current (c1 + c2)%N
                = Some (paidRevision current (c1 + c2)%N))
    by (apply newRevision_paid; assumption).
  assert (H2 : newRevision (paidRevision current c1) c2
               = Some (paidRevision (paidRevision current c1) c2)).
  { apply newRevision_paid.
    - split; reflexivity.
    - cbn. lia.
    - cbn. lia. }
  eexists. eexists. eexists.
  split; [exact H1 |]. split; [exact H2 |]. split; [exact H12 |].
  cbn [paidRevision NewValidProofOutputs NewMissedProofOutputs
       NewRevisionNumber validRenter validHost missedRenter missedHost
       missedVoid nth debit credit Value UnlockHash].
  rewrite !debit_twice, !credit_twice.
  split; [| split; [| split]].
  - reflexivity.
  - reflexivity.
  - apply u64_succ_twice.
  - reflexivity.
Qed.

(** X18: The revision number of a new revision is the current one plus one,
    except at the largest 64-bit number, where it wraps to zero; an upload
    adds [SectorSize] to the file size in the same 64-bit arithmetic. *)
Theorem revision_number_advances (current rev : FileContractRevision)
    (merkleRoot : Hash) (cost collateral : Currency) :
  0 <= NewRevisionNumber current < 2 ^ 64 ->
  newUploadRevision current merkleRoot cost collateral = Some rev ->
  (NewRevisionNumber current < 2 ^ 64 - 1 ->
   NewRevisionNumber rev = NewRevisionNumber current + 1) /\
  (NewRevisionNumber current = 2 ^ 64 - 1 -> NewRevisionNumber rev = 0) /\
  NewFileSize rev = u64 (NewFileSize current + SectorSize) /\
  (exists paid,
      newRevision current cost = Some paid /\
      NewRevisionNumber paid = NewRevisionNumber rev /\
      NewFileSize paid = NewFileSize current).
Proof.
  intros Hn Hup.
  destruct (Nat.lt_ge_cases (length (NewValidProofOutputs current)) 2)
    as [Hv | Hv].
  { unfold newUploadRevision in Hup.
    rewrite (newRevision_short current cost (or_introl Hv)) in Hup.
    discriminate. }
  destruct (Nat.lt_ge_cases (length (NewMissedProofOutputs current)) 3)
    as [Hm | Hm].
  { unfold newUploadRevision in Hup.
    rewrite (newRevision_short current cost (or_intror Hm)) in Hup.
    discriminate. }
  pose proof (newRevision_general current cost Hv Hm) as Hnew.
  unfold newUploadRevision in Hup. rewrite Hnew in Hup.
  cbn in Hup. injection Hup as <-.
  cbn [NewRevisionNumber NewFileSize].
  split; [| split; [| split]].
  - intros Hlt. apply u64_small. lia.
  - intros ->. reflexivity.
  - reflexivity.
  - eexists. split; [exact Hnew |]. split; reflexivity.
Qed.

Lemma payments_add_up_witness :
  exists r1 r2 r12,
    newRevision sampleRevision 10%N = Some r1 /\
    newRevision r1 5%N = Some r2 /\
    newRevision sampleRevision 15%N = Some r12 /\
    NewValidProofOutputs r2 = NewValidProofOutputs r12 /\
    NewMissedProofOutputs r2 = NewMissedProofOutputs r12 /\
    NewRevisionNumber r2 = 9 /\
    NewRevisionNumber r12 = 8.
Proof.
  apply (payments_add_up sampleRevision 10%N 5%N).
  - split; reflexivity.
  - cbn. lia.
  - cbn. lia.
Defined.

Lemma revision_number_advances_witness :
  NewRevisionNumber (uploadedRevision sampleRevision zeroHash 10%N 5%N) = 8 /\
  NewFileSize (uploadedRevision sampleRevision zeroHash 10%N 5%N)
  = SectorSize.
Proof.
  destruct (revision_number_advances sampleRevision
              (uploadedRevision sampleRevision zeroHash 10%N 5%N)
              zeroHash 10%N 5%N)
    as (Hnum & _ & Hsize & _).
  - cbn. lia.
  - reflexivity.
  - split.
    + apply Hnum. cbn. lia.
    + exact Hsize.
Defined.

(** ** The wire format of action sets *)

Lemma byteOf_value (v : Z) : Z.of_N (Byte.to_N (binary.byteOf v)) = v mod 256.
Proof.
  unfold binary.byteOf.
  pose proof (Z.mod_pos_bound v 256 ltac:(lia)) as Hb.
  destruct (Byte.of_N (Z.to_N (v mod 256))) as [b |] eqn:Hof.
  - apply Byte.to_of_N in Hof. rewrite Hof. lia.
  - apply Byte.of_N_None_iff in Hof. lia.
Qed.

Lemma length_littleEndian (n : nat) : forall v,
  length (binary.littleEndian n v) = n.
Proof.
  induction n as [| n IH]; intros v; cbn; [reflexivity |].
  rewrite IH. reflexivity.
Qed.

Lemma length_PutUint64 (v : Z) : length (binary.PutUint64 v) = 8%nat.
Proof. apply length_littleEndian. Qed.

Lemma littleEndian_value (n : nat) : forall v,
  fold_right (fun x acc => Z.of_N (Byte.to_N x) + 256 * acc) 0
    (binary.littleEndian n v)
  = v mod 2 ^ (8 * Z.of_nat n).
Proof.
  induction n as [| n IH]; intros v.
  - cbn. rewrite Z.mod_1_r. reflexivity.
  - cbn [binary.littleEndian fold_right]. rewrite IH, byteOf_value.
    rewrite Z.shiftr_div_pow2 by lia.
    replace (8 * Z.of_nat (S n)) with (8 + 8 * Z.of_nat n) by lia.
    rewrite Z.pow_add_r by lia.
    change (2 ^ 8) with 256.
    rewrite Z.rem_mul_r by lia. reflexivity.
Qed.

(** [Uint64] reads back what [PutUint64] wrote, whatever follows. *)
Lemma Uint64_PutUint64 (v : Z) (rest : list byte) :
  0 <= v < 2 ^ 64 -> binary.Uint64 (binary.PutUint64 v ++ rest) = v.
Proof.
  intros Hv. unfold binary.Uint64.
  rewrite (firstn_exact _ _ 8 (length_PutUint64 v)).
  unfold binary.PutUint64. rewrite littleEndian_value.
  apply Z.mod_small. exact Hv.
Qed.

Lemma Uint64_PutUint64_exact (v : Z) :
  0 <= v < 2 ^ 64 -> binary.Uint64 (binary.PutUint64 v) = v.
Proof.
  intros Hv. rewrite <- (app_nil_r (binary.PutUint64 v)).
  apply Uint64_PutUint64. exact Hv.
Qed.

Lemma take_app (l rest : list byte) (n : nat) :
  length l = n -> take n (l ++ rest) = Some (l, rest).
Proof.
  intros Hl. unfold take. rewrite length_app.
  destruct (Nat.ltb_spec (length l + length rest) n); [lia |].
  rewrite (firstn_exact _ _ _ Hl), (skipn_exact _ _ _ Hl). reflexivity.
Qed.

Lemma marshalActions_Buffer (s : actionSet) : forall w,
  @marshalActions (list byte) io.Buffer s w = (None, w ++ encodeActions s).
Proof.
  induction s as [| a rest IH]; intros w.
  - cbn. rewrite app_nil_r. reflexivity.
  - cbn [marshalActions io.Write io.Buffer encodeActions]. rewrite IH.
    rewrite <- !app_assoc. reflexivity.
Qed.

Lemma len_encodeActions (s : actionSet) :
  (forall a, In a s -> length (ActionType a) = 16%nat) ->
  len (encodeActions s) = encodedSize s.
Proof.
  induction s as [| a rest IH]; intros Hty; [reflexivity |].
  cbn [encodeActions encodedSize]. rewrite !len_app, IH.
  - unfold len. rewrite !length_PutUint64, (Hty a (or_introl eq_refl)). lia.
  - intros b Hb. apply Hty. right. exact Hb.
Qed.

Lemma encodedSize_nonneg (s : actionSet) : 0 <= encodedSize s.
Proof.
  induction s as [| a rest IH]; cbn [encodedSize]; [lia |].
  pose proof (len_nonneg (ActionData a)). lia.
Qed.

Lemma sizeActions_sum (s : actionSet) : forall size,
  0 <= size -> size + encodedSize s <= maxInt ->
  sizeActions size s = size + encodedSize s.
Proof.
  induction s as [| a rest IH]; intros size H0 Hmax; cbn [sizeActions encodedSize].
  - lia.
  - cbn [encodedSize] in Hmax.
    pose proof (len_nonneg (ActionData a)) as Hd.
    pose proof (encodedSize_nonneg rest) as Hr.
    unfold SpecifierLen, maxInt in *.
    rewrite (i64_small (size + 16)) by lia.
    rewrite (i64_small (size + 16 + 8)) by lia.
    rewrite (i64_small (size + 16 + 8 + 8)) by lia.
    rewrite (i64_small (size + 16 + 8 + 8 + 8)) by lia.
    rewrite (i64_small (size + 16 + 8 + 8 + 8 + len (ActionData a))) by lia.
    rewrite IH by lia. lia.
Qed.

(** X19: [MarshalSiaSize] announces exactly the number of bytes [MarshalSia]
    writes to a buffer, as long as that number is a Go [int]. *)
Theorem MarshalSiaSize_counts_bytes (s : actionSet) (w : list byte) :
  (forall a, In a s -> length (ActionType a) = 16%nat) ->
  8 + encodedSize s <= maxInt ->
  exists out,
    @MarshalSia (list byte) io.Buffer s w = (None, w ++ out) /\
    len out = MarshalSiaSize s.
Proof.
  intros Hty Hmax.
  exists (binary.PutUint64 (u64 (len s)) ++ encodeActions s). split.
  - unfold MarshalSia. cbn [io.Write io.Buffer].
    rewrite marshalActions_Buffer, <- app_assoc. reflexivity.
  - unfold MarshalSiaSize. rewrite (i64_small (0 + 8)) by (cbn; lia).
    rewrite sizeActions_sum by lia.
    rewrite len_app, (len_encodeActions s Hty).
    unfold len at 1. rewrite length_PutUint64. lia.
Qed.

Lemma parseActions_encode (s : actionSet) : forall tail,
  Forall wireAction s ->
  parseActions (length s) (encodeActions s ++ tail) = Some (s, tail).
Proof.
  induction s as [| a rest IH]; intros tail Hwf; [reflexivity |].
  inversion Hwf as [| a' rest' (Hty & Hidx & Hoff & Hdl) Hrest]; subst.
  destruct a as [ty idx off data].
  cbn [ActionType ActionSectorIndex ActionOffset ActionData] in *.
  cbn [length parseActions encodeActions
       ActionType ActionSectorIndex ActionOffset ActionData].
  rewrite <- !app_assoc.
  rewrite (take_app _ _ 16 Hty). cbn [obind].
  rewrite (take_app _ _ 8 (length_PutUint64 _)). cbn [obind].
  rewrite (take_app _ _ 8 (length_PutUint64 _)). cbn [obind].
  rewrite (take_app _ _ 8 (length_PutUint64 _)). cbn [obind].
  pose proof (len_nonneg data) as Hd.
  rewrite (Uint64_PutUint64_exact (u64 (len data)))
    by (rewrite u64_small by lia; lia).
  rewrite u64_small by lia.
  rewrite take_app by (unfold len; lia). cbn [obind].
  rewrite IH by assumption. cbn [obind].
  rewrite !Uint64_PutUint64_exact by assumption. reflexivity.
Qed.

Lemma MarshalSia_reads_back (s : actionSet) :
  Forall wireAction s ->
  len s < 2 ^ 64 ->
  exists out,
    @MarshalSia (list byte) io.Buffer s [] = (None, out) /\
    parseActionSet out = Some s.
Proof.
  intros Hwf Hlen.
  exists (binary.PutUint64 (u64 (len s)) ++ encodeActions s). split.
  - unfold MarshalSia. cbn [io.Write io.Buffer app].
    rewrite marshalActions_Buffer. reflexivity.
  - unfold parseActionSet.
    rewrite (take_app _ _ 8 (length_PutUint64 _)). cbn [obind].
    pose proof (len_nonneg s) as Hs.
    rewrite Uint64_PutUint64_exact by (rewrite u64_small by lia; lia).
    rewrite u64_small by lia. unfold len. rewrite Nat2Z.id.
    rewrite <- (app_nil_r (encodeActions s)).
    rewrite parseActions_encode by assumption. reflexivity.
Qed.

(** X20: What [MarshalSia] writes tells the action sets apart: two sets whose
    fields fit their types and that are marshalled to the same bytes are
    the same set. *)
Theorem MarshalSia_is_injective (s s' : actionSet) :
  Forall wireAction s -> Forall wireAction s' ->
  len s < 2 ^ 64 -> len s' < 2 ^ 64 ->
  snd (@MarshalSia (list byte) io.Buffer s [])
  = snd (@MarshalSia (list byte) io.Buffer s' []) ->
  s = s'.
Proof.
  intros Hwf Hwf' Hlen Hlen' Hsame.
  destruct (MarshalSia_reads_back s Hwf Hlen) as (out & Hout & Hparse).
  destruct (MarshalSia_reads_back s' Hwf' Hlen') as (out' & Hout' & Hparse').
  rewrite Hout, Hout' in Hsame. cbn [snd] in Hsame. subst out'.
  congruence.
Qed.

(** X21: [MarshalSia] reports only the errors of writing an action's data: on a
    writer every write of which fails with [e], the empty set is marshalled
    without an error, any other set fails with [e]. *)
Theorem MarshalSia_drops_header_errors {W : Type} `{io.Writer W}
    (s : actionSet) (w : W) (e : error) :
  (forall w p, snd (fst (io.Write w p)) = Some e) ->
  fst (MarshalSia s w) = match s with [] => None | _ :: _ => Some e end.
Proof.
  intros Hfail. unfold MarshalSia.
  destruct (io.Write w (binary.PutUint64 (u64 (len s)))) as [r0 w0].
  destruct s as [| a rest]; [reflexivity |].
  cbn [marshalActions].
  destruct (io.Write w0 (ActionType a)) as [r1 w1].
  destruct (io.Write w1 (binary.PutUint64 (ActionSectorIndex a))) as [r2 w2].
  destruct (io.Write w2 (binary.PutUint64 (ActionOffset a))) as [r3 w3].
  destruct (io.Write w3 (binary.PutUint64 (u64 (len (ActionData a)))))
    as [r4 w4].
  pose proof (Hfail w4 (ActionData a)) as Hdata.
  destruct (io.Write w4 (ActionData a)) as [[n err] w5].
  cbn [fst snd] in Hdata. subst err. reflexivity.
Qed.

Lemma sampleActions_wire : Forall wireAction sampleActions.
Proof.
  repeat constructor; cbn; lia.
Qed.

Lemma MarshalSiaSize_counts_bytes_witness :
  exists out,
    @MarshalSia (list byte) io.Buffer sampleActions [] = (None, [] ++ out) /\
    len out = 91.
Proof.
  apply (MarshalSiaSize_counts_bytes sampleActions []).
  - intros a [<- | [<- | []]]; reflexivity.
  - unfold maxInt. cbn. lia.
Defined.

Lemma MarshalSia_is_injective_witness :
  Forall wireAction sampleActions /\ sampleActions = sampleActions.
Proof.
  split; [exact sampleActions_wire |].
  apply (MarshalSia_is_injective sampleActions sampleActions).
  - exact sampleActions_wire.
  - exact sampleActions_wire.
  - cbn. lia.
  - cbn. lia.
  - reflexivity.
Defined.

Lemma MarshalSia_drops_header_errors_witness :
  fst (@MarshalSia unit closedPipe [] tt) = None /\
  fst (@MarshalSia unit closedPipe sampleActions tt) = Some errClosed.
Proof.
  split.
  - apply (@MarshalSia_drops_header_errors unit closedPipe [] tt errClosed).
    intros w p. reflexivity.
  - apply (@MarshalSia_drops_header_errors unit closedPipe sampleActions tt
             errClosed).
    intros w p. reflexivity.
Defined.

(** ** Recognising a disconnected host *)

Lemma Contains_append (pre s substr : string) :
  strings.Contains s substr = true ->
  strings.Contains (pre ++ s) substr = true.
Proof.
  intros Hs. induction pre as [| c pre IH]; [exact Hs |].
  cbn [append strings.Contains]. rewrite IH. apply orb_true_r.
Qed.

Section Disconnects.

Context `{SiaCrypto} `{ErrorTexts}.

(** X22: Wrapping an error with [errors.Wrap] does not hide a disconnect:
    [isHostDisconnect] looks at the whole text, and the text of the cause
    is part of the text of the wrapped error. *)
Theorem isHostDisconnect_survives_wrapping (e : error) (msg : string) :
  isHostDisconnect (Some e) = true ->
  isHostDisconnect (Some (errWrap e msg)) = true.
Proof.
  unfold isHostDisconnect. intros He. cbn [Error].
  apply Contains_append, Contains_append. exact He.
Qed.

(** X23: [isHostDisconnect] goes by the text alone: when a host that stays
    connected refuses a revision with a message that quotes the text of a
    closed connection, the error [negotiateRevision] returns counts as a
    disconnect, though the connection is still open. *)
Theorem refusal_text_counts_as_disconnect (rev : FileContractRevision)
    (secretKey : list byte) (l : Z) (msg : string) (tail : list frame)
    (out : list object) :
  l <= modules.NegotiateMaxErrorSize ->
  strings.Contains msg "use of closed network connection" = true ->
  let '((_, err), conn') :=
    negotiateRevision rev secretKey
      (mkConn (mkFrame l (OString msg) :: tail) out false) in
  isHostDisconnect err = true /\ connClosed conn' = false.
Proof.
  intros Hl Hmsg. run_protocol.
  destruct (Z.ltb_spec modules.NegotiateMaxErrorSize l) as [Hlt | _];
    [lia |].
  destruct (String.eqb_spec msg modules.AcceptResponse) as [-> | _];
    [discriminate Hmsg |].
  destruct (String.eqb_spec msg modules.StopResponse) as [-> | _];
    [discriminate Hmsg |].
  split; [| reflexivity].
  unfold isHostDisconnect. cbn [Error].
  apply Contains_append, Contains_append. exact Hmsg.
Qed.

End Disconnects.

Lemma isHostDisconnect_survives_wrapping_witness :
  @isHostDisconnect libraryTexts (Some errClosed) = true /\
  @isHostDisconnect libraryTexts
    (Some (errWrap errClosed "could not send revision")) = true.
Proof.
  split; [reflexivity |].
  apply (@isHostDisconnect_survives_wrapping libraryTexts errClosed).
  reflexivity.
Defined.

Lemma refusal_text_counts_as_disconnect_witness :
  let '((_, err), conn') :=
    @negotiateRevision toyCrypto sampleRevision sampleKey mimickingConn in
  @isHostDisconnect libraryTexts err = true /\ connClosed conn' = false.
Proof.
  apply (@refusal_text_counts_as_disconnect toyCrypto libraryTexts
           sampleRevision sampleKey 31
           "use of closed network connection" [] []).
  - unfold modules.NegotiateMaxErrorSize. lia.
  - reflexivity.
Defined.

(** ** The clients *)

Lemma HasPrefix_nonempty (key prefix : string) :
  prefix <> EmptyString -> strings.HasPrefix key prefix = true ->
  key <> EmptyString.
Proof.
  intros Hp Hk ->. destruct prefix; [contradiction | discriminate Hk].
Qed.

Lemma lookupLoop_found (prefix : string) (keys : list string) :
  forall hpk, hpk <> EmptyString ->
  renterutil.lookupLoop keys prefix hpk
  = match filter (fun key => strings.HasPrefix key prefix) keys with
    | [] => (hpk, None)
    | _ :: _ => (EmptyString, Some (errNew "ambiguous pubkey"))
    end.
Proof.
  induction keys as [| key rest IH]; intros hpk Hhpk;
    cbn [renterutil.lookupLoop filter];
    apply String.eqb_neq in Hhpk; rewrite Hhpk.
  - reflexivity.
  - destruct (strings.HasPrefix key prefix); [reflexivity |].
    apply IH. apply String.eqb_neq. exact Hhpk.
Qed.

Lemma lookupLoop_fresh (prefix : string) (keys : list string) :
  prefix <> EmptyString ->
  renterutil.lookupLoop keys prefix EmptyString
  = match filter (fun key => strings.HasPrefix key prefix) keys with
    | [] => (EmptyString, Some (errNew "no host with that pubkey"))
    | [key] => (key, None)
    | _ :: _ :: _ => (EmptyString, Some (errNew "ambiguous pubkey"))
    end.
Proof.
  intros Hp. induction keys as [| key rest IH];
    cbn [renterutil.lookupLoop filter]; [reflexivity |].
  destruct (strings.HasPrefix key prefix) eqn:Hkey.
  - cbn [String.eqb negb].
    rewrite lookupLoop_found by (eapply HasPrefix_nonempty; eassumption).
    destruct (filter _ rest); reflexivity.
  - exact IH.
Qed.

(** X24: [LookupHost] answers with a host key exactly when one listed key has
    the wanted prefix, the prefix being completed with [ed25519:] when it
    lacks it; no such key and more than one (the same key listed twice
    included) are the two errors. *)
Theorem LookupHost_returns_the_only_match (hosts : list string)
    (prefix : string) :
  let wanted :=
    if strings.HasPrefix prefix "ed25519:" then prefix
    else ("ed25519:" ++ prefix)%string in
  renterutil.LookupHost (inr hosts) prefix
  = match filter (fun key => strings.HasPrefix key wanted) hosts with
    | [] => (EmptyString, Some (errNew "no host with that pubkey"))
    | [key] => (key, None)
    | _ :: _ :: _ => (EmptyString, Some (errNew "ambiguous pubkey"))
    end.
Proof.
  unfold renterutil.LookupHost.
  destruct (strings.HasPrefix prefix "ed25519:") eqn:Hp; cbn [negb].
  - apply lookupLoop_fresh. intros ->. discriminate Hp.
  - apply lookupLoop_fresh. discriminate.
Qed.

(** X25: [AcceptTransactionSet] hands the whole set to the pool: the
    transaction it posts and the parents it posts with it are the set,
    split before its last element. *)
Theorem AcceptTransactionSet_posts_whole_set
    (post : Transaction -> list Transaction -> option error)
    (txnSet : list Transaction) :
  txnSet <> [] ->
  exists txn parents,
    txnSet = parents ++ [txn] /\
    renterutil.AcceptTransactionSet post txnSet = post txn parents.
Proof.
  intros Hne. destruct (exists_last Hne) as (parents & txn & ->).
  exists txn, parents. split; [reflexivity |].
  unfold renterutil.AcceptTransactionSet, index.
  rewrite length_app. cbn [length].
  replace (length parents + 1 - 1)%nat with (length parents) by lia.
  destruct (Nat.eqb_spec (length parents + 1) 0) as [Hz | _]; [lia |].
  rewrite nth_error_app2 by lia. rewrite Nat.sub_diag. cbn [nth_error].
  rewrite firstn_app, Nat.sub_diag, firstn_all. cbn [firstn].
  rewrite app_nil_r. reflexivity.
Qed.

Lemma AcceptTransactionSet_posts_whole_set_witness :
  [zeroTransaction; zeroTransaction] <> [] /\
  exists txn parents,
    [zeroTransaction; zeroTransaction] = parents ++ [txn] /\
    renterutil.AcceptTransactionSet oneParentPool
      [zeroTransaction; zeroTransaction]
    = oneParentPool txn parents.
Proof.
  split; [discriminate |].
  apply (AcceptTransactionSet_posts_whole_set oneParentPool
           [zeroTransaction; zeroTransaction]).
  discriminate.
Defined.

(** X26: The [migrate] action never reports that several strategies were given:
    whatever the flags, one of the earlier cases of its [switch] applies.
    Given together, a file wins over the other two flags and [direct] over
    [remote]. *)
Theorem migrate_never_reports_several_strategies (mFile : string)
    (mDirect mRemote isDir : bool) :
  user.migrateSwitch mFile mDirect mRemote isDir <> user.multipleStrategies /\
  (mFile <> EmptyString ->
   user.migrateSwitch mFile mDirect mRemote isDir
   = user.migrateSwitch mFile false false isDir) /\
  (mDirect = true ->
   user.migrateSwitch EmptyString mDirect mRemote isDir
   = user.migrateSwitch EmptyString true false isDir).
Proof.
  unfold user.migrateSwitch. repeat split.
  - destruct (String.eqb mFile EmptyString), mDirect, mRemote, isDir;
      discriminate.
  - intros Hfile. apply String.eqb_neq in Hfile. rewrite Hfile.
    destruct isDir; reflexivity.
  - intros ->. destruct mRemote, isDir; reflexivity.
Qed.

Section WalrusSigning.

Context `{SiaCrypto} `{renterutil.Walrus}.

Lemma setSignature_unsigned (s : list byte) (sigs : list TransactionSignature) :
  forall i, map unsigned (renterutil.setSignature sigs i s) = map unsigned sigs.
Proof.
  induction sigs as [| sig rest IH]; intros [| i]; cbn; try reflexivity.
  rewrite IH. reflexivity.
Qed.

Lemma setSignature_other (s : list byte) (sigs : list TransactionSignature) :
  forall i j, i <> j ->
  nth_error (renterutil.setSignature sigs i s) j = nth_error sigs j.
Proof.
  induction sigs as [| sig rest IH]; intros [| i] [| j] Hij; cbn;
    try reflexivity; try contradiction.
  apply IH. congruence.
Qed.

Lemma sameButSignatures_refl (txn : renterutil.WalletTransaction) :
  sameButSignatures txn txn.
Proof. repeat split. Qed.

Lemma sameButSignatures_trans (a b c : renterutil.WalletTransaction) :
  sameButSignatures a b -> sameButSignatures b c -> sameButSignatures a c.
Proof.
  intros (H1 & H2 & H3 & H4) (K1 & K2 & K3 & K4).
  repeat split; congruence.
Qed.

Lemma sign_same (txn : renterutil.WalletTransaction) (i : nat) :
  sameButSignatures txn (snd (renterutil.sign txn i)).
Proof.
  unfold renterutil.sign.
  destruct (index _ i) as [sig |]; [| apply sameButSignatures_refl].
  destruct (renterutil.sigAddr txn _) as [addr |];
    [| apply sameButSignatures_refl].
  destruct (renterutil.AddressInfo addr) as [err | keyIndex];
    [apply sameButSignatures_refl |].
  repeat split. cbn. apply setSignature_unsigned.
Qed.

Lemma sign_other (txn : renterutil.WalletTransaction) (i j : nat) :
  i <> j ->
  nth_error (renterutil.TxnTransactionSignatures (snd (renterutil.sign txn i))) j
  = nth_error (renterutil.TxnTransactionSignatures txn) j.
Proof.
  intros Hij. unfold renterutil.sign.
  destruct (index _ i) as [sig |]; [| reflexivity].
  destruct (renterutil.sigAddr txn _) as [addr |]; [| reflexivity].
  destruct (renterutil.AddressInfo addr) as [err | keyIndex]; [reflexivity |].
  cbn. apply setSignature_other. exact Hij.
Qed.

Lemma signFirst_cases (parent : Hash) (txn : renterutil.WalletTransaction)
    (sigs : list TransactionSignature) : forall k,
  (renterutil.signFirst sigs k parent txn
   = (Some (errNew "sighash not found in transaction"), txn)) \/
  exists i sig,
    renterutil.signFirst sigs k parent txn = renterutil.sign txn (k + i) /\
    nth_error sigs i = Some sig /\ SigParentID sig = parent /\
    forall i' sig', (i' < i)%nat -> nth_error sigs i' = Some sig' ->
                    SigParentID sig' <> parent.
Proof.
  induction sigs as [| sig rest IH]; intros k; cbn [renterutil.signFirst].
  - left. reflexivity.
  - destruct (bytes_eqb (SigParentID sig) parent) eqn:Heq.
    + right. exists 0%nat, sig. rewrite Nat.add_0_r.
      apply bytes_eqb_eq in Heq. repeat split; try assumption.
      intros i' sig' Hlt. lia.
    + destruct (IH (S k)) as [Hnone | (i & sig0 & Hrun & Hnth & Hpid & Hfirst)].
      * left. exact Hnone.
      * right. exists (S i), sig0.
        rewrite Nat.add_succ_r. repeat split; try assumption.
        intros [| i'] sig' Hlt Hnth'; cbn in Hnth'.
        -- injection Hnth' as <-. intros Hpid'.
           apply bytes_eqb_eq in Hpid'. congruence.
        -- apply (Hfirst i' sig'); [lia | exact Hnth'].
Qed.

Lemma unsigned_parent (a b : TransactionSignature) :
  unsigned a = unsigned b -> SigParentID a = SigParentID b.
Proof. intros Hab. apply (f_equal SigParentID) in Hab. exact Hab. Qed.

Lemma same_parents (sigs sigs' : list TransactionSignature) (j : nat)
    (sig : TransactionSignature) :
  map unsigned sigs' = map unsigned sigs ->
  nth_error sigs j = Some sig ->
  exists sig', nth_error sigs' j = Some sig' /\
               SigParentID sig' = SigParentID sig.
Proof.
  intros Hmap Hnth.
  pose proof (map_nth_error unsigned j sigs Hnth) as Hu.
  rewrite <- Hmap in Hu. rewrite nth_error_map in Hu.
  destruct (nth_error sigs' j) as [sig' |]; [| discriminate Hu].
  exists sig'. split; [reflexivity |].
  cbn in Hu. injection Hu as Hu. apply unsigned_parent.
  unfold unsigned. congruence.
Qed.

Lemma shadowed_same (sigs sigs' : list TransactionSignature) (j : nat) :
  map unsigned sigs' = map unsigned sigs ->
  shadowed sigs j -> shadowed sigs' j.
Proof.
  intros Hmap (i & si & sj & Hlt & Hi & Hj & Hpid).
  destruct (same_parents sigs sigs' i si Hmap Hi) as (si' & Hi' & Hpi).
  destruct (same_parents sigs sigs' j sj Hmap Hj) as (sj' & Hj' & Hpj).
  exists i, si', sj'. repeat split; try assumption. congruence.
Qed.

Lemma signFirst_same (parent : Hash) (txn : renterutil.WalletTransaction) :
  sameButSignatures txn
    (snd (renterutil.signFirst (renterutil.TxnTransactionSignatures txn) 0
            parent txn)).
Proof.
  destruct (signFirst_cases parent txn
              (renterutil.TxnTransactionSignatures txn) 0)
    as [-> | (i & sig & -> & _)].
  - apply sameButSignatures_refl.
  - apply sign_same.
Qed.

Lemma signFirst_skips_shadowed (parent : Hash)
    (txn : renterutil.WalletTransaction) (j : nat) :
  shadowed (renterutil.TxnTransactionSignatures txn) j ->
  nth_error
    (renterutil.TxnTransactionSignatures
       (snd (renterutil.signFirst (renterutil.TxnTransactionSignatures txn) 0
               parent txn))) j
  = nth_error (renterutil.TxnTransactionSignatures txn) j.
Proof.
  intros (i0 & si & sj & Hlt & Hi & Hj & Hpid).
  destruct (signFirst_cases parent txn
              (renterutil.TxnTransactionSignatures txn) 0)
    as [-> | (i & sig & -> & Hnth & Hparent & Hfirst)]; [reflexivity |].
  cbn [Nat.add]. apply sign_other. intros ->.
  apply (Hfirst i0 si Hlt Hi). congruence.
Qed.

Lemma signAll_invariant (toSign : list Hash) :
  forall txn : renterutil.WalletTransaction,
  sameButSignatures txn (snd (renterutil.signAll toSign txn)) /\
  forall j, shadowed (renterutil.TxnTransactionSignatures txn) j ->
    nth_error
      (renterutil.TxnTransactionSignatures
         (snd (renterutil.signAll toSign txn))) j
    = nth_error (renterutil.TxnTransactionSignatures txn) j.
Proof.
  induction toSign as [| parent rest IH]; intros txn;
    cbn [renterutil.signAll].
  - split; [apply sameButSignatures_refl | reflexivity].
  - pose proof (signFirst_same parent txn) as Hsame.
    pose proof (signFirst_skips_shadowed parent txn) as Hskip.
    destruct (renterutil.signFirst _ 0 parent txn) as [[err |] txn1];
      cbn [snd] in *.
    + split; assumption.
    + destruct (IH txn1) as [Hsame1 Hskip1]. split.
      * eapply sameButSignatures_trans; eassumption.
      * intros j Hj. rewrite Hskip1, Hskip; [reflexivity | exact Hj |].
        destruct Hsame as (_ & _ & _ & Hmap).
        eapply shadowed_same; eassumption.
Qed.

(** X27: Asked for signatures by parent, [SignTransaction] touches nothing but
    signatures: the inputs, the revisions and every other field of the
    signature entries are afterwards what they were, error or not. *)
Theorem SignTransaction_writes_signatures_only
    (txn : renterutil.WalletTransaction) (toSign : list Hash) :
  toSign <> [] ->
  sameButSignatures txn (snd (renterutil.SignTransaction txn toSign)).
Proof.
  intros Hne. unfold renterutil.SignTransaction.
  destruct toSign as [| parent rest]; [contradiction |].
  cbn [length Nat.eqb]. apply signAll_invariant.
Qed.

(** X28: Only the first signature entry of a parent is ever signed: an entry
    that comes after another entry with the same parent is left as it was,
    however often the parent is asked for. *)
Theorem SignTransaction_skips_later_entries
    (txn : renterutil.WalletTransaction) (toSign : list Hash) (j : nat) :
  toSign <> [] ->
  shadowed (renterutil.TxnTransactionSignatures txn) j ->
  nth_error
    (renterutil.TxnTransactionSignatures
       (snd (renterutil.SignTransaction txn toSign))) j
  = nth_error (renterutil.TxnTransactionSignatures txn) j.
Proof.
  intros Hne. unfold renterutil.SignTransaction.
  destruct toSign as [| parent rest]; [contradiction |].
  cbn [length Nat.eqb]. apply signAll_invariant.
Qed.

Lemma inputAddr_same (txn txn' : renterutil.WalletTransaction) (id : Hash) :
  sameButSignatures txn txn' ->
  renterutil.sigAddr txn' id = renterutil.sigAddr txn id.
Proof.
  intros (H1 & H2 & H3 & _). unfold renterutil.sigAddr.
  rewrite H1, H2, H3. reflexivity.
Qed.

Lemma signable_same (txn txn' : renterutil.WalletTransaction) (id : Hash) :
  sameButSignatures txn txn' -> signable txn' id -> signable txn id.
Proof.
  intros Hsame ((sig & Hin & Hpid) & addr & keyIndex & Haddr & Hinfo).
  split.
  - destruct Hsame as (_ & _ & _ & Hmap).
    apply (in_map unsigned) in Hin. rewrite Hmap in Hin.
    apply in_map_iff in Hin. destruct Hin as (sig0 & Hu & Hin0).
    exists sig0. split; [exact Hin0 |].
    rewrite <- Hpid. apply unsigned_parent. exact Hu.
  - exists addr, keyIndex. split; [| exact Hinfo].
    rewrite <- Haddr. symmetry. apply inputAddr_same. exact Hsame.
Qed.

Lemma sign_success (txn txn' : renterutil.WalletTransaction) (i : nat)
    (sig : TransactionSignature) :
  nth_error (renterutil.TxnTransactionSignatures txn) i = Some sig ->
  renterutil.sign txn i = (None, txn') ->
  signable txn (SigParentID sig).
Proof.
  intros Hnth. unfold renterutil.sign, index. rewrite Hnth.
  destruct (renterutil.sigAddr txn _) as [addr |] eqn:Haddr;
    [| discriminate].
  destruct (renterutil.AddressInfo addr) as [err | keyIndex] eqn:Hinfo;
    [discriminate |].
  intros _. split.
  - exists sig. split; [| reflexivity]. eapply nth_error_In. exact Hnth.
  - exists addr, keyIndex. split; assumption.
Qed.

Lemma signAll_success (toSign : list Hash) :
  forall txn txn' : renterutil.WalletTransaction,
  renterutil.signAll toSign txn = (None, txn') ->
  forall parent, In parent toSign -> signable txn parent.
Proof.
  induction toSign as [| first rest IH]; intros txn txn' Hrun parent Hin;
    [destruct Hin |].
  cbn [renterutil.signAll] in Hrun.
  pose proof (signFirst_same first txn) as Hsame.
  destruct (signFirst_cases first txn
              (renterutil.TxnTransactionSignatures txn) 0)
    as [Hnone | (i & sig & Hfirst & Hnth & Hpid & _)].
  - rewrite Hnone in Hrun. discriminate Hrun.
  - rewrite Hfirst in Hrun, Hsame. cbn [Nat.add] in Hrun, Hsame.
    destruct (renterutil.sign txn i) as [[err |] txn1] eqn:Hsign;
      [discriminate Hrun |].
    cbn [snd] in Hsame.
    destruct Hin as [<- | Hin].
    + rewrite <- Hpid. eapply sign_success; eassumption.
    + eapply signable_same; [exact Hsame |].
      eapply IH; eassumption.
Qed.

(** X29: When [SignTransaction] returns no error, everything asked for was
    there to sign: each parent has a signature entry, is the parent of an
    input or a revision of the transaction, and the wallet knows the
    address of that one. *)
Theorem SignTransaction_success_signs_all
    (txn txn' : renterutil.WalletTransaction) (toSign : list Hash)
    (parent : Hash) :
  toSign <> [] ->
  renterutil.SignTransaction txn toSign = (None, txn') ->
  In parent toSign ->
  signable txn parent.
Proof.
  intros Hne. unfold renterutil.SignTransaction.
  destruct toSign as [| first rest]; [contradiction |].
  cbn [length Nat.eqb]. intros Hrun Hin.
  eapply signAll_success; eassumption.
Qed.

End WalrusSigning.

Lemma SignTransaction_writes_signatures_only_witness :
  sameButSignatures doubleEntryTxn
    (snd (@renterutil.SignTransaction toyCrypto toyWalrus doubleEntryTxn
            [zeroHash; zeroHash])).
Proof.
  apply (@SignTransaction_writes_signatures_only toyCrypto toyWalrus
           doubleEntryTxn [zeroHash; zeroHash]).
  discriminate.
Defined.

Lemma SignTransaction_skips_later_entries_witness :
  nth_error
    (renterutil.TxnTransactionSignatures
       (snd (@renterutil.SignTransaction toyCrypto toyWalrus doubleEntryTxn
               [zeroHash; zeroHash]))) 1
  = nth_error (renterutil.TxnTransactionSignatures doubleEntryTxn) 1.
Proof.
  apply (@SignTransaction_skips_later_entries toyCrypto toyWalrus
           doubleEntryTxn [zeroHash; zeroHash] 1).
  - discriminate.
  - exists 0%nat, (mkTxnSig zeroHash 0 0 (mkCovered true []) []),
      (mkTxnSig zeroHash 1 0 (mkCovered true []) []).
    repeat split. lia.
Defined.

Lemma SignTransaction_success_signs_all_witness :
  @signable toyCrypto toyWalrus doubleEntryTxn zeroHash.
Proof.
  apply (@SignTransaction_success_signs_all toyCrypto toyWalrus
           doubleEntryTxn
           (snd (@renterutil.SignTransaction toyCrypto toyWalrus
                   doubleEntryTxn [zeroHash]))
           [zeroHash] zeroHash).
  - discriminate.
  - reflexivity.
  - left. reflexivity.
Defined.
